(** * Bookstore backend: the cache-aside layer around the book inventory API

    A shallow embedding of [src/backend/server.js] (the Express handlers of
    the five book routes, the three cache helpers and the start-up sequence)
    together with the part of [src/database/init.sql] the handlers rely on
    (the [books] table and its seed rows) and the two functions of
    [src/frontend/html/app.js] that load the list into the page.

    Conventions of the model.
    - One request is handled at a time: every [await] of a handler runs to
      completion before the next request starts.  Interleavings of
      concurrent requests are not modelled.
    - JSON numbers are integers ([Z]); fractional prices and the rounding of
      [DECIMAL(10,2)] are outside the model.  Timestamps are integers
      (seconds of the store clock) and stand for their ISO-8601 text.
    - The path parameter [:id] is a canonical decimal identifier ([Z]).
    - The request body is an object whose five fields are absent, [null],
      or a value of the expected JSON type.
    - The store runs in strict SQL mode (the default since MySQL 5.7): a
      [NULL] written into a [NOT NULL] column is an error.
    - What the store leaves to the engine is a parameter of the store, the
      same for every statement of a run and arbitrary otherwise: the order
      in which [ORDER BY created_at DESC] delivers rows created at the same
      time, and the collation under which the [UNIQUE] index compares
      ISBNs ([utf8mb4_unicode_ci], given by the weight it assigns to a
      text).  Every property that quantifies over the state of the process
      holds for every such choice.
    - Any store statement and any cache command can fail for reasons outside
      the program (connection lost, a value that does not fit its column):
      two oracles, one per collaborator, say which ones do.  A cache command
      that is not answered is either rejected or left pending for ever (the
      client queues commands while it is reconnecting, and the handlers set
      no timeout); a handler that awaits a pending command never replies.
    - A cache entry carries its time-to-live, but time does not pass while a
      request is handled: expiry is not modelled. *)

From Stdlib Require Import ZArith List String Ascii Bool Lia.
From Stdlib Require Import Sorting.Sorted Sorting.Permutation.
From stdpp Require Import base option list gmap strings pretty.

Local Open Scope string_scope.
Local Open Scope list_scope.
Local Open Scope Z_scope.
Local Set Warnings "-register-all".

(** ** JSON values and the JavaScript operations the handlers apply to them *)

Inductive json : Type :=
  | JNull
  | JBool (b : bool)
  | JNum (n : Z)
  | JStr (s : string)
  | JArr (items : list json)
  | JObj (fields : list (string * json)).

(** [if (v)]: JavaScript truthiness of a parsed JSON value. *)
Definition truthy (v : json) : bool :=
  match v with
  | JNull => false
  | JBool b => b
  | JNum n => negb (n =? 0)
  | JStr s => negb (String.eqb s EmptyString)
  | JArr _ => true
  | JObj _ => true
  end.

Definition is_array (v : json) : bool :=
  match v with JArr _ => true | _ => false end.

Definition is_object (v : json) : bool :=
  match v with JObj _ => true | _ => false end.

(** Property lookup in an object literal ([None] is [undefined]). *)
Fixpoint obj_get (k : string) (fields : list (string * json)) : option json :=
  match fields with
  | [] => None
  | (k', v) :: rest => if String.eqb k k' then Some v else obj_get k rest
  end.

(** Assignment of one property: an existing key keeps its position and takes
    the new value, a new key is appended (insertion order; none of the keys
    written after a spread is integer-like). *)
Fixpoint obj_set (k : string) (v : json) (fields : list (string * json))
  : list (string * json) :=
  match fields with
  | [] => [(k, v)]
  | (k', v') :: rest =>
      if String.eqb k k' then (k, v) :: rest else (k', v') :: obj_set k v rest
  end.

Fixpoint index_from {A} (i : nat) (l : list A) : list (string * A) :=
  match l with
  | [] => []
  | x :: rest => (pretty i, x) :: index_from (S i) rest
  end.

Fixpoint chars (s : string) : list json :=
  match s with
  | EmptyString => []
  | String c rest => JStr (String c EmptyString) :: chars rest
  end.

(** [{ ...v }]: the own enumerable properties of [v].  An array contributes
    its elements under the keys "0", "1", ...; a string its characters; a
    number, a boolean and [null] contribute nothing. *)
Definition spread (v : json) : list (string * json) :=
  match v with
  | JObj fields => fields
  | JArr items => index_from 0 items
  | JStr s => index_from 0 (chars s)
  | _ => []
  end.

(** A property of the request body: absent ([undefined] once destructured),
    [null], or a value. *)
Inductive field (A : Type) : Type :=
  | Absent
  | Null
  | Given (a : A).
Arguments Absent {A}.
Arguments Null {A}.
Arguments Given {A} a.

(** What [JSON.stringify] makes of an object literal: properties whose value
    is [undefined] are left out. *)
Fixpoint object_literal (props : list (string * option json)) : list (string * json) :=
  match props with
  | [] => []
  | (k, Some v) :: rest => (k, v) :: object_literal rest
  | (_, None) :: rest => object_literal rest
  end.

Definition js_of {A} (inj : A -> json) (f : field A) : option json :=
  match f with
  | Absent => None
  | Null => Some JNull
  | Given a => Some (inj a)
  end.

(** [!x] on a string-valued property. *)
Definition falsy_str (f : field string) : bool :=
  match f with
  | Given s => String.eqb s EmptyString
  | _ => true
  end.

(** [x || 0] on a number-valued property. *)
Definition or_zero (f : field Z) : Z :=
  match f with
  | Given n => n
  | _ => 0
  end.

(** A bound parameter of a statement: [undefined] and [null] are both sent
    as SQL [NULL]. *)
Definition sql_param {A} (f : field A) : option A :=
  match f with
  | Given a => Some a
  | _ => None
  end.

Record request_body : Type := Body {
  title : field string;
  author : field string;
  isbn : field string;
  price : field Z;
  stock : field Z
}.

Record response : Type := Response {
  status : Z;
  body : json
}.

(** [res.status(c).json({ error: msg })] *)
Definition error_response (c : Z) (msg : string) : response :=
  Response c (JObj [("error", JStr msg)]).

(** ** The [books] table *)

(** A row of [books] (init.sql): [title], [author] and [isbn] are
    [NOT NULL]; [price] and [stock] have a default but are nullable. *)
Record book : Type := Book {
  row_id : Z;
  row_title : string;
  row_author : string;
  row_isbn : string;
  row_price : option Z;
  row_stock : option Z;
  created_at : Z;
  updated_at : Z
}.

Definition nullable (o : option Z) : json :=
  match o with
  | Some n => JNum n
  | None => JNull
  end.

(** A row as [res.json] and [JSON.stringify] serialise it. *)
Definition book_json (b : book) : json :=
  JObj [("id", JNum (row_id b)); ("title", JStr (row_title b));
        ("author", JStr (row_author b)); ("isbn", JStr (row_isbn b));
        ("price", nullable (row_price b)); ("stock", nullable (row_stock b));
        ("created_at", JNum (created_at b)); ("updated_at", JNum (updated_at b))].

Definition rows_json (rows : list book) : json := JArr (map book_json rows).

(** ** The cache *)

(** The text held under a key: the JSON text of a value, the empty string,
    or text that [JSON.parse] rejects. *)
Inductive redis_string : Type :=
  | JsonText (v : json)
  | EmptyText
  | Malformed.

Record entry : Type := Entry {
  payload : redis_string;
  ttl : Z
}.

(** [parseInt(process.env.CACHE_TTL) || 300] with the variable unset. *)
Definition CACHE_TTL : Z := 300.

(** ** Process state *)

Inductive sql_error : Type :=
  | ER_DUP_ENTRY
  | ER_BAD_NULL_ERROR
  | ER_OTHER.

Inductive error : Type :=
  | StoreError (code : sql_error)
  | CacheError
  | SyntaxError.

Record world : Type := World {
  books : list book;               (* the table, in scan order *)
  next_id : Z;                     (* AUTO_INCREMENT counter *)
  now : Z;                         (* CURRENT_TIMESTAMP *)
  tie_break : book -> book -> bool;  (* of two rows created at the same time,
                                        does the engine deliver the first
                                        before the second? *)
  collation : string -> string;    (* the weight of a text under the collation
                                      of the isbn column: two texts are equal
                                      to the index when their weights are *)
  store_fault : nat -> bool;       (* does the n-th statement fail? *)
  store_stmts : nat;               (* statements issued so far *)
  redisClient : option bool;       (* undefined, or a client and its isOpen *)
  cache : gmap string entry;       (* contents of the key/value cache *)
  cache_fault : nat -> bool;       (* is the n-th command left unanswered? *)
  cache_stall : nat -> bool;       (* if so: is it left pending for ever,
                                      rather than rejected? *)
  cache_cmds : nat;                (* commands issued so far *)
  console : list string            (* lines written by console.error *)
}.

Definition with_books (l : list book) (w : world) : world :=
  World l (next_id w) (now w) (tie_break w) (collation w)
        (store_fault w) (store_stmts w)
        (redisClient w) (cache w) (cache_fault w) (cache_stall w) (cache_cmds w)
        (console w).

Definition with_next_id (n : Z) (w : world) : world :=
  World (books w) n (now w) (tie_break w) (collation w)
        (store_fault w) (store_stmts w)
        (redisClient w) (cache w) (cache_fault w) (cache_stall w) (cache_cmds w)
        (console w).

Definition with_store_stmts (n : nat) (w : world) : world :=
  World (books w) (next_id w) (now w) (tie_break w) (collation w)
        (store_fault w) n
        (redisClient w) (cache w) (cache_fault w) (cache_stall w) (cache_cmds w)
        (console w).

Definition with_cache (c : gmap string entry) (w : world) : world :=
  World (books w) (next_id w) (now w) (tie_break w) (collation w)
        (store_fault w) (store_stmts w)
        (redisClient w) c (cache_fault w) (cache_stall w) (cache_cmds w)
        (console w).

Definition with_cache_cmds (n : nat) (w : world) : world :=
  World (books w) (next_id w) (now w) (tie_break w) (collation w)
        (store_fault w) (store_stmts w)
        (redisClient w) (cache w) (cache_fault w) (cache_stall w) n
        (console w).

Definition with_console (l : list string) (w : world) : world :=
  World (books w) (next_id w) (now w) (tie_break w) (collation w)
        (store_fault w) (store_stmts w)
        (redisClient w) (cache w) (cache_fault w) (cache_stall w) (cache_cmds w)
        l.

(** ** A state-and-exception monad for the asynchronous functions

    An awaited call resolves, rejects, or never settles; in the last case
    the function that awaits it never gets any further. *)

Inductive outcome (A : Type) : Type :=
  | Ok (a : A)
  | Throw (e : error)
  | Pending.
Arguments Ok {A} a.
Arguments Throw {A} e.
Arguments Pending {A}.

Definition M (A : Type) : Type := world -> outcome A * world.

Definition ret {A} (a : A) : M A := fun w => (Ok a, w).

Definition throw {A} (e : error) : M A := fun w => (Throw e, w).

Definition bind {A B} (m : M A) (k : A -> M B) : M B :=
  fun w =>
    match m w with
    | (Ok a, w1) => k a w1
    | (Throw e, w1) => (Throw e, w1)
    | (Pending, w1) => (Pending, w1)
    end.

(** [try { m } catch (error) { h error }]: a call that never settles is not
    an exception, nothing catches it. *)
Definition try_catch {A} (m : M A) (h : error -> M A) : M A :=
  fun w =>
    match m w with
    | (Ok a, w1) => (Ok a, w1)
    | (Throw e, w1) => h e w1
    | (Pending, w1) => (Pending, w1)
    end.

Declare Scope js_scope.
Delimit Scope js_scope with js.
Notation "'let!' x ':=' m 'in' k" := (bind m (fun x => k))
  (at level 10, x name, m at level 100, k at level 200) : js_scope.
Notation "m '>>' k" := (bind m (fun _ => k))
  (at level 90, right associativity) : js_scope.
Local Open Scope js_scope.

Definition console_error (line : string) : M unit :=
  fun w => (Ok tt, with_console (console w ++ [line]) w).

(** ** The store: the five statements the handlers issue

    Every statement first consults the store oracle: a statement the oracle
    fails throws an error whose code is not [ER_DUP_ENTRY] and leaves the
    table as it is. *)

Definition statement {A} (run : M A) : M A :=
  fun w =>
    let w1 := with_store_stmts (S (store_stmts w)) w in
    if store_fault w (store_stmts w)
    then (Throw (StoreError ER_OTHER), w1)
    else run w1.

Definition has_id (id : Z) (b : book) : bool := row_id b =? id.

(** The row carries the ISBN [i], as the [UNIQUE] index of the column
    compares ISBNs: under the collation of the table. *)
Definition has_isbn (weight : string -> string) (i : string) (b : book) : bool :=
  String.eqb (weight (row_isbn b)) (weight i).

(** [ORDER BY created_at DESC]: rows with a later [created_at] come first.
    The clause names no second key: which of two rows with equal
    [created_at] comes first is up to the engine ([first]). *)
Fixpoint place_desc (first : book -> book -> bool) (b : book) (sorted : list book)
  : list book :=
  match sorted with
  | [] => [b]
  | x :: rest =>
      if (created_at x <? created_at b)
         || ((created_at x =? created_at b) && first b x)
      then b :: x :: rest
      else x :: place_desc first b rest
  end.

Definition order_by_created_at_desc (first : book -> book -> bool)
    (rows : list book) : list book :=
  fold_right (place_desc first) [] rows.

(** [SELECT * FROM books ORDER BY created_at DESC] *)
Definition sql_select_all : M (list book) :=
  statement (fun w => (Ok (order_by_created_at_desc (tie_break w) (books w)), w)).

(** [SELECT * FROM books WHERE id = ?] *)
Definition sql_select_by_id (id : Z) : M (list book) :=
  statement (fun w => (Ok (List.filter (has_id id) (books w)), w)).

(** [INSERT INTO books (title, author, isbn, price, stock) VALUES (?, ?, ?, ?, ?)]
    returning [insertId].  [id] comes from the AUTO_INCREMENT counter,
    [created_at] and [updated_at] from the store clock; [isbn] is [UNIQUE].
    The engine of the table (InnoDB) reserves the identifier before it
    checks the index and does not give it back: a duplicate leaves the table
    as it is and the counter one further. *)
Definition sql_insert (t a i : option string) (p s : option Z) : M Z :=
  statement (fun w =>
    match t, a, i with
    | Some t, Some a, Some i =>
        if existsb (has_isbn (collation w) i) (books w)
        then (Throw (StoreError ER_DUP_ENTRY), with_next_id (next_id w + 1) w)
        else
          let b := Book (next_id w) t a i p s (now w) (now w) in
          (Ok (next_id w),
           with_next_id (next_id w + 1) (with_books (books w ++ [b]) w))
    | _, _, _ => (Throw (StoreError ER_BAD_NULL_ERROR), w)
    end).

Definition replace_row (id : Z) (t a i : string) (p s : option Z) (t_now : Z)
    (b : book) : book :=
  if has_id id b
  then Book (row_id b) t a i p s (created_at b) t_now
  else b.

(** [UPDATE books SET title = ?, author = ?, isbn = ?, price = ?, stock = ?,
    updated_at = NOW() WHERE id = ?] returning [affectedRows] (the driver
    connects with FOUND_ROWS, so this is the number of rows matched).  With
    no matching row nothing is evaluated and nothing can fail. *)
Definition sql_update (t a i : option string) (p s : option Z) (id : Z) : M nat :=
  statement (fun w =>
    match List.filter (has_id id) (books w) with
    | [] => (Ok 0%nat, w)
    | matched =>
        match t, a, i with
        | Some t, Some a, Some i =>
            if existsb (fun b => negb (has_id id b) && has_isbn (collation w) i b)
                       (books w)
            then (Throw (StoreError ER_DUP_ENTRY), w)
            else (Ok (length matched),
                  with_books (map (replace_row id t a i p s (now w)) (books w)) w)
        | _, _, _ => (Throw (StoreError ER_BAD_NULL_ERROR), w)
        end
    end).

(** [DELETE FROM books WHERE id = ?] returning [affectedRows]. *)
Definition sql_delete (id : Z) : M nat :=
  statement (fun w =>
    (Ok (length (List.filter (has_id id) (books w))),
     with_books (List.filter (fun b => negb (has_id id b)) (books w)) w)).

(** ** The cache client: the four commands the helpers issue

    A command the cache oracle leaves unanswered changes nothing in the
    cache; it is rejected, or it stays in the queue of the client and its
    promise never settles. *)

Definition command {A} (run : M A) : M A :=
  fun w =>
    let w1 := with_cache_cmds (S (cache_cmds w)) w in
    if cache_fault w (cache_cmds w)
    then (if cache_stall w (cache_cmds w) then Pending else Throw CacheError, w1)
    else run w1.

(** Glob matching as [KEYS] does it, for patterns made of literal
    characters and [*]. *)
Fixpoint glob (pattern : string) : string -> bool :=
  match pattern with
  | EmptyString =>
      fun s => match s with EmptyString => true | String _ _ => false end
  | String c pattern' =>
      if Ascii.eqb c "*"%char
      then
        fix star (s : string) : bool :=
          glob pattern' s
          || match s with
             | EmptyString => false
             | String _ s' => star s'
             end
      else
        fun s =>
          match s with
          | EmptyString => false
          | String d s' => Ascii.eqb c d && glob pattern' s'
          end
  end.

(** [redisClient.get(key)]: the text, or [null]. *)
Definition redis_get (key : string) : M (option redis_string) :=
  command (fun w => (Ok (payload <$> cache w !! key), w)).

(** [redisClient.setEx(key, ttl, text)] *)
Definition redis_setEx (key : string) (seconds : Z) (text : redis_string) : M unit :=
  command (fun w => (Ok tt, with_cache (<[key := Entry text seconds]> (cache w)) w)).

(** [redisClient.keys(pattern)] *)
Definition redis_keys (pattern : string) : M (list string) :=
  command (fun w =>
    (Ok (List.filter (glob pattern) (map fst (map_to_list (cache w)))), w)).

(** [redisClient.del(keys)] *)
Definition redis_del (keys : list string) : M unit :=
  command (fun w => (Ok tt, with_cache (foldr delete (cache w) keys) w)).

(** [redisClient?.isOpen] *)
Definition isOpen (w : world) : bool :=
  match redisClient w with
  | Some open => open
  | None => false
  end.

Definition JSON_stringify (v : json) : redis_string := JsonText v.

Definition JSON_parse (text : redis_string) : M json :=
  match text with
  | JsonText v => ret v
  | _ => throw SyntaxError
  end.

(** ** Cache helper functions (server.js, 81-113) *)

Definition getFromCache (key : string) : M json :=
  fun w =>
    if negb (isOpen w) then (Ok JNull, w)
    else
      try_catch
        (let! cached := redis_get key in
         match cached with
         | None => ret JNull
         | Some EmptyText => ret JNull
         | Some text => JSON_parse text
         end)
        (fun _ => console_error "Cache get error:" >> ret JNull)
        w.

Definition setToCache (key : string) (data : json) : M unit :=
  fun w =>
    if negb (isOpen w) then (Ok tt, w)
    else
      try_catch
        (redis_setEx key CACHE_TTL (JSON_stringify data))
        (fun _ => console_error "Cache set error:")
        w.

Definition invalidateCache (pattern : string) : M unit :=
  fun w =>
    if negb (isOpen w) then (Ok tt, w)
    else
      try_catch
        (let! keys := redis_keys pattern in
         (if (0 <? length keys)%nat then redis_del keys else ret tt) >>
         (* Also invalidate the all books cache *)
         redis_del ["books:all"])
        (fun _ => console_error "Cache invalidate error:")
        w.

(** ** Book API routes (server.js, 155-291) *)

(** [GET /api/books] *)
Definition GET_books : M response :=
  try_catch
    (let! cached := getFromCache "books:all" in
     if truthy cached
     then ret (Response 200 (JObj (obj_set "fromCache" (JBool true) (spread cached))))
     else
       let! rows := sql_select_all in
       setToCache "books:all" (rows_json rows) >>
       ret (Response 200 (rows_json rows)))
    (fun _ =>
       console_error "Error fetching books:" >>
       ret (error_response 500 "Failed to fetch books")).

Definition item_key (id : Z) : string := "books:" +:+ pretty id.

(** [GET /api/books/:id] *)
Definition GET_book (id : Z) : M response :=
  try_catch
    (let cacheKey := item_key id in
     let! cached := getFromCache cacheKey in
     if truthy cached
     then ret (Response 200 (JObj (obj_set "fromCache" (JBool true) (spread cached))))
     else
       let! rows := sql_select_by_id id in
       match rows with
       | [] => ret (error_response 404 "Book not found")
       | row :: _ =>
           setToCache cacheKey (book_json row) >>
           ret (Response 200 (book_json row))
       end)
    (fun _ =>
       console_error "Error fetching book:" >>
       ret (error_response 500 "Failed to fetch book")).

Definition is_dup_entry (e : error) : bool :=
  match e with
  | StoreError ER_DUP_ENTRY => true
  | _ => false
  end.

(** The properties every mutation response echoes from the request. *)
Definition echo (b : request_body) : list (string * option json) :=
  [("title", js_of JStr (title b)); ("author", js_of JStr (author b));
   ("isbn", js_of JStr (isbn b)); ("price", js_of JNum (price b));
   ("stock", js_of JNum (stock b))].

(** [POST /api/books] *)
Definition POST_books (b : request_body) : M response :=
  try_catch
    (if falsy_str (title b) || falsy_str (author b) || falsy_str (isbn b)
     then ret (error_response 400 "Title, author, and ISBN are required")
     else
       let! insertId :=
         sql_insert (sql_param (title b)) (sql_param (author b)) (sql_param (isbn b))
                    (Some (or_zero (price b))) (Some (or_zero (stock b))) in
       invalidateCache "books:*" >>
       ret (Response 201
              (JObj (object_literal
                 (("id", Some (JNum insertId)) :: echo b ++
                  [("message", Some (JStr "Book created successfully"))])))))
    (fun e =>
       console_error "Error creating book:" >>
       if is_dup_entry e
       then ret (error_response 409 "Book with this ISBN already exists")
       else ret (error_response 500 "Failed to create book")).

(** [PUT /api/books/:id] *)
Definition PUT_book (id : Z) (b : request_body) : M response :=
  try_catch
    (let! affectedRows :=
       sql_update (sql_param (title b)) (sql_param (author b)) (sql_param (isbn b))
                  (sql_param (price b)) (sql_param (stock b)) id in
     if (affectedRows =? 0)%nat
     then ret (error_response 404 "Book not found")
     else
       invalidateCache "books:*" >>
       ret (Response 200
              (JObj (object_literal
                 (("id", Some (JNum id)) :: echo b ++
                  [("message", Some (JStr "Book updated successfully"))])))))
    (fun _ =>
       console_error "Error updating book:" >>
       ret (error_response 500 "Failed to update book")).

(** [DELETE /api/books/:id] *)
Definition DELETE_book (id : Z) : M response :=
  try_catch
    (let! affectedRows := sql_delete id in
     if (affectedRows =? 0)%nat
     then ret (error_response 404 "Book not found")
     else
       invalidateCache "books:*" >>
       ret (Response 200 (JObj [("message", JStr "Book deleted successfully")])))
    (fun _ =>
       console_error "Error deleting book:" >>
       ret (error_response 500 "Failed to delete book")).

(** ** Start-up (server.js, 46-78 and 312-338)

    The environment decides what each call of [initDatabase] meets:
    [mysql.createPool] throwing, [pool.getConnection] rejecting, or a
    connection being handed out; and what becomes of
    [await redisClient.connect()]: it resolves, it rejects, or it never
    settles (the client keeps trying to reach the server). *)

Inductive connect_result : Type :=
  | PoolCreationFails
  | ConnectionFails
  | Connects.

Inductive redis_connect : Type :=
  | Settles (ok : bool)                (* connect() resolves, or rejects *)
  | NeverSettles.                      (* connect() stays pending *)

Inductive event : Type :=
  | TryDatabase (r : connect_result)   (* one call of initDatabase *)
  | Wait (ms : Z)                      (* setTimeout(resolve, ms) *)
  | TryRedis (c : redis_connect)       (* the call of initRedis *)
  | Exit (code : Z)                    (* process.exit(code) *)
  | Listen.                            (* app.listen(PORT, ...) *)

Record process : Type := Process {
  pool : option unit;          (* let pool; *)
  redis_open : option bool;    (* let redisClient; and its isOpen *)
  timeline : list event
}.

Definition boot : process := Process None None [].

Definition emit (e : event) (p : process) : process :=
  Process (pool p) (redis_open p) (timeline p ++ [e]).

Definition database_calls (p : process) : nat :=
  length (List.filter (fun e => match e with TryDatabase _ => true | _ => false end)
                      (timeline p)).

(** [initDatabase]: the pool is assigned before the connection is tested. *)
Definition initDatabase (r : connect_result) (p : process) : bool * process :=
  match r with
  | PoolCreationFails => (false, emit (TryDatabase r) p)
  | ConnectionFails =>
      (false, emit (TryDatabase r) (Process (Some tt) (redis_open p) (timeline p)))
  | Connects =>
      (true, emit (TryDatabase r) (Process (Some tt) (redis_open p) (timeline p)))
  end.

(** [initRedis]: the value it returns, or [None] when it never returns.
    The client is assigned, and opened by [connect()], before the [await]. *)
Definition initRedis (c : redis_connect) (p : process) : option bool * process :=
  match c with
  | Settles ok =>
      (Some ok, emit (TryRedis c) (Process (pool p) (Some ok) (timeline p)))
  | NeverSettles =>
      (None, emit (TryRedis c) (Process (pool p) (Some true) (timeline p)))
  end.

(** [while (retries > 0) { ... retries--; }] *)
Fixpoint connect_loop (retries : nat) (db : nat -> connect_result) (p : process)
  : process :=
  match retries with
  | O => p
  | S retries' =>
      let (connected, p1) := initDatabase (db (database_calls p)) p in
      if connected then p1
      else connect_loop retries' db (emit (Wait 5000) p1)
  end.

(** [startServer]; when [await initRedis()] never returns, neither does
    [startServer], and [app.listen] is not reached. *)
Definition startServer (db : nat -> connect_result) (redis : redis_connect)
  : process :=
  let p := connect_loop 5 db boot in
  match pool p with
  | None => emit (Exit 1) p
  | Some _ =>
      match initRedis redis p with
      | (Some _, p1) => emit Listen p1
      | (None, p1) => p1
      end
  end.

(** The process accepts requests once [app.listen] has been called. *)
Definition listening (p : process) : Prop := In Listen (timeline p).

(** The store connection was verified: some [initDatabase] returned [true]. *)
Definition verified (p : process) : Prop := In (TryDatabase Connects) (timeline p).

Definition exited (p : process) : Prop := exists code, In (Exit code) (timeline p).

(** * Vocabulary of the properties, and sample data *)

(** ** Reading results off a run *)

(** The response a handler run ends with, if no exception escaped it. *)
Definition reply (run : outcome response * world) : option response :=
  match fst run with
  | Ok r => Some r
  | _ => None
  end.

(** The run never settles. *)
Definition pending {A} (run : outcome A * world) : bool :=
  match fst run with
  | Pending => true
  | _ => false
  end.

(** The handler replies [r] once [run], its last [await], has settled. *)
Definition reply_after {A} (r : response) (run : outcome A * world)
  : outcome response * world :=
  (if pending run then Pending else Ok r, snd run).

Definition after {A} (run : outcome A * world) : world := snd run.

(** The world after one more cache command, and after one more console line. *)
Definition one_command (w : world) : world :=
  with_cache_cmds (S (cache_cmds w)) w.

Definition recorded (line : string) (w : world) : world :=
  with_console (console w ++ [line]) w.

(** The keys [KEYS pattern] reports. *)
Definition matching_keys (pattern : string) (c : gmap string entry) : list string :=
  List.filter (glob pattern) (map fst (map_to_list c)).

(** Property names made of decimal digits, as a spread array has them. *)
Definition is_digit (c : ascii) : bool :=
  (48 <=? nat_of_ascii c)%nat && (nat_of_ascii c <=? 57)%nat.

Fixpoint digits_only (s : string) : bool :=
  match s with
  | EmptyString => true
  | String c rest => is_digit c && digits_only rest
  end.

(** ** Sample data: rows of the seed [INSERT] of init.sql

    The seed rows are written by one statement, so they share their
    [created_at].  Prices are in cents. *)

Definition pragmatic_programmer : book :=
  Book 1 "The Pragmatic Programmer" "David Thomas, Andrew Hunt" "978-0135957059"
       (Some 4999) (Some 25) 1000 1000.

Definition clean_code : book :=
  Book 2 "Clean Code" "Robert C. Martin" "978-0132350884"
       (Some 3999) (Some 30) 1000 1000.

Definition design_patterns : book :=
  Book 3 "Design Patterns" "Gang of Four" "978-0201633610"
       (Some 5499) (Some 15) 1000 1000.

Definition never : nat -> bool := fun _ => false.
Definition always : nat -> bool := fun _ => true.

(** Two engines for the examples: one delivers rows created at the same time
    in the order of the table scan, the other in the opposite order. *)
Definition scan_order : book -> book -> bool := fun _ _ => true.
Definition reverse_scan_order : book -> book -> bool := fun _ _ => false.

(** A collation for the examples.  On the characters an ISBN is written
    with, [utf8mb4_unicode_ci] does not tell upper case from lower case and
    ignores blanks at the end. *)
Definition lower_case (c : ascii) : ascii :=
  let n := nat_of_ascii c in
  if (65 <=? n)%nat && (n <=? 90)%nat then ascii_of_nat (n + 32) else c.

Fixpoint ci_pad_space (s : string) : string :=
  match s with
  | EmptyString => EmptyString
  | String c rest =>
      match ci_pad_space rest with
      | EmptyString =>
          if Ascii.eqb c " "%char then EmptyString
          else String (lower_case c) EmptyString
      | weights => String (lower_case c) weights
      end
  end.

(** A healthy process: three seed rows, an open cache client, an empty
    cache, no failing statement or command. *)
Definition seeded : world :=
  World [pragmatic_programmer; clean_code; design_patterns] 4 2000
        scan_order ci_pad_space never 0 (Some true) ∅ never never 0 [].

(** The same process on an engine that delivers ties the other way round. *)
Definition seeded_reversed : world :=
  World [pragmatic_programmer; clean_code; design_patterns] 4 2000
        reverse_scan_order ci_pad_space never 0 (Some true) ∅ never never 0 [].

Definition seeded_cached : world :=
  with_cache
    (<["books:all" := Entry (JsonText (rows_json [pragmatic_programmer; clean_code])) 300]> ∅)
    seeded.

(** ** Predicates the statements use *)

(** Every pause of the loop lasts 5000 ms. *)
Definition fixed_backoff (e : event) : Prop :=
  match e with
  | Wait ms => ms = 5000
  | _ => True
  end.

(** [w'] has the store of [w]: same table, counter, clock, oracle position
    and engine. *)
Definition same_store (w w' : world) : Prop :=
  books w' = books w /\ next_id w' = next_id w /\ now w' = now w
  /\ store_fault w' = store_fault w /\ store_stmts w' = store_stmts w
  /\ tie_break w' = tie_break w /\ collation w' = collation w.

(** [w'] has the cache client of [w]: same client and same oracle. *)
Definition same_client (w w' : world) : Prop :=
  redisClient w' = redisClient w /\ cache_fault w' = cache_fault w
  /\ cache_stall w' = cache_stall w.

(** No cache command is left pending: one that is not answered is
    rejected. *)
Definition responsive (w : world) : Prop :=
  forall n, cache_fault w n = true -> cache_stall w n = false.

Ltac frame_cases :=
  repeat match goal with
    | |- context [if ?c then _ else _] => destruct c
    | |- context [match ?o with Some _ => _ | None => _ end] => destruct o
    | |- context [match ?e with Entry _ _ => _ end] => destruct e
    | |- context [match ?s with JsonText _ => _ | _ => _ end] => destruct s
    end.

(** The value a lookup yields ([null] when it yields nothing). *)
Definition cache_lookup (key : string) (w : world) : json :=
  match fst (getFromCache key w) with
  | Ok v => v
  | _ => JNull
  end.

(** The handler takes the store path: the lookup result is falsy. *)
Definition cache_miss (key : string) (w : world) : Prop :=
  truthy (cache_lookup key w) = false.

Definition one_statement (w : world) : world :=
  with_store_stmts (S (store_stmts w)) w.

Definition not_earlier (a b : book) : Prop := created_at b <= created_at a.

Definition created_on (t : Z) (b : book) : bool := created_at b =? t.

(** The order C3 asks for: later rows first, and among rows created at the
    same time the larger identifier first. *)
Definition before_by_time_then_id (a b : book) : Prop :=
  created_at b < created_at a
  \/ (created_at a = created_at b /\ row_id b < row_id a).

Definition recent_first_ties_by_id_desc (rows : list book) : Prop :=
  StronglySorted before_by_time_then_id rows.

(** [!title || !author || !isbn] *)
Definition missing_required (b : request_body) : bool :=
  falsy_str (title b) || falsy_str (author b) || falsy_str (isbn b).

(** The row a successful POST writes. *)
Definition created_row (t a i : string) (b : request_body) (w : world) : book :=
  Book (next_id w) t a i (Some (or_zero (price b))) (Some (or_zero (stock b)))
       (now w) (now w).

(** The world right after the INSERT, before the invalidation. *)
Definition inserted (row : book) (w : world) : world :=
  with_next_id (next_id w + 1) (with_books (books w ++ [row]) (one_statement w)).

(** The world right after an INSERT the index refused: the identifier it
    had reserved is gone. *)
Definition refused_insert (w : world) : world :=
  with_next_id (next_id w + 1) (one_statement w).

(** The body of the 201 reply. *)
Definition created_fields (b : request_body) (w : world) : list (string * json) :=
  object_literal
    (("id", Some (JNum (next_id w))) :: echo b ++
     [("message", Some (JStr "Book created successfully"))]).

(** A request for the examples: required fields only. *)
Definition refactoring : request_body :=
  Body (Given "Refactoring") (Given "Martin Fowler") (Given "978-0134757599")
       Absent Absent.

(** Some other row already carries ISBN [i]. *)
Definition isbn_taken_elsewhere (id : Z) (i : string) (w : world) : bool :=
  existsb (fun b => negb (has_id id b) && has_isbn (collation w) i b) (books w).

(** The world right after the UPDATE, before the invalidation. *)
Definition updated (id : Z) (t a i : string) (b : request_body) (w : world) : world :=
  with_books
    (map (replace_row id t a i (sql_param (price b)) (sql_param (stock b)) (now w))
         (books w))
    (one_statement w).

(** The world right after the DELETE, before the invalidation. *)
Definition deleted (id : Z) (w : world) : world :=
  with_books (List.filter (fun b => negb (has_id id b)) (books w)) (one_statement w).

Definition updated_fields (id : Z) (b : request_body) : list (string * json) :=
  object_literal
    (("id", Some (JNum id)) :: echo b ++
     [("message", Some (JStr "Book updated successfully"))]).

Definition server_error_on_update : response :=
  error_response 500 "Failed to update book".

(** A request without a title; everything else is in order. *)
Definition untitled : request_body :=
  Body Absent (Given "Martin Fowler") (Given "978-0134757599") (Given 4500) (Given 3).

(** Clean Code resubmitted with the ISBN of The Pragmatic Programmer. *)
Definition clean_code_wrong_isbn : request_body :=
  Body (Given "Clean Code") (Given "Robert C. Martin") (Given "978-0135957059")
       (Given 3999) (Given 30).

Inductive mutation : Type :=
  | Create (b : request_body)
  | Update (id : Z) (b : request_body)
  | Delete (id : Z).

Definition handle_mutation (m : mutation) : M response :=
  match m with
  | Create b => POST_books b
  | Update id b => PUT_book id b
  | Delete id => DELETE_book id
  end.

(** The mutation was applied: the reply is 200 or 201. *)
Definition acknowledged (r : response) : bool :=
  (status r =? 200) || (status r =? 201).

(** [w1] is [w] as far as the cache, its client and the console go. *)
Definition cache_untouched (w w1 : world) : Prop :=
  same_client w w1 /\ cache w1 = cache w /\ cache_cmds w1 = cache_cmds w
  /\ console w1 = console w.

(** The sweep of the next invalidation does not take place: the client is
    open, and [KEYS] or the [DEL] of the keys it reports is not answered. *)
Definition sweep_rejected (w : world) : bool :=
  isOpen w
  && (cache_fault w (cache_cmds w)
      || ((0 <? length (matching_keys "books:*" (cache w)))%nat
          && cache_fault w (S (cache_cmds w)))).


(** The same, with the third command failing instead: the final [DEL] of
    the next sweep. *)
Definition final_DEL_fails : world :=
  World [pragmatic_programmer; clean_code; design_patterns] 4 2000
        scan_order ci_pad_space never 0 (Some true)
        (<["books:all" :=
             Entry (JsonText (rows_json [pragmatic_programmer; clean_code;
                                         design_patterns])) 300]> ∅)
        (fun n => Nat.eqb n 2) never 0 [].

(** The server behind an open client cannot be reached: the client keeps
    every command in its queue, none is answered and none is rejected. *)
Definition out_of_reach (w : world) : Prop :=
  isOpen w = true /\ forall n, cache_fault w n = true /\ cache_stall w n = true.

(** Degraded mode: with the store executing the statement, each of the five
    operations is answered from the store alone and leaves the cache contents
    as they were. *)
Definition degraded_mode_serves (w : world) : Prop :=
  (reply (GET_books w) =
     Some (Response 200 (rows_json (order_by_created_at_desc (tie_break w) (books w))))
   /\ cache (after (GET_books w)) = cache w)
  /\ (forall id row rest,
        List.filter (has_id id) (books w) = row :: rest ->
        reply (GET_book id w) = Some (Response 200 (book_json row))
        /\ cache (after (GET_book id w)) = cache w)
  /\ (forall b t a i,
        title b = Given t -> author b = Given a -> isbn b = Given i ->
        t <> EmptyString -> a <> EmptyString -> i <> EmptyString ->
        existsb (has_isbn (collation w) i) (books w) = false ->
        reply (POST_books b w) = Some (Response 201 (JObj (created_fields b w)))
        /\ books (after (POST_books b w)) = books w ++ [created_row t a i b w]
        /\ cache (after (POST_books b w)) = cache w)
  /\ (forall id b t a i row rest,
        title b = Given t -> author b = Given a -> isbn b = Given i ->
        List.filter (has_id id) (books w) = row :: rest ->
        isbn_taken_elsewhere id i w = false ->
        reply (PUT_book id b w) = Some (Response 200 (JObj (updated_fields id b)))
        /\ books (after (PUT_book id b w)) =
             map (replace_row id t a i (sql_param (price b)) (sql_param (stock b))
                    (now w)) (books w)
        /\ cache (after (PUT_book id b w)) = cache w)
  /\ (forall id row rest,
        List.filter (has_id id) (books w) = row :: rest ->
        reply (DELETE_book id w) =
          Some (Response 200 (JObj [("message", JStr "Book deleted successfully")]))
        /\ books (after (DELETE_book id w)) =
             List.filter (fun b => negb (has_id id b)) (books w)
        /\ cache (after (DELETE_book id w)) = cache w).

(** No degraded mode: with the store executing the statement, none of the
    five operations is answered.  A read stops at its lookup, before any
    statement is issued; a write is applied to the table and stops at its
    invalidation, so the client never learns that it succeeded.  The cache
    is left as it was. *)
Definition requests_hang (w : world) : Prop :=
  (GET_books w = (Pending, one_command w))
  /\ (forall id, GET_book id w = (Pending, one_command w))
  /\ (forall b t a i,
        title b = Given t -> author b = Given a -> isbn b = Given i ->
        t <> EmptyString -> a <> EmptyString -> i <> EmptyString ->
        existsb (has_isbn (collation w) i) (books w) = false ->
        fst (POST_books b w) = Pending
        /\ books (after (POST_books b w)) = books w ++ [created_row t a i b w]
        /\ cache (after (POST_books b w)) = cache w)
  /\ (forall id b t a i row rest,
        title b = Given t -> author b = Given a -> isbn b = Given i ->
        List.filter (has_id id) (books w) = row :: rest ->
        isbn_taken_elsewhere id i w = false ->
        fst (PUT_book id b w) = Pending
        /\ books (after (PUT_book id b w)) =
             map (replace_row id t a i (sql_param (price b)) (sql_param (stock b))
                    (now w)) (books w)
        /\ cache (after (PUT_book id b w)) = cache w)
  /\ (forall id row rest,
        List.filter (has_id id) (books w) = row :: rest ->
        fst (DELETE_book id w) = Pending
        /\ books (after (DELETE_book id w)) =
             List.filter (fun b => negb (has_id id b)) (books w)
        /\ cache (after (DELETE_book id w)) = cache w).

(** The seeded process with a cache client that is open while every command
    is rejected. *)
Definition cache_down : world :=
  World [pragmatic_programmer; clean_code; design_patterns] 4 2000
        scan_order ci_pad_space never 0 (Some true) ∅ always never 0 [].

(** The seeded process whose cache server has become unreachable: the client
    is open, and every command stays in its queue. *)
Definition cache_out_of_reach : world :=
  World [pragmatic_programmer; clean_code; design_patterns] 4 2000
        scan_order ci_pad_space never 0 (Some true) ∅ always always 0 [].

(** The seeded process whose client never connected: [connect()] was
    rejected at start-up. *)
Definition cache_disabled : world :=
  World [pragmatic_programmer; clean_code; design_patterns] 4 2000
        scan_order ci_pad_space never 0 (Some false) ∅ never never 0 [].

(** ** Requests, and what further properties speak about *)

(** A request to one of the five book routes. *)
Inductive request : Type :=
  | ListBooks
  | ReadBook (id : Z)
  | Write (m : mutation).

Definition serve (q : request) : M response :=
  match q with
  | ListBooks => GET_books
  | ReadBook id => GET_book id
  | Write m => handle_mutation m
  end.

(** The world after a sequence of requests, handled one after the other. *)
Fixpoint serve_all (qs : list request) (w : world) : world :=
  match qs with
  | [] => w
  | q :: rest => serve_all rest (after (serve q w))
  end.

(** The table respects its keys: identifiers are unique, ISBNs are unique,
    and every identifier was handed out by the counter. *)
Definition store_wf (w : world) : Prop :=
  NoDup (map row_id (books w))
  /\ NoDup (map row_isbn (books w))
  /\ Forall (fun b => row_id b < next_id w) (books w).

(** No cache command fails. *)
Definition healthy (w : world) : Prop := forall n, cache_fault w n = false.

(** Whatever an open client can read under the collection key or under an
    item key is the serialisation of what the table holds now. *)
Definition coherent (w : world) : Prop :=
  isOpen w = true ->
  (forall e, cache w !! "books:all" = Some e ->
             payload e = JsonText (rows_json (order_by_created_at_desc (tie_break w) (books w))))
  /\ (forall id e, cache w !! item_key id = Some e ->
        exists row rest,
          List.filter (has_id id) (books w) = row :: rest
          /\ payload e = JsonText (book_json row)).

(** The reply to a hit on the cached value [v]. *)
Definition tagged (v : json) : json :=
  JObj (obj_set "fromCache" (JBool true) (spread v)).

(** [w1] is [w] after the store applied the mutation [m], the cache not yet
    touched. *)
Definition applied (m : mutation) (w w1 : world) : Prop :=
  cache_untouched w w1
  /\ (now w1 = now w /\ tie_break w1 = tie_break w /\ collation w1 = collation w)
  /\ match m with
     | Create b =>
         exists t a i,
           title b = Given t /\ author b = Given a /\ isbn b = Given i
           /\ existsb (has_isbn (collation w) i) (books w) = false
           /\ books w1 = books w ++ [created_row t a i b w]
           /\ next_id w1 = next_id w + 1
     | Update id b =>
         exists t a i row rest,
           title b = Given t /\ author b = Given a /\ isbn b = Given i
           /\ List.filter (has_id id) (books w) = row :: rest
           /\ isbn_taken_elsewhere id i w = false
           /\ books w1 =
                map (replace_row id t a i (sql_param (price b))
                       (sql_param (stock b)) (now w)) (books w)
           /\ next_id w1 = next_id w
     | Delete id =>
         exists row rest,
           List.filter (has_id id) (books w) = row :: rest
           /\ books w1 = List.filter (fun b => negb (has_id id b)) (books w)
           /\ next_id w1 = next_id w
     end.

(** The characters with a meaning of their own in a [KEYS] pattern:
    [*], [?], the two square brackets and the backslash. *)
Definition glob_special (c : ascii) : bool :=
  Ascii.eqb c "*"%char || Ascii.eqb c "?"%char || Ascii.eqb c "["%char
  || Ascii.eqb c "]"%char || Ascii.eqb c (ascii_of_nat 92).

(** The pattern holds none of them. *)
Fixpoint literal (pattern : string) : bool :=
  match pattern with
  | EmptyString => true
  | String c rest => negb (glob_special c) && literal rest
  end.

Definition is_wait (e : event) : bool :=
  match e with Wait _ => true | _ => false end.

(** The events of the connection loop. *)
Definition loop_event (e : event) : Prop :=
  match e with
  | TryDatabase _ | Wait _ => True
  | _ => False
  end.

(** The run [m] issues at most [s] store statements and at most [c] cache
    commands, from every world. *)
Definition issues {A} (m : M A) (s c : nat) : Prop :=
  forall w,
    (store_stmts w <= store_stmts (after (m w)) <= store_stmts w + s)%nat
    /\ (cache_cmds w <= cache_cmds (after (m w)) <= cache_cmds w + c)%nat.

(** Clean Code with one more copy in stock, and the row this makes of the
    seed row when the update is applied at time 2000. *)
Definition clean_code_restocked : request_body :=
  Body (Given "Clean Code") (Given "Robert C. Martin") (Given "978-0132350884")
       (Given 3999) (Given 31).

Definition clean_code_after_restock : book :=
  Book 2 "Clean Code" "Robert C. Martin" "978-0132350884"
       (Some 3999) (Some 31) 1000 2000.

(** What a read answered 200 must show to be current. *)
Definition shows_current (q : request) (w : world) (r : response) : Prop :=
  match q with
  | ListBooks =>
      body r = rows_json (order_by_created_at_desc (tie_break w) (books w))
      \/ body r = tagged (rows_json (order_by_created_at_desc (tie_break w) (books w)))
  | ReadBook id =>
      exists row rest,
        List.filter (has_id id) (books w) = row :: rest
        /\ (body r = book_json row \/ body r = tagged (book_json row))
  | Write _ => True
  end.

(** The seeded process after both kinds of read, with one more key in the
    cache that lies outside the namespace of the books. *)
Definition with_foreign_key : world :=
  with_cache (<["session:7" := Entry (JsonText (JNum 7)) 60]>
                (cache (after (GET_book 2 (after (GET_books seeded))))))
             seeded.

(** Clean Code resubmitted with an empty title and no price. *)
Definition clean_code_untitled : request_body :=
  Body (Given EmptyString) (Given "Robert C. Martin") (Given "978-0132350884")
       Absent (Given 31).

(** ** The page (src/frontend/html/app.js, 48-85)

    What [loadBooks] writes: the content of [booksContainer], the text of
    [bookCount], and the console of the browser.  The three fixed fragments
    of markup are named; a list of cards is the text [displayBooks]
    assigns. *)

Inductive markup : Type :=
  | Loading              (* the "loading" div *)
  | NoBooks              (* the "no-books" div: No books in inventory *)
  | LoadError            (* the "no-books" div: Error loading books *)
  | Cards (html : string).

Record page : Type := Page {
  booksContainer : markup;         (* booksContainer.innerHTML *)
  bookCount : string;              (* bookCount.textContent *)
  browser_console : list string
}.

(** [v.length] on a parsed JSON value: [None] is the TypeError of a property
    read on [null], [Some None] is [undefined]. *)
Definition length_of (v : json) : option (option json) :=
  match v with
  | JNull => None
  | JArr items => Some (Some (JNum (Z.of_nat (length items))))
  | JStr s => Some (Some (JNum (Z.of_nat (String.length s))))
  | JObj fields => Some (obj_get "length" fields)
  | _ => Some None
  end.

(** [x === n] and [x !== n] for a number literal [n]. *)
Definition strict_eq_num (x : option json) (n : Z) : bool :=
  match x with
  | Some (JNum m) => m =? n
  | _ => false
  end.

(** The text a template literal makes of a value. *)
Fixpoint js_string (v : json) : string :=
  match v with
  | JNull => "null"
  | JBool true => "true"
  | JBool false => "false"
  | JNum n => pretty n
  | JStr s => s
  | JArr items =>
      (fix join (l : list json) : string :=
         match l with
         | [] => EmptyString
         | x :: rest =>
             let one := match x with JNull => EmptyString | _ => js_string x end in
             match rest with
             | [] => one
             | _ => one +:+ "," +:+ join rest
             end
         end) items
  | JObj _ => "[object Object]"
  end.

Definition template (x : option json) : string :=
  match x with
  | None => "undefined"
  | Some v => js_string v
  end.

(** [`${n} book${n !== 1 ? 's' : ''}`] *)
Definition count_text (len : option json) : string :=
  template len +:+ " book" +:+ (if strict_eq_num len 1 then EmptyString else "s").

Section Page.

(** The markup of one card, for the template of [displayBooks]; [None] when
    the template throws (it reads properties of its argument).  The
    properties of the page hold for every template. *)
Variable card : json -> option string.

(** [items.map(card).join('')] *)
Fixpoint join_cards (items : list json) : option string :=
  match items with
  | [] => Some EmptyString
  | b :: rest =>
      match card b, join_cards rest with
      | Some h, Some t => Some (h +:+ t)
      | _, _ => None
      end
  end.

(** [displayBooks]: only an array has a [map] method; on any other JSON
    value the call is a TypeError, raised before [innerHTML] is assigned. *)
Definition displayBooks (books : json) (p : page) : option page :=
  match books with
  | JArr items =>
      match join_cards items with
      | Some html => Some (Page (Cards html) (bookCount p) (browser_console p))
      | None => None
      end
  | _ => None
  end.

(** The [catch] block of [loadBooks]. *)
Definition load_failed (p : page) : page :=
  Page LoadError (bookCount p) (browser_console p ++ ["Error loading books:"]).

(** [loadBooks]; [fetched] is the parsed body of the reply to
    [GET /api/books], or [None] when [fetch] or [response.json()] rejects. *)
Definition loadBooks (fetched : option json) (p : page) : page :=
  let p1 := Page Loading (bookCount p) (browser_console p) in
  let attempt :=
    match fetched with
    | None => None
    | Some books =>
        match length_of books with
        | None => None
        | Some len =>
            match (if strict_eq_num len 0
                   then Some (Page NoBooks (bookCount p1) (browser_console p1))
                   else displayBooks books p1) with
            | None => None
            | Some p2 =>
                Some (Page (booksContainer p2) (count_text len) (browser_console p2))
            end
        end
    end in
  match attempt with
  | Some p3 => p3
  | None => load_failed p1
  end.

(** The page that lists [rows]: what a visitor should see when the table
    holds them. *)
Definition lists (rows : list book) (p : page) : page :=
  match rows with
  | [] => Page NoBooks "0 books" (browser_console p)
  | _ =>
      match join_cards (map book_json rows) with
      | Some html =>
          Page (Cards html)
               (pretty (length rows) +:+ (if (length rows =? 1)%nat then " book" else " books"))
               (browser_console p)
      | None => load_failed p
      end
  end.

End Page.

(** A template that renders every row, and a page before its first load. *)
Definition plain_card (b : json) : option string := Some "<card>".

Definition blank_page : page := Page Loading EmptyString [].

(** * Properties *)

(** ** The three cache helpers, case by case *)

Lemma getFromCache_eq key w :
  getFromCache key w =
    if negb (isOpen w) then (Ok JNull, w)
    else if cache_fault w (cache_cmds w)
    then if cache_stall w (cache_cmds w)
         then (Pending, one_command w)
         else (Ok JNull, recorded "Cache get error:" (one_command w))
    else match cache w !! key with
         | Some (Entry (JsonText v) _) => (Ok v, one_command w)
         | Some (Entry Malformed _) =>
             (Ok JNull, recorded "Cache get error:" (one_command w))
         | _ => (Ok JNull, one_command w)
         end.
Proof.
  unfold getFromCache, try_catch, bind, redis_get, command.
  destruct (isOpen w); [|reflexivity].
  destruct (cache_fault w (cache_cmds w));
    [destruct (cache_stall w (cache_cmds w)); reflexivity|].
  cbn [negb cache with_cache_cmds].
  destruct (cache w !! key) as [[[v| |] t]|]; reflexivity.
Qed.

Lemma setToCache_eq key data w :
  setToCache key data w =
    if negb (isOpen w) then (Ok tt, w)
    else if cache_fault w (cache_cmds w)
    then if cache_stall w (cache_cmds w)
         then (Pending, one_command w)
         else (Ok tt, recorded "Cache set error:" (one_command w))
    else (Ok tt,
          with_cache (<[key := Entry (JsonText data) CACHE_TTL]> (cache w))
                     (one_command w)).
Proof.
  unfold setToCache, try_catch, redis_setEx, command.
  destruct (isOpen w); [|reflexivity].
  destruct (cache_fault w (cache_cmds w));
    [destruct (cache_stall w (cache_cmds w))|]; reflexivity.
Qed.

Lemma invalidateCache_eq pattern w :
  invalidateCache pattern w =
    if negb (isOpen w) then (Ok tt, w)
    else if cache_fault w (cache_cmds w)
    then if cache_stall w (cache_cmds w)
         then (Pending, one_command w)
         else (Ok tt, recorded "Cache invalidate error:" (one_command w))
    else
      let keys := matching_keys pattern (cache w) in
      let w1 := one_command w in
      if (0 <? length keys)%nat
      then
        if cache_fault w (S (cache_cmds w))
        then if cache_stall w (S (cache_cmds w))
             then (Pending, one_command w1)
             else (Ok tt, recorded "Cache invalidate error:" (one_command w1))
        else
          let w2 := with_cache (foldr delete (cache w) keys) (one_command w1) in
          if cache_fault w (S (S (cache_cmds w)))
          then if cache_stall w (S (S (cache_cmds w)))
               then (Pending, one_command w2)
               else (Ok tt, recorded "Cache invalidate error:" (one_command w2))
          else (Ok tt, with_cache (delete "books:all" (foldr delete (cache w) keys))
                                  (one_command w2))
      else
        if cache_fault w (S (cache_cmds w))
        then if cache_stall w (S (cache_cmds w))
             then (Pending, one_command w1)
             else (Ok tt, recorded "Cache invalidate error:" (one_command w1))
        else (Ok tt, with_cache (delete "books:all" (cache w)) (one_command w1)).
Proof.
  unfold invalidateCache, try_catch, bind, redis_keys, redis_del, command, ret,
    matching_keys.
  destruct (isOpen w); [|reflexivity].
  destruct (cache_fault w (cache_cmds w));
    [destruct (cache_stall w (cache_cmds w)); reflexivity|].
  cbn [negb cache with_cache_cmds cache_fault cache_stall cache_cmds one_command].
  destruct (0 <? length _)%nat.
  - cbn [cache with_cache_cmds cache_fault cache_stall cache_cmds with_cache].
    destruct (cache_fault w (S (cache_cmds w)));
      [destruct (cache_stall w (S (cache_cmds w))); reflexivity|].
    cbn [cache with_cache_cmds cache_fault cache_stall cache_cmds with_cache].
    destruct (cache_fault w (S (S (cache_cmds w))));
      [destruct (cache_stall w (S (S (cache_cmds w))))|]; reflexivity.
  - cbn [cache with_cache_cmds cache_fault cache_stall cache_cmds with_cache].
    destruct (cache_fault w (S (cache_cmds w)));
      [destruct (cache_stall w (S (cache_cmds w)))|]; reflexivity.
Qed.

(** With a cache that leaves no command pending the helpers settle; these
    are their three equations in that case. *)
Lemma getFromCache_settles key w :
  responsive w ->
  getFromCache key w =
    if negb (isOpen w) then (Ok JNull, w)
    else if cache_fault w (cache_cmds w)
    then (Ok JNull, recorded "Cache get error:" (one_command w))
    else match cache w !! key with
         | Some (Entry (JsonText v) _) => (Ok v, one_command w)
         | Some (Entry Malformed _) =>
             (Ok JNull, recorded "Cache get error:" (one_command w))
         | _ => (Ok JNull, one_command w)
         end.
Proof.
  intros Hr. rewrite getFromCache_eq.
  destruct (cache_fault w (cache_cmds w)) eqn:F; [rewrite (Hr _ F)|]; reflexivity.
Qed.

Lemma setToCache_settles key data w :
  responsive w ->
  setToCache key data w =
    if negb (isOpen w) then (Ok tt, w)
    else if cache_fault w (cache_cmds w)
    then (Ok tt, recorded "Cache set error:" (one_command w))
    else (Ok tt,
          with_cache (<[key := Entry (JsonText data) CACHE_TTL]> (cache w))
                     (one_command w)).
Proof.
  intros Hr. rewrite setToCache_eq.
  destruct (cache_fault w (cache_cmds w)) eqn:F; [rewrite (Hr _ F)|]; reflexivity.
Qed.

Lemma invalidateCache_settles pattern w :
  responsive w ->
  invalidateCache pattern w =
    if negb (isOpen w) then (Ok tt, w)
    else if cache_fault w (cache_cmds w)
    then (Ok tt, recorded "Cache invalidate error:" (one_command w))
    else
      let keys := matching_keys pattern (cache w) in
      let w1 := one_command w in
      if (0 <? length keys)%nat
      then
        if cache_fault w (S (cache_cmds w))
        then (Ok tt, recorded "Cache invalidate error:" (one_command w1))
        else
          let w2 := with_cache (foldr delete (cache w) keys) (one_command w1) in
          if cache_fault w (S (S (cache_cmds w)))
          then (Ok tt, recorded "Cache invalidate error:" (one_command w2))
          else (Ok tt, with_cache (delete "books:all" (foldr delete (cache w) keys))
                                  (one_command w2))
      else
        if cache_fault w (S (cache_cmds w))
        then (Ok tt, recorded "Cache invalidate error:" (one_command w1))
        else (Ok tt, with_cache (delete "books:all" (cache w)) (one_command w1)).
Proof.
  intros Hr. rewrite invalidateCache_eq. cbv zeta.
  destruct (cache_fault w (cache_cmds w)) eqn:F0; [rewrite (Hr _ F0); reflexivity|].
  destruct (cache_fault w (S (cache_cmds w))) eqn:F1; [rewrite (Hr _ F1)|];
    [reflexivity|].
  destruct (cache_fault w (S (S (cache_cmds w)))) eqn:F2; [rewrite (Hr _ F2)|];
    reflexivity.
Qed.

(** ** GET /api/books on a cache hit *)

Lemma pretty_N_char_digit x : is_digit (pretty_N_char x) = true.
Proof. unfold pretty_N_char. repeat case_match; reflexivity. Qed.

Lemma pretty_N_go_digits x s :
  digits_only s = true -> digits_only (pretty_N_go x s) = true.
Proof.
  revert s. induction (N.lt_wf_0 x) as [x _ IH]. intros s Hs.
  destruct (decide (x = 0)%N) as [->|Hx]; [rewrite pretty_N_go_0; exact Hs|].
  rewrite pretty_N_go_step by lia. apply IH.
  - apply N.div_lt; lia.
  - cbn [digits_only]. rewrite pretty_N_char_digit, Hs. reflexivity.
Qed.

(** An array index prints as a string of digits. *)
Lemma pretty_nat_digits (n : nat) : digits_only (pretty n) = true.
Proof.
  unfold pretty, pretty_nat, pretty, pretty_N.
  destruct (decide (N.of_nat n = 0)%N); [reflexivity|].
  apply pretty_N_go_digits. reflexivity.
Qed.

(** Setting a property after spreading an array appends it: no index is
    named like it. *)
Lemma obj_set_after_indices k v (items : list json) i :
  digits_only k = false ->
  obj_set k v (index_from i items) = index_from i items ++ [(k, v)].
Proof.
  intros Hk. revert i. induction items as [|x items IH]; intros i; [reflexivity|].
  cbn [index_from obj_set app].
  destruct (String.eqb_spec k (pretty i)) as [E|_].
  - rewrite E, pretty_nat_digits in Hk. discriminate Hk.
  - rewrite IH. reflexivity.
Qed.

Lemma GET_books_hit w v t :
  isOpen w = true ->
  cache_fault w (cache_cmds w) = false ->
  cache w !! "books:all" = Some (Entry (JsonText v) t) ->
  truthy v = true ->
  GET_books w =
    (Ok (Response 200 (JObj (obj_set "fromCache" (JBool true) (spread v)))),
     one_command w).
Proof.
  intros Hopen Hok Hkey Hv.
  unfold GET_books, try_catch, bind.
  rewrite getFromCache_eq, Hopen, Hok, Hkey. cbn [negb].
  rewrite Hv. reflexivity.
Qed.

(** C1 (what the code does on a hit).  Whenever the collection key holds the
    snapshot of a scan and the cache answers, GET /api/books replies 200 with
    an object: the rows sit under the property names "0", "1", ... next to
    [fromCache].  The reply is not an array, whereas the reply of a miss for
    the same rows is one. *)
Theorem GET_books_hit_reply_is_object (w : world) (rows : list book) (t : Z) :
  isOpen w = true ->
  cache_fault w (cache_cmds w) = false ->
  cache w !! "books:all" = Some (Entry (JsonText (rows_json rows)) t) ->
  exists fields,
    reply (GET_books w) = Some (Response 200 (JObj fields))
    /\ fields = index_from 0 (map book_json rows) ++ [("fromCache", JBool true)]
    /\ is_array (JObj fields) = false
    /\ is_array (rows_json rows) = true.
Proof.
  intros Hopen Hok Hkey.
  eexists. split; [|split; [reflexivity|split; reflexivity]].
  unfold reply. rewrite (GET_books_hit w (rows_json rows) t); auto.
  cbn [fst spread rows_json]. rewrite obj_set_after_indices by reflexivity.
  reflexivity.
Qed.

(** On the sample: the snapshot of the first two seed rows is cached. *)
Lemma GET_books_hit_reply_is_object_witness :
  exists fields,
    reply (GET_books seeded_cached) = Some (Response 200 (JObj fields))
    /\ fields = index_from 0 (map book_json [pragmatic_programmer; clean_code])
                ++ [("fromCache", JBool true)]
    /\ is_array (JObj fields) = false
    /\ is_array (rows_json [pragmatic_programmer; clean_code]) = true.
Proof.
  apply (GET_books_hit_reply_is_object seeded_cached
           [pragmatic_programmer; clean_code] 300); reflexivity.
Defined.

(** The same reply, written out: two rows come back as the object
    [{"0": ..., "1": ..., "fromCache": true}]. *)
Example GET_books_hit_seeded :
  reply (GET_books seeded_cached) =
    Some (Response 200
            (JObj [("0", book_json pragmatic_programmer);
                   ("1", book_json clean_code);
                   ("fromCache", JBool true)])).
Proof. vm_compute. reflexivity. Qed.

(** ** Start-up *)

Lemma database_calls_emit e p :
  database_calls (emit e p) =
    (database_calls p + match e with TryDatabase _ => 1 | _ => 0 end)%nat.
Proof.
  unfold database_calls, emit. cbn [timeline].
  rewrite List.filter_app, List.length_app. destruct e; reflexivity.
Qed.

(** The loop calls [initDatabase] at most [retries] times. *)
Lemma connect_loop_calls retries db p :
  (database_calls (connect_loop retries db p) <= database_calls p + retries)%nat.
Proof.
  revert p. induction retries as [|n IH]; intros p; cbn [connect_loop]; [lia|].
  destruct (db (database_calls p)); cbn [initDatabase];
    try (etransitivity; [apply IH|]); rewrite !database_calls_emit;
    try change (database_calls (Process _ _ (timeline p))) with (database_calls p);
    lia.
Qed.

Lemma connect_loop_backoff retries db p :
  Forall fixed_backoff (timeline p) ->
  Forall fixed_backoff (timeline (connect_loop retries db p)).
Proof.
  revert p. induction retries as [|n IH]; intros p Hp; cbn [connect_loop]; [exact Hp|].
  destruct (db (database_calls p)); cbn [initDatabase];
    try apply IH; unfold emit; cbn [timeline];
    repeat (apply Forall_app; split); auto; repeat constructor.
Qed.

(** When a connection is handed out within the five attempts, the service
    listens after a verified connection. *)
Lemma startServer_connected db (redis_ok : bool) :
  db 0%nat = Connects ->
  listening (startServer db (Settles redis_ok)) /\ verified (startServer db (Settles redis_ok)).
Proof.
  intros H. unfold startServer, listening, verified.
  cbn [connect_loop]. change (database_calls boot) with 0%nat. rewrite H.
  cbn. auto.
Qed.

(** C2 (what the code does when the store is never reachable).  If every
    one of the five calls of [initDatabase] creates the pool and then fails
    to get a connection, [startServer] still calls [app.listen]: the process
    has made five attempts separated by 5000 ms pauses, none verified the
    connection, and it never exits.  The test [!pool] sees the pool object
    that [initDatabase] assigned before testing it. *)
Theorem startServer_listens_unverified (db : nat -> connect_result) (redis_ok : bool) :
  (forall n, (n < 5)%nat -> db n = ConnectionFails) ->
  listening (startServer db (Settles redis_ok))
  /\ ~ verified (startServer db (Settles redis_ok))
  /\ ~ exited (startServer db (Settles redis_ok))
  /\ database_calls (startServer db (Settles redis_ok)) = 5%nat
  /\ Forall fixed_backoff (timeline (startServer db (Settles redis_ok))).
Proof.
  intros H.
  assert (E : timeline (startServer db (Settles redis_ok)) =
              [TryDatabase ConnectionFails; Wait 5000;
               TryDatabase ConnectionFails; Wait 5000;
               TryDatabase ConnectionFails; Wait 5000;
               TryDatabase ConnectionFails; Wait 5000;
               TryDatabase ConnectionFails; Wait 5000;
               TryRedis (Settles redis_ok); Listen]).
  { unfold startServer. cbn [connect_loop].
    change (database_calls boot) with 0%nat.
    rewrite (H 0%nat) by lia. cbn [initDatabase].
    match goal with |- context [db ?n] => let m := eval vm_compute in n in change n with m end.
    rewrite (H 1%nat) by lia. cbn [initDatabase].
    match goal with |- context [db ?n] => let m := eval vm_compute in n in change n with m end.
    rewrite (H 2%nat) by lia. cbn [initDatabase].
    match goal with |- context [db ?n] => let m := eval vm_compute in n in change n with m end.
    rewrite (H 3%nat) by lia. cbn [initDatabase].
    match goal with |- context [db ?n] => let m := eval vm_compute in n in change n with m end.
    rewrite (H 4%nat) by lia. cbn [initDatabase].
    reflexivity. }
  unfold listening, verified, exited, database_calls. rewrite E.
  repeat split.
  - cbn. tauto.
  - cbn. intros F. repeat (destruct F as [F|F]; [discriminate F|]). exact F.
  - intros [code F]. cbn in F.
    repeat (destruct F as [F|F]; [discriminate F|]). exact F.
  - repeat constructor.
Qed.

(** With a store that refuses every connection. *)
Lemma startServer_listens_unverified_witness :
  listening (startServer (fun _ => ConnectionFails) (Settles true))
  /\ ~ verified (startServer (fun _ => ConnectionFails) (Settles true))
  /\ ~ exited (startServer (fun _ => ConnectionFails) (Settles true))
  /\ database_calls (startServer (fun _ => ConnectionFails) (Settles true))
     = 5%nat
  /\ Forall fixed_backoff
       (timeline (startServer (fun _ => ConnectionFails) (Settles true))).
Proof.
  apply (startServer_listens_unverified (fun _ => ConnectionFails) true).
  intros n Hn. reflexivity.
Defined.

(** ** What the helpers leave alone *)

Lemma same_store_refl w : same_store w w.
Proof. repeat split. Qed.

Lemma same_client_refl w : same_client w w.
Proof. repeat split. Qed.

Lemma same_store_trans w1 w2 w3 :
  same_store w1 w2 -> same_store w2 w3 -> same_store w1 w3.
Proof. unfold same_store. intuition congruence. Qed.

Lemma same_client_trans w1 w2 w3 :
  same_client w1 w2 -> same_client w2 w3 -> same_client w1 w3.
Proof. unfold same_client. intuition congruence. Qed.

Lemma same_client_isOpen w w' : same_client w w' -> isOpen w' = isOpen w.
Proof. intros [H _]. unfold isOpen. rewrite H. reflexivity. Qed.

(** A lookup never throws, and changes neither store nor cache contents. *)
Lemma getFromCache_run key w :
  exists o w',
    getFromCache key w = (o, w')
    /\ (forall e, o <> Throw e)
    /\ same_store w w' /\ same_client w w' /\ cache w' = cache w.
Proof.
  rewrite getFromCache_eq. frame_cases; do 2 eexists;
    (split; [reflexivity|]); (split; [discriminate|]); repeat split.
Qed.

(** A populate never throws, and does not change the store. *)
Lemma setToCache_run key data w :
  exists o w',
    setToCache key data w = (o, w')
    /\ (forall e, o <> Throw e)
    /\ same_store w w' /\ same_client w w'.
Proof.
  rewrite setToCache_eq. frame_cases; do 2 eexists;
    (split; [reflexivity|]); (split; [discriminate|]); repeat split.
Qed.

(** An invalidation never throws, and does not change the store. *)
Lemma invalidateCache_run pattern w :
  exists o w',
    invalidateCache pattern w = (o, w')
    /\ (forall e, o <> Throw e)
    /\ same_store w w' /\ same_client w w'.
Proof.
  rewrite invalidateCache_eq. cbv zeta. frame_cases; do 2 eexists;
    (split; [reflexivity|]); (split; [discriminate|]); repeat split.
Qed.

(** When no command is left pending, each helper returns. *)
Lemma getFromCache_frame key w :
  responsive w ->
  exists v w',
    getFromCache key w = (Ok v, w')
    /\ same_store w w' /\ same_client w w' /\ cache w' = cache w.
Proof.
  intros Hr. rewrite getFromCache_settles by exact Hr. frame_cases; do 2 eexists;
    (split; [reflexivity|]); repeat split.
Qed.

Lemma setToCache_frame key data w :
  responsive w ->
  exists w',
    setToCache key data w = (Ok tt, w') /\ same_store w w' /\ same_client w w'.
Proof.
  intros Hr. rewrite setToCache_settles by exact Hr. frame_cases; eexists;
    (split; [reflexivity|]); repeat split.
Qed.

Lemma invalidateCache_frame pattern w :
  responsive w ->
  exists w',
    invalidateCache pattern w = (Ok tt, w') /\ same_store w w' /\ same_client w w'.
Proof.
  intros Hr. rewrite invalidateCache_settles by exact Hr. cbv zeta.
  frame_cases; eexists; (split; [reflexivity|]); repeat split.
Qed.

Lemma responsive_same_client w w' : same_client w w' -> responsive w -> responsive w'.
Proof. intros (_ & Hf & Hs) Hr n. rewrite Hf, Hs. apply Hr. Qed.

(** A run that is not pending lets the handler reply. *)
Lemma reply_after_settled {A} r (run : outcome A * world) :
  pending run = false -> reply_after r run = (Ok r, snd run).
Proof. unfold reply_after. intros ->. reflexivity. Qed.

Lemma reply_reply_after {A} r (run : outcome A * world) :
  reply (reply_after r run) = if pending run then None else Some r.
Proof. unfold reply, reply_after. cbn [fst]. destruct (pending run); reflexivity. Qed.

Lemma after_reply_after {A} r (run : outcome A * world) :
  after (reply_after r run) = after run.
Proof. reflexivity. Qed.

Lemma pending_settled {A} (a : A) w : pending (Ok a, w) = false.
Proof. reflexivity. Qed.

(** ** The statements, case by case *)

Lemma sql_select_all_eq w :
  sql_select_all w =
    if store_fault w (store_stmts w)
    then (Throw (StoreError ER_OTHER), one_statement w)
    else (Ok (order_by_created_at_desc (tie_break w) (books w)), one_statement w).
Proof. reflexivity. Qed.

Lemma sql_select_by_id_eq id w :
  sql_select_by_id id w =
    if store_fault w (store_stmts w)
    then (Throw (StoreError ER_OTHER), one_statement w)
    else (Ok (List.filter (has_id id) (books w)), one_statement w).
Proof. reflexivity. Qed.

(** ** ORDER BY created_at DESC *)

Lemma place_desc_perm first b l : Permutation (place_desc first b l) (b :: l).
Proof.
  induction l as [|x l IH]; cbn [place_desc]; [reflexivity|].
  destruct ((created_at x <? created_at b)
            || ((created_at x =? created_at b) && first b x)); [reflexivity|].
  rewrite IH. apply perm_swap.
Qed.

Lemma order_by_created_at_desc_perm first l :
  Permutation (order_by_created_at_desc first l) l.
Proof.
  induction l as [|x l IH]; cbn; [reflexivity|].
  rewrite place_desc_perm. apply perm_skip, IH.
Qed.

Lemma place_desc_sorted first b l :
  StronglySorted not_earlier l -> StronglySorted not_earlier (place_desc first b l).
Proof.
  induction 1 as [|x l Hl IH Hx]; cbn [place_desc].
  - repeat constructor.
  - destruct ((created_at x <? created_at b)
              || ((created_at x =? created_at b) && first b x)) eqn:E.
    + assert (Hle : created_at x <= created_at b).
      { apply orb_true_iff in E as [E|E]; [apply Z.ltb_lt in E; lia|].
        apply andb_true_iff in E as [E _]. apply Z.eqb_eq in E. lia. }
      constructor; [constructor; assumption|].
      constructor; [exact Hle|].
      eapply List.Forall_impl; [|exact Hx]. unfold not_earlier. intros y Hy. lia.
    + apply orb_false_iff in E as [E _]. apply Z.ltb_ge in E.
      constructor; [exact IH|].
      apply (Permutation_Forall (Permutation_sym (place_desc_perm first b l))).
      constructor; [unfold not_earlier; lia|exact Hx].
Qed.

Lemma order_by_created_at_desc_sorted first l :
  StronglySorted not_earlier (order_by_created_at_desc first l).
Proof.
  induction l as [|x l IH]; cbn; [constructor|].
  apply place_desc_sorted, IH.
Qed.

(** ** GET /api/books on a cache miss *)

(** The run of GET /api/books once the lookup has returned a falsy value:
    the scan, then the populate, then the reply. *)
Lemma GET_books_miss_run w v w1 :
  getFromCache "books:all" w = (Ok v, w1) ->
  truthy v = false ->
  GET_books w =
    if store_fault w1 (store_stmts w1)
    then (Ok (error_response 500 "Failed to fetch books"),
          recorded "Error fetching books:" (one_statement w1))
    else reply_after
           (Response 200 (rows_json (order_by_created_at_desc (tie_break w1) (books w1))))
           (setToCache "books:all"
              (rows_json (order_by_created_at_desc (tie_break w1) (books w1)))
              (one_statement w1)).
Proof.
  intros E Hv. unfold GET_books, try_catch, bind. rewrite E, Hv.
  rewrite sql_select_all_eq.
  destruct (store_fault w1 (store_stmts w1)); [reflexivity|].
  destruct (setToCache_run "books:all"
              (rows_json (order_by_created_at_desc (tie_break w1) (books w1)))
              (one_statement w1))
    as (o & w2 & E2 & Hne & _).
  rewrite E2. unfold reply_after, pending. cbn [fst snd].
  destruct o as [[]|e|]; [reflexivity|destruct (Hne e eq_refl)|reflexivity].
Qed.

(** A lookup that is left pending leaves the request without a reply. *)
Lemma GET_books_pending w :
  pending (getFromCache "books:all" w) = true ->
  GET_books w = (Pending, after (getFromCache "books:all" w)).
Proof.
  unfold pending, after, GET_books, try_catch, bind.
  destruct (getFromCache "books:all" w) as [[v|e|] w1]; cbn [fst snd];
    try discriminate. reflexivity.
Qed.

(** The reply on a miss, if there is one. *)
Lemma GET_books_miss_replied w r :
  cache_miss "books:all" w ->
  reply (GET_books w) = Some r ->
  r = if store_fault w (store_stmts w)
      then error_response 500 "Failed to fetch books"
      else Response 200 (rows_json (order_by_created_at_desc (tie_break w) (books w))).
Proof.
  unfold cache_miss, cache_lookup. intros Hmiss Hr.
  destruct (getFromCache_run "books:all" w)
    as (o & w1 & E & Hne & (Hb & _ & _ & Hf & Hn & Ht & _) & _).
  rewrite E in Hmiss. cbn [fst] in Hmiss.
  destruct o as [v|e|]; [|destruct (Hne e eq_refl)|].
  - rewrite (GET_books_miss_run w v w1 E Hmiss), Hf, Hn, Ht, Hb in Hr.
    destruct (store_fault w (store_stmts w)).
    + injection Hr as <-. reflexivity.
    + rewrite reply_reply_after in Hr.
      destruct (pending _); [discriminate Hr|]. injection Hr as <-. reflexivity.
  - rewrite GET_books_pending in Hr by (unfold pending; rewrite E; reflexivity).
    discriminate Hr.
Qed.

Lemma GET_books_miss w :
  responsive w ->
  cache_miss "books:all" w ->
  reply (GET_books w) =
    Some (if store_fault w (store_stmts w)
          then error_response 500 "Failed to fetch books"
          else Response 200 (rows_json (order_by_created_at_desc (tie_break w) (books w)))).
Proof.
  unfold cache_miss, cache_lookup. intros Hresp Hmiss.
  destruct (getFromCache_frame "books:all" w Hresp)
    as (v & w1 & E & (Hb & _ & _ & Hf & Hn & Ht & _) & Hcl & _).
  rewrite E in Hmiss. cbn [fst] in Hmiss.
  rewrite (GET_books_miss_run w v w1 E Hmiss), Hf, Hn, Ht, Hb.
  destruct (store_fault w (store_stmts w)); [reflexivity|].
  destruct (setToCache_frame "books:all"
              (rows_json (order_by_created_at_desc (tie_break w) (books w)))
              (one_statement w1))
    as (w2 & E2 & _).
  { apply (responsive_same_client w); [|exact Hresp]. exact Hcl. }
  rewrite E2. reflexivity.
Qed.

(** C3, refuted as stated.  The three seed rows were created at the same
    time.  On an engine that delivers such rows in the order of the table
    scan, which [ORDER BY created_at DESC] allows, the reply lists the
    identifiers 1, 2, 3 in ascending order: ties are not broken by identifier
    descending.  On an engine that delivers them the other way round the same
    handler replies 3, 2, 1: the order among ties is the engine's, not the
    handler's. *)
Lemma GET_books_ties_not_by_id :
  cache_miss "books:all" seeded
  /\ reply (GET_books seeded) =
       Some (Response 200
               (rows_json [pragmatic_programmer; clean_code; design_patterns]))
  /\ ~ recent_first_ties_by_id_desc
         [pragmatic_programmer; clean_code; design_patterns]
  /\ books seeded_reversed = books seeded
  /\ reply (GET_books seeded_reversed) =
       Some (Response 200
               (rows_json [design_patterns; clean_code; pragmatic_programmer])).
Proof.
  split; [reflexivity|]. split; [vm_compute; reflexivity|].
  split; [|split; [reflexivity|vm_compute; reflexivity]].
  intros H. inversion H as [|? ? _ Hall]; subst.
  inversion Hall as [|? ? Hfirst _]; subst.
  destruct Hfirst as [Hlt|[_ Hlt]]; cbn in Hlt; lia.
Qed.

(** C3, as the code has it.  On a cache miss, with the scan succeeding and
    the populate settling, GET /api/books replies 200 with the rows of the
    table, later [created_at] first, whatever the engine does with rows
    created at the same time: the query names no second sort key, and the
    handler does not sort. *)
Theorem GET_books_miss_order (w : world) :
  cache_miss "books:all" w ->
  store_fault w (store_stmts w) = false ->
  responsive w ->
  exists rows,
    reply (GET_books w) = Some (Response 200 (rows_json rows))
    /\ Permutation rows (books w)
    /\ StronglySorted not_earlier rows.
Proof.
  intros Hmiss Hok Hresp. exists (order_by_created_at_desc (tie_break w) (books w)).
  rewrite (GET_books_miss w Hresp Hmiss), Hok.
  split; [reflexivity|].
  split; [apply order_by_created_at_desc_perm|].
  apply order_by_created_at_desc_sorted.
Qed.

(** On the seeded table. *)
Lemma GET_books_miss_order_witness :
  exists rows,
    reply (GET_books seeded) = Some (Response 200 (rows_json rows))
    /\ Permutation rows (books seeded)
    /\ StronglySorted not_earlier rows.
Proof.
  apply (GET_books_miss_order seeded); [reflexivity|reflexivity|].
  intros n Hn. reflexivity.
Defined.

(** ** POST /api/books, case by case *)

Lemma falsy_str_false f :
  falsy_str f = false <-> exists s, f = Given s /\ s <> EmptyString.
Proof.
  destruct f as [| |s]; cbn.
  - split; [discriminate|]. intros (s & E & _). discriminate E.
  - split; [discriminate|]. intros (s & E & _). discriminate E.
  - rewrite String.eqb_neq. split.
    + intros Hs. exists s. auto.
    + intros (s' & E & Hs). injection E as ->. exact Hs.
Qed.

Lemma missing_required_false b :
  missing_required b = false <->
  exists t a i,
    title b = Given t /\ author b = Given a /\ isbn b = Given i
    /\ t <> EmptyString /\ a <> EmptyString /\ i <> EmptyString.
Proof.
  unfold missing_required. rewrite !orb_false_iff, !falsy_str_false. split.
  - intros [[(t & ? & ?) (a & ? & ?)] (i & ? & ?)]. exists t, a, i.
    repeat split; assumption.
  - intros (t & a & i & ? & ? & ? & ? & ? & ?).
    repeat split; eexists; split; eassumption.
Qed.

Lemma sql_insert_eq t a i p s w :
  sql_insert (Some t) (Some a) (Some i) p s w =
    if store_fault w (store_stmts w)
    then (Throw (StoreError ER_OTHER), one_statement w)
    else if existsb (has_isbn (collation w) i) (books w)
    then (Throw (StoreError ER_DUP_ENTRY), refused_insert w)
    else (Ok (next_id w),
          with_next_id (next_id w + 1)
            (with_books (books w ++ [Book (next_id w) t a i p s (now w) (now w)])
               (one_statement w))).
Proof. reflexivity. Qed.

Lemma POST_books_invalid b w :
  missing_required b = true ->
  POST_books b w =
    (Ok (error_response 400 "Title, author, and ISBN are required"), w).
Proof.
  intros H. unfold POST_books, try_catch. fold (missing_required b).
  rewrite H. reflexivity.
Qed.

Section POST_valid.
Variables (b : request_body) (w : world) (t a i : string).
Hypothesis Ht : title b = Given t.
Hypothesis Ha : author b = Given a.
Hypothesis Hi : isbn b = Given i.
Hypothesis Ht0 : t <> EmptyString.
Hypothesis Ha0 : a <> EmptyString.
Hypothesis Hi0 : i <> EmptyString.

Lemma POST_valid_passes : missing_required b = false.
Proof. apply missing_required_false. exists t, a, i. repeat split; assumption. Qed.

Lemma POST_books_store_error :
  store_fault w (store_stmts w) = true ->
  POST_books b w =
    (Ok (error_response 500 "Failed to create book"),
     recorded "Error creating book:" (one_statement w)).
Proof.
  intros Hf. unfold POST_books, try_catch, bind. fold (missing_required b).
  rewrite POST_valid_passes, Ht, Ha, Hi. cbn [sql_param].
  rewrite sql_insert_eq, Hf. reflexivity.
Qed.

Lemma POST_books_duplicate :
  store_fault w (store_stmts w) = false ->
  existsb (has_isbn (collation w) i) (books w) = true ->
  POST_books b w =
    (Ok (error_response 409 "Book with this ISBN already exists"),
     recorded "Error creating book:" (refused_insert w)).
Proof.
  intros Hf Hd. unfold POST_books, try_catch, bind. fold (missing_required b).
  rewrite POST_valid_passes, Ht, Ha, Hi. cbn [sql_param].
  rewrite sql_insert_eq, Hf, Hd. reflexivity.
Qed.

Lemma POST_books_created :
  store_fault w (store_stmts w) = false ->
  existsb (has_isbn (collation w) i) (books w) = false ->
  POST_books b w =
    reply_after (Response 201 (JObj (created_fields b w)))
      (invalidateCache "books:*" (inserted (created_row t a i b w) w)).
Proof.
  intros Hf Hd. unfold POST_books, try_catch, bind. fold (missing_required b).
  rewrite POST_valid_passes, Ht, Ha, Hi. cbn [sql_param].
  rewrite sql_insert_eq, Hf, Hd.
  fold (created_row t a i b w). fold (inserted (created_row t a i b w) w).
  destruct (invalidateCache_run "books:*" (inserted (created_row t a i b w) w))
    as (o & w' & E & Hne & _).
  rewrite E. unfold reply_after, pending. cbn [fst snd].
  destruct o as [[]|e|]; [reflexivity|destruct (Hne e eq_refl)|reflexivity].
Qed.

Lemma POST_books_created_settled :
  store_fault w (store_stmts w) = false ->
  existsb (has_isbn (collation w) i) (books w) = false ->
  responsive w ->
  POST_books b w =
    (Ok (Response 201 (JObj (created_fields b w))),
     after (invalidateCache "books:*" (inserted (created_row t a i b w) w))).
Proof.
  intros Hf Hd Hr. rewrite POST_books_created by assumption.
  destruct (invalidateCache_frame "books:*" (inserted (created_row t a i b w) w))
    as (w' & E & _); [exact Hr|].
  rewrite E. reflexivity.
Qed.

Lemma created_fields_id : obj_get "id" (created_fields b w) = Some (JNum (next_id w)).
Proof. reflexivity. Qed.

Lemma created_fields_echo :
  obj_get "title" (created_fields b w) = Some (JStr t)
  /\ obj_get "author" (created_fields b w) = Some (JStr a)
  /\ obj_get "isbn" (created_fields b w) = Some (JStr i)
  /\ obj_get "message" (created_fields b w)
     = Some (JStr "Book created successfully").
Proof.
  unfold created_fields, echo. rewrite Ht, Ha, Hi.
  destruct (price b), (stock b); repeat split; reflexivity.
Qed.

Lemma created_fields_no_timestamp :
  obj_get "created_at" (created_fields b w) = None
  /\ obj_get "updated_at" (created_fields b w) = None.
Proof.
  unfold created_fields, echo. rewrite Ht, Ha, Hi.
  destruct (price b), (stock b); split; reflexivity.
Qed.

Lemma created_fields_price :
  obj_get "price" (created_fields b w) = js_of JNum (price b).
Proof.
  unfold created_fields, echo. rewrite Ht, Ha, Hi.
  destruct (price b), (stock b); reflexivity.
Qed.

Lemma created_fields_stock :
  obj_get "stock" (created_fields b w) = js_of JNum (stock b).
Proof.
  unfold created_fields, echo. rewrite Ht, Ha, Hi.
  destruct (price b), (stock b); reflexivity.
Qed.
End POST_valid.

Lemma invalidateCache_books pattern w :
  books (after (invalidateCache pattern w)) = books w.
Proof.
  destruct (invalidateCache_run pattern w) as (o & w' & E & _ & (Hb & _) & _).
  unfold after. rewrite E. exact Hb.
Qed.

(** C4, refuted as stated.  A request with title, author and a fresh ISBN
    is answered 201; the reply holds the identifier 4 but no created
    timestamp: it has no [created_at] property and none of its values is the
    time of creation, 2000, which only the stored row records. *)
Lemma POST_books_reply_without_timestamp :
  missing_required refactoring = false
  /\ existsb (has_isbn (collation seeded) "978-0134757599") (books seeded) = false
  /\ reply (POST_books refactoring seeded) =
       Some (Response 201
               (JObj [("id", JNum 4); ("title", JStr "Refactoring");
                      ("author", JStr "Martin Fowler");
                      ("isbn", JStr "978-0134757599");
                      ("message", JStr "Book created successfully")]))
  /\ ~ (exists fields stamp,
          reply (POST_books refactoring seeded) = Some (Response 201 (JObj fields))
          /\ obj_get "created_at" fields = Some stamp)
  /\ (exists row, last (books (after (POST_books refactoring seeded))) = Some row
                  /\ row_id row = 4 /\ created_at row = 2000).
Proof.
  split; [reflexivity|]. split; [reflexivity|]. split; [vm_compute; reflexivity|].
  split.
  - intros (fields & stamp & E & Hs). vm_compute in E.
    injection E as <-. discriminate Hs.
  - eexists. vm_compute. repeat split.
Qed.

(** C4, as the code has it.  A request lacking a required field is answered
    400 and changes nothing.  A request with title, author and ISBN present
    and non-empty, on a store that executes the statement, is answered 409
    without any change to the table when the index of the column already
    holds the ISBN (under its collation), and otherwise, the invalidation
    settling, 201: the reply holds the newly assigned identifier, the fields
    of the request as the request gave them, a message and no timestamp, and
    the table gains one row with that identifier, created at the store's
    current time, with price and stock zero where the request omitted
    them. *)
Theorem POST_books_create (w : world) (b : request_body) :
  (missing_required b = true ->
     POST_books b w =
       (Ok (error_response 400 "Title, author, and ISBN are required"), w))
  /\ (forall t a i,
        title b = Given t -> author b = Given a -> isbn b = Given i ->
        t <> EmptyString -> a <> EmptyString -> i <> EmptyString ->
        store_fault w (store_stmts w) = false ->
        (existsb (has_isbn (collation w) i) (books w) = true ->
           reply (POST_books b w) =
             Some (error_response 409 "Book with this ISBN already exists")
           /\ books (after (POST_books b w)) = books w)
        /\ (existsb (has_isbn (collation w) i) (books w) = false ->
            responsive w ->
              exists fields row,
                reply (POST_books b w) = Some (Response 201 (JObj fields))
                /\ obj_get "id" fields = Some (JNum (next_id w))
                /\ obj_get "title" fields = Some (JStr t)
                /\ obj_get "author" fields = Some (JStr a)
                /\ obj_get "isbn" fields = Some (JStr i)
                /\ obj_get "price" fields = js_of JNum (price b)
                /\ obj_get "stock" fields = js_of JNum (stock b)
                /\ obj_get "message" fields
                   = Some (JStr "Book created successfully")
                /\ obj_get "created_at" fields = None
                /\ books (after (POST_books b w)) = books w ++ [row]
                /\ row_id row = next_id w
                /\ row_title row = t /\ row_author row = a /\ row_isbn row = i
                /\ created_at row = now w
                /\ row_price row = Some (or_zero (price b))
                /\ row_stock row = Some (or_zero (stock b))
                /\ (price b = Absent -> row_price row = Some 0)
                /\ (stock b = Absent -> row_stock row = Some 0))).
Proof.
  split; [apply POST_books_invalid|].
  intros t a i Ht Ha Hi Ht0 Ha0 Hi0 Hf. split; [intros Hd|intros Hd Hresp].
  - rewrite (POST_books_duplicate b w t a i) by assumption. split; reflexivity.
  - exists (created_fields b w), (created_row t a i b w).
    rewrite (POST_books_created_settled b w t a i) by assumption.
    destruct (created_fields_echo b w t a i Ht Ha Hi) as (Et & Ea & Ei & Em).
    split; [reflexivity|]. split; [reflexivity|].
    split; [exact Et|]. split; [exact Ea|]. split; [exact Ei|].
    split; [apply (created_fields_price b w t a i); assumption|].
    split; [apply (created_fields_stock b w t a i); assumption|].
    split; [exact Em|].
    split; [apply (created_fields_no_timestamp b w t a i); assumption|].
    split; [unfold after at 1; cbn [snd]; apply invalidateCache_books|].
    repeat split; intros E; cbn [created_row row_price row_stock];
      rewrite E; reflexivity.
Qed.

(** On the sample request and the seeded table: the 201 case. *)
Lemma POST_books_create_witness :
  exists fields row,
    reply (POST_books refactoring seeded) = Some (Response 201 (JObj fields))
    /\ obj_get "id" fields = Some (JNum (next_id seeded))
    /\ obj_get "title" fields = Some (JStr "Refactoring")
    /\ obj_get "author" fields = Some (JStr "Martin Fowler")
    /\ obj_get "isbn" fields = Some (JStr "978-0134757599")
    /\ obj_get "price" fields = js_of JNum (price refactoring)
    /\ obj_get "stock" fields = js_of JNum (stock refactoring)
    /\ obj_get "message" fields = Some (JStr "Book created successfully")
    /\ obj_get "created_at" fields = None
    /\ books (after (POST_books refactoring seeded)) = books seeded ++ [row]
    /\ row_id row = next_id seeded
    /\ row_title row = "Refactoring" /\ row_author row = "Martin Fowler"
    /\ row_isbn row = "978-0134757599"
    /\ created_at row = now seeded
    /\ row_price row = Some (or_zero (price refactoring))
    /\ row_stock row = Some (or_zero (stock refactoring))
    /\ (price refactoring = Absent -> row_price row = Some 0)
    /\ (stock refactoring = Absent -> row_stock row = Some 0).
Proof.
  apply (proj2 (POST_books_create seeded refactoring)
           "Refactoring" "Martin Fowler" "978-0134757599");
    try reflexivity; discriminate.
Defined.

(** The index compares ISBNs under the collation of the column: on the
    seeded table, the ISBN of The Pragmatic Programmer followed by a blank is
    a duplicate, the request is answered 409, the table is as before and the
    counter has moved on. *)
Example POST_books_isbn_with_trailing_blank :
  let b := Body (Given "Refactoring") (Given "Martin Fowler")
                (Given "978-0135957059 ") Absent Absent in
  reply (POST_books b seeded)
  = Some (error_response 409 "Book with this ISBN already exists")
  /\ books (after (POST_books b seeded)) = books seeded
  /\ next_id (after (POST_books b seeded)) = 5.
Proof. vm_compute. repeat split. Qed.

(** ** The 201 reply against the stored row *)

Lemma POST_books_status_201 b w r :
  reply (POST_books b w) = Some r ->
  status r = 201 ->
  exists t a i,
    title b = Given t /\ author b = Given a /\ isbn b = Given i
    /\ existsb (has_isbn (collation w) i) (books w) = false
    /\ POST_books b w =
         (Ok (Response 201 (JObj (created_fields b w))),
          after (invalidateCache "books:*" (inserted (created_row t a i b w) w))).
Proof.
  intros Hr Hs.
  destruct (missing_required b) eqn:Hm.
  { rewrite (POST_books_invalid b w Hm) in Hr. injection Hr as <-. discriminate Hs. }
  apply missing_required_false in Hm as (t & a & i & Ht & Ha & Hi & Ht0 & Ha0 & Hi0).
  exists t, a, i. repeat (split; [assumption|]).
  destruct (store_fault w (store_stmts w)) eqn:Hf.
  { rewrite (POST_books_store_error b w t a i) in Hr by assumption.
    injection Hr as <-. discriminate Hs. }
  destruct (existsb (has_isbn (collation w) i) (books w)) eqn:Hd.
  { rewrite (POST_books_duplicate b w t a i) in Hr by assumption.
    injection Hr as <-. discriminate Hs. }
  split; [reflexivity|].
  rewrite (POST_books_created b w t a i) in Hr |- * by assumption.
  rewrite reply_reply_after in Hr.
  destruct (pending _) eqn:Hp; [discriminate Hr|].
  apply reply_after_settled, Hp.
Qed.

(** C10.  Whenever POST /api/books answers 201, the reply echoes [price] and
    [stock] as the request gave them (a property the request omitted is
    missing from the reply), while the row written to the table, which is
    what later reads serialise, holds [price || 0] and [stock || 0]: for an
    omitted price or stock the reply has no such property and the row has
    0. *)
Theorem POST_books_echo_vs_stored (w : world) (b : request_body) (r : response) :
  reply (POST_books b w) = Some r ->
  status r = 201 ->
  exists fields row,
    body r = JObj fields
    /\ last (books (after (POST_books b w))) = Some row
    /\ obj_get "id" fields = Some (JNum (row_id row))
    /\ obj_get "price" fields = js_of JNum (price b)
    /\ obj_get "stock" fields = js_of JNum (stock b)
    /\ obj_get "price" (spread (book_json row)) = Some (JNum (or_zero (price b)))
    /\ obj_get "stock" (spread (book_json row)) = Some (JNum (or_zero (stock b)))
    /\ (price b = Absent ->
          obj_get "price" fields = None
          /\ obj_get "price" (spread (book_json row)) = Some (JNum 0))
    /\ (stock b = Absent ->
          obj_get "stock" fields = None
          /\ obj_get "stock" (spread (book_json row)) = Some (JNum 0)).
Proof.
  intros Hr Hs.
  destruct (POST_books_status_201 b w r Hr Hs)
    as (t & a & i & Ht & Ha & Hi & _ & E).
  unfold reply in Hr. rewrite E in Hr |- *. cbn [fst] in Hr. injection Hr as <-.
  exists (created_fields b w), (created_row t a i b w).
  split; [reflexivity|].
  split. { unfold after at 1. cbn [snd]. rewrite invalidateCache_books.
           cbn [inserted books with_next_id with_books]. apply last_snoc. }
  split; [reflexivity|].
  split; [apply (created_fields_price b w t a i); assumption|].
  split; [apply (created_fields_stock b w t a i); assumption|].
  split; [reflexivity|]. split; [reflexivity|].
  split; intros E0.
  - rewrite (created_fields_price b w t a i) by assumption.
    cbn [created_row book_json spread row_price nullable]. rewrite E0.
    split; reflexivity.
  - rewrite (created_fields_stock b w t a i) by assumption.
    cbn [created_row book_json spread row_stock nullable]. rewrite E0.
    split; reflexivity.
Qed.

(** On the sample request, which omits both price and stock. *)
Lemma POST_books_echo_vs_stored_witness :
  exists fields row,
    body (Response 201 (JObj (created_fields refactoring seeded))) = JObj fields
    /\ last (books (after (POST_books refactoring seeded))) = Some row
    /\ obj_get "id" fields = Some (JNum (row_id row))
    /\ obj_get "price" fields = js_of JNum (price refactoring)
    /\ obj_get "stock" fields = js_of JNum (stock refactoring)
    /\ obj_get "price" (spread (book_json row))
       = Some (JNum (or_zero (price refactoring)))
    /\ obj_get "stock" (spread (book_json row))
       = Some (JNum (or_zero (stock refactoring)))
    /\ (price refactoring = Absent ->
          obj_get "price" fields = None
          /\ obj_get "price" (spread (book_json row)) = Some (JNum 0))
    /\ (stock refactoring = Absent ->
          obj_get "stock" fields = None
          /\ obj_get "stock" (spread (book_json row)) = Some (JNum 0)).
Proof.
  apply (POST_books_echo_vs_stored seeded refactoring
           (Response 201 (JObj (created_fields refactoring seeded))));
    reflexivity.
Defined.

(** The disagreement on the sample request: the 201 reply has neither
    [price] nor [stock]; reading the new book back yields both as 0. *)
Example POST_then_GET_book_refactoring :
  reply (POST_books refactoring seeded) =
    Some (Response 201
            (JObj [("id", JNum 4); ("title", JStr "Refactoring");
                   ("author", JStr "Martin Fowler");
                   ("isbn", JStr "978-0134757599");
                   ("message", JStr "Book created successfully")]))
  /\ reply (GET_book 4 (after (POST_books refactoring seeded))) =
       Some (Response 200
               (JObj [("id", JNum 4); ("title", JStr "Refactoring");
                      ("author", JStr "Martin Fowler");
                      ("isbn", JStr "978-0134757599");
                      ("price", JNum 0); ("stock", JNum 0);
                      ("created_at", JNum 2000); ("updated_at", JNum 2000)])).
Proof. split; vm_compute; reflexivity. Qed.

(** ** PUT /api/books/:id and DELETE /api/books/:id, case by case *)

Lemma sql_update_eq t a i p s id w :
  sql_update t a i p s id w =
    if store_fault w (store_stmts w)
    then (Throw (StoreError ER_OTHER), one_statement w)
    else
      match List.filter (has_id id) (books w) with
      | [] => (Ok 0%nat, one_statement w)
      | row :: rest =>
          match t, a, i with
          | Some t, Some a, Some i =>
              if existsb (fun b => negb (has_id id b) && has_isbn (collation w) i b) (books w)
              then (Throw (StoreError ER_DUP_ENTRY), one_statement w)
              else (Ok (length (row :: rest)),
                    with_books (map (replace_row id t a i p s (now w)) (books w))
                               (one_statement w))
          | _, _, _ => (Throw (StoreError ER_BAD_NULL_ERROR), one_statement w)
          end
      end.
Proof.
  unfold sql_update, statement.
  destruct (store_fault w (store_stmts w)); [reflexivity|].
  cbn [books with_store_stmts].
  destruct (List.filter (has_id id) (books w)); [reflexivity|].
  destruct t, a, i; reflexivity.
Qed.

Lemma sql_delete_eq id w :
  sql_delete id w =
    if store_fault w (store_stmts w)
    then (Throw (StoreError ER_OTHER), one_statement w)
    else (Ok (length (List.filter (has_id id) (books w))),
          with_books (List.filter (fun b => negb (has_id id b)) (books w))
                     (one_statement w)).
Proof. reflexivity. Qed.

Lemma PUT_book_store_error id b w :
  store_fault w (store_stmts w) = true ->
  PUT_book id b w =
    (Ok server_error_on_update, recorded "Error updating book:" (one_statement w)).
Proof.
  intros Hf. unfold PUT_book, try_catch, bind. rewrite sql_update_eq, Hf.
  reflexivity.
Qed.

Lemma PUT_book_absent id b w :
  store_fault w (store_stmts w) = false ->
  List.filter (has_id id) (books w) = [] ->
  PUT_book id b w = (Ok (error_response 404 "Book not found"), one_statement w).
Proof.
  intros Hf Hm. unfold PUT_book, try_catch, bind. rewrite sql_update_eq, Hf, Hm.
  reflexivity.
Qed.

(** A required column bound to NULL: the statement is rejected, the reply
    is 500. *)
Lemma PUT_book_null_column id b w row rest :
  store_fault w (store_stmts w) = false ->
  List.filter (has_id id) (books w) = row :: rest ->
  sql_param (title b) = None \/ sql_param (author b) = None
    \/ sql_param (isbn b) = None ->
  PUT_book id b w =
    (Ok server_error_on_update, recorded "Error updating book:" (one_statement w)).
Proof.
  intros Hf Hm Hnull. unfold PUT_book, try_catch, bind.
  rewrite sql_update_eq, Hf, Hm.
  destruct (sql_param (title b)), (sql_param (author b)), (sql_param (isbn b));
    try reflexivity.
  destruct Hnull as [H|[H|H]]; discriminate H.
Qed.

Section PUT_given.
Variables (id : Z) (b : request_body) (w : world) (t a i : string) (row : book)
  (rest : list book).
Hypothesis Ht : title b = Given t.
Hypothesis Ha : author b = Given a.
Hypothesis Hi : isbn b = Given i.
Hypothesis Hf : store_fault w (store_stmts w) = false.
Hypothesis Hm : List.filter (has_id id) (books w) = row :: rest.

Lemma PUT_book_duplicate :
  isbn_taken_elsewhere id i w = true ->
  PUT_book id b w =
    (Ok server_error_on_update, recorded "Error updating book:" (one_statement w)).
Proof.
  intros Hd. unfold PUT_book, try_catch, bind.
  rewrite sql_update_eq, Hf, Hm, Ht, Ha, Hi. cbn [sql_param].
  fold (isbn_taken_elsewhere id i w). rewrite Hd. reflexivity.
Qed.

Lemma PUT_book_updated :
  isbn_taken_elsewhere id i w = false ->
  PUT_book id b w =
    reply_after (Response 200 (JObj (updated_fields id b)))
      (invalidateCache "books:*" (updated id t a i b w)).
Proof.
  intros Hd. unfold PUT_book, try_catch, bind.
  rewrite sql_update_eq, Hf, Hm, Ht, Ha, Hi. cbn [sql_param].
  fold (isbn_taken_elsewhere id i w). rewrite Hd.
  cbn [length Nat.eqb]. fold (updated id t a i b w).
  destruct (invalidateCache_run "books:*" (updated id t a i b w))
    as (o & w' & E & Hne & _).
  rewrite E. unfold reply_after, pending. cbn [fst snd].
  destruct o as [[]|e|]; [reflexivity|destruct (Hne e eq_refl)|reflexivity].
Qed.

Lemma PUT_book_updated_settled :
  isbn_taken_elsewhere id i w = false ->
  responsive w ->
  PUT_book id b w =
    (Ok (Response 200 (JObj (updated_fields id b))),
     after (invalidateCache "books:*" (updated id t a i b w))).
Proof.
  intros Hd Hr. rewrite PUT_book_updated by assumption.
  destruct (invalidateCache_frame "books:*" (updated id t a i b w))
    as (w' & E & _); [exact Hr|].
  rewrite E. reflexivity.
Qed.
End PUT_given.

Lemma DELETE_book_store_error id w :
  store_fault w (store_stmts w) = true ->
  DELETE_book id w =
    (Ok (error_response 500 "Failed to delete book"),
     recorded "Error deleting book:" (one_statement w)).
Proof.
  intros Hf. unfold DELETE_book, try_catch, bind. rewrite sql_delete_eq, Hf.
  reflexivity.
Qed.

Lemma filter_others l id :
  List.filter (has_id id) l = [] ->
  List.filter (fun b => negb (has_id id b)) l = l.
Proof.
  induction l as [|x l IH]; cbn [List.filter]; [reflexivity|].
  destruct (has_id id x); cbn [negb]; [discriminate|].
  intros H. rewrite (IH H). reflexivity.
Qed.

Lemma DELETE_book_absent id w :
  store_fault w (store_stmts w) = false ->
  List.filter (has_id id) (books w) = [] ->
  DELETE_book id w =
    (Ok (error_response 404 "Book not found"), deleted id w)
  /\ books (deleted id w) = books w.
Proof.
  intros Hf Hm. split.
  - unfold DELETE_book, try_catch, bind. rewrite sql_delete_eq, Hf, Hm. reflexivity.
  - cbn [deleted books with_books]. apply filter_others, Hm.
Qed.

Lemma DELETE_book_deleted id w row rest :
  store_fault w (store_stmts w) = false ->
  List.filter (has_id id) (books w) = row :: rest ->
  DELETE_book id w =
    reply_after (Response 200 (JObj [("message", JStr "Book deleted successfully")]))
      (invalidateCache "books:*" (deleted id w)).
Proof.
  intros Hf Hm. unfold DELETE_book, try_catch, bind.
  rewrite sql_delete_eq, Hf, Hm. cbn [length Nat.eqb]. fold (deleted id w).
  destruct (invalidateCache_run "books:*" (deleted id w))
    as (o & w' & E & Hne & _).
  rewrite E. unfold reply_after, pending. cbn [fst snd].
  destruct o as [[]|e|]; [reflexivity|destruct (Hne e eq_refl)|reflexivity].
Qed.

Lemma DELETE_book_deleted_settled id w row rest :
  store_fault w (store_stmts w) = false ->
  List.filter (has_id id) (books w) = row :: rest ->
  responsive w ->
  DELETE_book id w =
    (Ok (Response 200 (JObj [("message", JStr "Book deleted successfully")])),
     after (invalidateCache "books:*" (deleted id w))).
Proof.
  intros Hf Hm Hr. rewrite (DELETE_book_deleted id w row rest) by assumption.
  destruct (invalidateCache_frame "books:*" (deleted id w))
    as (w' & E & _); [exact Hr|].
  rewrite E. reflexivity.
Qed.

(** What PUT /api/books/:id does, in one of five ways: the statement fails,
    no row has the identifier, a required column is bound to NULL, another
    row carries the ISBN, or the row is updated and the cache swept. *)
Lemma PUT_book_cases id b w :
  (exists r w', PUT_book id b w = (Ok r, w') /\ (status r = 404 \/ status r = 500))
  \/ (exists t a i,
        title b = Given t /\ author b = Given a /\ isbn b = Given i
        /\ PUT_book id b w =
             reply_after (Response 200 (JObj (updated_fields id b)))
               (invalidateCache "books:*" (updated id t a i b w))).
Proof.
  destruct (store_fault w (store_stmts w)) eqn:Hf.
  { left. rewrite PUT_book_store_error by assumption. do 2 eexists.
    split; [reflexivity|]. cbn. auto. }
  destruct (List.filter (has_id id) (books w)) as [|row rest] eqn:Hm.
  { left. rewrite PUT_book_absent by assumption. do 2 eexists.
    split; [reflexivity|]. cbn. auto. }
  destruct (title b) as [| |t] eqn:Ht;
    try (left; rewrite (PUT_book_null_column id b w row rest) by
           (try assumption; rewrite Ht; auto);
         do 2 eexists; split; [reflexivity|cbn; auto]).
  destruct (author b) as [| |a] eqn:Ha;
    try (left; rewrite (PUT_book_null_column id b w row rest) by
           (try assumption; rewrite Ha; auto);
         do 2 eexists; split; [reflexivity|cbn; auto]).
  destruct (isbn b) as [| |i] eqn:Hi;
    try (left; rewrite (PUT_book_null_column id b w row rest) by
           (try assumption; rewrite Hi; auto);
         do 2 eexists; split; [reflexivity|cbn; auto]).
  destruct (isbn_taken_elsewhere id i w) eqn:Hd.
  - left. rewrite (PUT_book_duplicate id b w t a i row rest) by assumption.
    do 2 eexists. split; [reflexivity|cbn; auto].
  - right. exists t, a, i. repeat (split; [reflexivity|]).
    apply (PUT_book_updated id b w t a i row rest); assumption.
Qed.

(** Whenever PUT /api/books/:id answers, it is with 200, 404 or 500. *)
Lemma PUT_book_statuses id b w r :
  reply (PUT_book id b w) = Some r ->
  status r = 200 \/ status r = 404 \/ status r = 500.
Proof.
  intros Hr.
  destruct (PUT_book_cases id b w) as [(r' & w' & E & Hs)|(t & a & i & _ & _ & _ & E)];
    rewrite E in Hr.
  - injection Hr as <-. tauto.
  - rewrite reply_reply_after in Hr. destruct (pending _); [discriminate Hr|].
    injection Hr as <-. cbn. auto.
Qed.

(** With no command left pending, PUT /api/books/:id always answers. *)
Lemma PUT_book_answers id b w :
  responsive w -> exists r, reply (PUT_book id b w) = Some r.
Proof.
  intros Hresp.
  destruct (PUT_book_cases id b w) as [(r' & w' & E & Hs)|(t & a & i & _ & _ & _ & E)];
    rewrite E.
  - eexists. reflexivity.
  - destruct (invalidateCache_frame "books:*" (updated id t a i b w))
      as (w' & E' & _); [exact Hresp|].
    rewrite E'. eexists. reflexivity.
Qed.

(** A request that binds a required column to NULL is always answered, with
    404 or 500: it does not get as far as the cache. *)
Lemma PUT_book_null_answered id b w :
  sql_param (title b) = None \/ sql_param (author b) = None
    \/ sql_param (isbn b) = None ->
  exists r,
    reply (PUT_book id b w) = Some r /\ (status r = 404 \/ status r = 500).
Proof.
  intros Hnull.
  destruct (store_fault w (store_stmts w)) eqn:Hf.
  { rewrite PUT_book_store_error by assumption. eexists.
    split; [reflexivity|]. cbn. auto. }
  destruct (List.filter (has_id id) (books w)) as [|row rest] eqn:Hm.
  { rewrite PUT_book_absent by assumption. eexists.
    split; [reflexivity|]. cbn. auto. }
  rewrite (PUT_book_null_column id b w row rest) by assumption.
  eexists. split; [reflexivity|]. cbn. auto.
Qed.

(** C5 (what the code does for PUT).  POST answers a request without a
    title with 400.  PUT never answers 400, whatever the request; with no
    cache command left pending it always answers.  A request that lacks a
    required field (absent or null) is always answered, with 404 or 500 (the
    store rejects the NULL when the book exists): the same body is answered
    400 by POST, 500 by PUT on book 1 and 404 by PUT on the missing
    book 9. *)
Theorem PUT_book_skips_validation :
  (forall id b w r, reply (PUT_book id b w) = Some r -> status r <> 400)
  /\ (forall id b w, responsive w ->
        exists r, reply (PUT_book id b w) = Some r /\ status r <> 400)
  /\ (forall id b w,
        sql_param (title b) = None \/ sql_param (author b) = None
          \/ sql_param (isbn b) = None ->
        exists r, reply (PUT_book id b w) = Some r
                  /\ (status r = 404 \/ status r = 500))
  /\ missing_required untitled = true
  /\ reply (POST_books untitled seeded) =
       Some (error_response 400 "Title, author, and ISBN are required")
  /\ reply (PUT_book 1 untitled seeded) =
       Some (error_response 500 "Failed to update book")
  /\ reply (PUT_book 9 untitled seeded) =
       Some (error_response 404 "Book not found").
Proof.
  assert (Hnever : forall id b w r,
            reply (PUT_book id b w) = Some r -> status r <> 400).
  { intros id b w r Hr. pose proof (PUT_book_statuses id b w r Hr). lia. }
  split; [exact Hnever|]. split.
  - intros id b w Hresp. destruct (PUT_book_answers id b w Hresp) as (r & E).
    exists r. split; [exact E|]. apply (Hnever id b w), E.
  - split; [exact PUT_book_null_answered|].
    repeat split; vm_compute; reflexivity.
Qed.

(** C6 (the status of a duplicate ISBN on update).  An update of an existing
    book that would give it the ISBN of another book is rejected by the store
    with the duplicate-key error; PUT answers 500, "Failed to update book",
    not 409.  Table and cache are left as they were. *)
Theorem PUT_book_duplicate_isbn_is_500
    (id : Z) (b : request_body) (w : world) (t a i : string) (row : book)
    (rest : list book) :
  title b = Given t -> author b = Given a -> isbn b = Given i ->
  store_fault w (store_stmts w) = false ->
  List.filter (has_id id) (books w) = row :: rest ->
  isbn_taken_elsewhere id i w = true ->
  fst (sql_update (Some t) (Some a) (Some i)
         (sql_param (price b)) (sql_param (stock b)) id w)
    = Throw (StoreError ER_DUP_ENTRY)
  /\ reply (PUT_book id b w) = Some (error_response 500 "Failed to update book")
  /\ books (after (PUT_book id b w)) = books w
  /\ cache (after (PUT_book id b w)) = cache w.
Proof.
  intros Ht Ha Hi Hf Hm Hd. split.
  - rewrite sql_update_eq, Hf, Hm. fold (isbn_taken_elsewhere id i w).
    rewrite Hd. reflexivity.
  - rewrite (PUT_book_duplicate id b w t a i row rest) by assumption.
    repeat split.
Qed.

(** On the seeded table: book 2 is given the ISBN of book 1. *)
Lemma PUT_book_duplicate_isbn_is_500_witness :
  fst (sql_update (Some "Clean Code") (Some "Robert C. Martin")
         (Some "978-0135957059")
         (sql_param (price clean_code_wrong_isbn))
         (sql_param (stock clean_code_wrong_isbn)) 2 seeded)
    = Throw (StoreError ER_DUP_ENTRY)
  /\ reply (PUT_book 2 clean_code_wrong_isbn seeded)
     = Some (error_response 500 "Failed to update book")
  /\ books (after (PUT_book 2 clean_code_wrong_isbn seeded)) = books seeded
  /\ cache (after (PUT_book 2 clean_code_wrong_isbn seeded)) = cache seeded.
Proof.
  apply (PUT_book_duplicate_isbn_is_500 2 clean_code_wrong_isbn seeded
           "Clean Code" "Robert C. Martin" "978-0135957059" clean_code []);
    reflexivity.
Defined.

(** The sibling path: the same duplicate sent to POST is answered 409. *)
Example POST_books_duplicate_isbn_is_409 :
  reply (POST_books clean_code_wrong_isbn seeded) =
    Some (error_response 409 "Book with this ISBN already exists").
Proof. vm_compute. reflexivity. Qed.

(** ** The three mutations together *)

(** What a mutation request does.  Either the request is turned down
    before the cache is touched: the reply is 400, 404, 409 or 500, table and
    cache are as before, no cache command was issued, and the counter is as
    before unless the reply is 409 (the refused INSERT has used up one
    identifier).  Or the store applied the mutation and [invalidateCache] ran
    once, after the statement: the reply, 200 or 201, is sent when the
    invalidation has settled, and not at all when it stays pending. *)
Lemma mutation_effect m w :
  exists r,
    (forall r', reply (handle_mutation m w) = Some r' -> r' = r)
    /\ ((acknowledged r = false
         /\ reply (handle_mutation m w) = Some r
         /\ (status r = 400 \/ status r = 404 \/ status r = 409 \/ status r = 500)
         /\ books (after (handle_mutation m w)) = books w
         /\ next_id (after (handle_mutation m w))
            = (if status r =? 409 then next_id w + 1 else next_id w)
         /\ cache (after (handle_mutation m w)) = cache w
         /\ cache_cmds (after (handle_mutation m w)) = cache_cmds w
         /\ same_client w (after (handle_mutation m w)))
        \/ (acknowledged r = true
            /\ exists w1,
                 applied m w w1
                 /\ handle_mutation m w
                    = reply_after r (invalidateCache "books:*" w1))).
Proof.
  assert (Hrej : forall h r w',
            h = (Ok r, w') ->
            acknowledged r = false ->
            (status r = 400 \/ status r = 404 \/ status r = 409 \/ status r = 500) ->
            books w' = books w ->
            next_id w' = (if status r =? 409 then next_id w + 1 else next_id w) ->
            cache w' = cache w -> cache_cmds w' = cache_cmds w ->
            same_client w w' ->
            exists r0,
              (forall r', reply h = Some r' -> r' = r0)
              /\ ((acknowledged r0 = false
                   /\ reply h = Some r0
                   /\ (status r0 = 400 \/ status r0 = 404 \/ status r0 = 409
                       \/ status r0 = 500)
                   /\ books (after h) = books w
                   /\ next_id (after h)
                      = (if status r0 =? 409 then next_id w + 1 else next_id w)
                   /\ cache (after h) = cache w
                   /\ cache_cmds (after h) = cache_cmds w
                   /\ same_client w (after h))
                  \/ (acknowledged r0 = true
                      /\ exists w1,
                           applied m w w1
                           /\ h = reply_after r0 (invalidateCache "books:*" w1)))).
  { intros h r w' -> Hack Hst Hb Hn Hc Hk Hcl. exists r.
    split; [intros r' [= <-]; reflexivity|]. left. unfold after. cbn [snd].
    repeat (split; [assumption || reflexivity|]). exact Hcl. }
  assert (Happ : forall h r w1,
            h = reply_after r (invalidateCache "books:*" w1) ->
            acknowledged r = true ->
            applied m w w1 ->
            exists r0,
              (forall r', reply h = Some r' -> r' = r0)
              /\ ((acknowledged r0 = false
                   /\ reply h = Some r0
                   /\ (status r0 = 400 \/ status r0 = 404 \/ status r0 = 409
                       \/ status r0 = 500)
                   /\ books (after h) = books w
                   /\ next_id (after h)
                      = (if status r0 =? 409 then next_id w + 1 else next_id w)
                   /\ cache (after h) = cache w
                   /\ cache_cmds (after h) = cache_cmds w
                   /\ same_client w (after h))
                  \/ (acknowledged r0 = true
                      /\ exists w1,
                           applied m w w1
                           /\ h = reply_after r0 (invalidateCache "books:*" w1)))).
  { intros h r w1 -> Hack Ha. exists r. split.
    - intros r'. rewrite reply_reply_after. destruct (pending _); [discriminate|].
      intros [= <-]. reflexivity.
    - right. split; [exact Hack|]. exists w1. split; [exact Ha|reflexivity]. }
  destruct m as [b|id b|id]; cbn [handle_mutation] in *.
  - destruct (missing_required b) eqn:Hm.
    { eapply Hrej; [apply POST_books_invalid, Hm|..]; cbn; auto using same_client_refl. }
    apply missing_required_false in Hm as (t & a & i & Ht & Ha & Hi & Ht0 & Ha0 & Hi0).
    destruct (store_fault w (store_stmts w)) eqn:Hf.
    { eapply Hrej; [apply (POST_books_store_error b w t a i); assumption|..];
        cbn; auto 6. repeat split. }
    destruct (existsb (has_isbn (collation w) i) (books w)) eqn:Hd.
    { eapply Hrej; [apply (POST_books_duplicate b w t a i); assumption|..];
        cbn; auto 6. repeat split. }
    eapply Happ; [apply (POST_books_created b w t a i); assumption|reflexivity|].
    split; [repeat split|]. split; [repeat split|].
    exists t, a, i. repeat split; assumption.
  - destruct (store_fault w (store_stmts w)) eqn:Hf.
    { eapply Hrej; [apply PUT_book_store_error; assumption|..]; cbn; auto 6.
      repeat split. }
    destruct (List.filter (has_id id) (books w)) as [|row rest] eqn:Hm.
    { eapply Hrej; [apply PUT_book_absent; assumption|..]; cbn; auto 6.
      repeat split. }
    destruct (sql_param (title b)) as [t|] eqn:Ht;
      [|eapply Hrej; [apply (PUT_book_null_column id b w row rest); auto|..];
        cbn; auto 6; repeat split].
    destruct (sql_param (author b)) as [a|] eqn:Ha;
      [|eapply Hrej; [apply (PUT_book_null_column id b w row rest); auto|..];
        cbn; auto 6; repeat split].
    destruct (sql_param (isbn b)) as [i|] eqn:Hi;
      [|eapply Hrej; [apply (PUT_book_null_column id b w row rest); auto|..];
        cbn; auto 6; repeat split].
    assert (Ht' : title b = Given t) by (destruct (title b); inversion Ht; reflexivity).
    assert (Ha' : author b = Given a) by (destruct (author b); inversion Ha; reflexivity).
    assert (Hi' : isbn b = Given i) by (destruct (isbn b); inversion Hi; reflexivity).
    destruct (isbn_taken_elsewhere id i w) eqn:Hd.
    { eapply Hrej; [apply (PUT_book_duplicate id b w t a i row rest); assumption|..];
        cbn; auto 6. repeat split. }
    eapply Happ; [apply (PUT_book_updated id b w t a i row rest); assumption
                 |reflexivity|].
    split; [repeat split|]. split; [repeat split|].
    exists t, a, i, row, rest. repeat split; assumption.
  - destruct (store_fault w (store_stmts w)) eqn:Hf.
    { eapply Hrej; [apply DELETE_book_store_error; assumption|..]; cbn; auto 6.
      repeat split. }
    destruct (List.filter (has_id id) (books w)) as [|row rest] eqn:Hm.
    { destruct (DELETE_book_absent id w Hf Hm) as [E Hb].
      eapply Hrej; [exact E|..]; cbn; auto 6. repeat split. }
    eapply Happ; [apply (DELETE_book_deleted id w row rest); assumption
                 |reflexivity|].
    split; [repeat split|]. split; [repeat split|].
    exists row, rest. repeat split. exact Hm.
Qed.

(** The world a mutation request leaves behind, when the store applied it. *)
Lemma after_reply_after_run {A} h r (run : outcome A * world) :
  h = reply_after r run -> after h = after run.
Proof. intros ->. reflexivity. Qed.

(** ** The keys of the sweep *)

Lemma glob_star s : glob "*" s = true.
Proof.
  induction s as [|c s IH]; [reflexivity|].
  cbn in IH |- *. rewrite IH. reflexivity.
Qed.

(** [books:*] matches the collection key and every item key. *)
Lemma glob_books rest : glob "books:*" ("books:" +:+ rest) = true.
Proof. exact (glob_star rest). Qed.

Lemma glob_item_key id : glob "books:*" (item_key id) = true.
Proof. apply glob_books. Qed.

Lemma matching_keys_In pattern (c : gmap string entry) k :
  In k (matching_keys pattern c) <-> glob pattern k = true /\ is_Some (c !! k).
Proof.
  unfold matching_keys. rewrite List.filter_In, List.in_map_iff. split.
  - intros [((k' & e) & Hk & Hin) Hg]. cbn in Hk. subst k'. split; [exact Hg|].
    apply list_elem_of_In, elem_of_map_to_list in Hin. exists e. exact Hin.
  - intros [Hg [e He]]. split; [|exact Hg]. exists (k, e). split; [reflexivity|].
    apply list_elem_of_In, elem_of_map_to_list. exact He.
Qed.

Lemma lookup_foldr_delete_In (c : gmap string entry) ks k :
  In k ks -> foldr delete c ks !! k = None.
Proof.
  induction ks as [|k' ks IH]; cbn [foldr]; [intros []|].
  intros [->|Hin]; [apply lookup_delete_eq|].
  destruct (decide (k' = k)) as [->|Hne]; [apply lookup_delete_eq|].
  rewrite lookup_delete_ne by exact Hne. apply IH, Hin.
Qed.

Lemma lookup_foldr_delete_not_In (c : gmap string entry) ks k :
  ~ In k ks -> foldr delete c ks !! k = c !! k.
Proof.
  induction ks as [|k' ks IH]; cbn [foldr]; [reflexivity|].
  intros Hnot. cbn [In] in Hnot.
  rewrite lookup_delete_ne by (intros ->; tauto). apply IH. tauto.
Qed.

(** After [DEL] of the keys [KEYS pattern] reported, no key matching the
    pattern is left and every other key is as before. *)
Lemma swept_lookup pattern (c : gmap string entry) k :
  foldr delete c (matching_keys pattern c) !! k =
    if glob pattern k then None else c !! k.
Proof.
  destruct (glob pattern k) eqn:Hg.
  - destruct (c !! k) as [e|] eqn:Hk.
    + apply lookup_foldr_delete_In, matching_keys_In. split; [exact Hg|]. eauto.
    + rewrite lookup_foldr_delete_not_In; [exact Hk|].
      rewrite matching_keys_In. intros [_ [e He]]. congruence.
  - apply lookup_foldr_delete_not_In. rewrite matching_keys_In.
    intros [Hg' _]. congruence.
Qed.


(** ** Reading the collection after a mutation *)

Lemma snoc_neq {A} (l : list A) (x : A) : l ++ [x] <> l.
Proof.
  intros H. apply (f_equal (@length A)) in H.
  rewrite List.length_app in H. cbn in H. lia.
Qed.

Lemma cache_miss_closed key w : isOpen w = false -> cache_miss key w.
Proof.
  intros H. unfold cache_miss, cache_lookup. rewrite getFromCache_eq, H.
  reflexivity.
Qed.

Lemma cache_miss_absent key w : cache w !! key = None -> cache_miss key w.
Proof.
  intros H. unfold cache_miss, cache_lookup. rewrite getFromCache_eq, H.
  destruct (negb (isOpen w)), (cache_fault w (cache_cmds w)),
    (cache_stall w (cache_cmds w)); reflexivity.
Qed.

Lemma cache_miss_fault key w :
  cache_fault w (cache_cmds w) = true -> cache_miss key w.
Proof.
  intros H. unfold cache_miss, cache_lookup. rewrite getFromCache_eq, H.
  destruct (negb (isOpen w)), (cache_stall w (cache_cmds w)); reflexivity.
Qed.

(** An invalidation that settles and records no error leaves the collection
    key unreadable: either the client is closed, or the key is gone. *)
Lemma invalidateCache_quiet pattern w :
  pending (invalidateCache pattern w) = false ->
  console (after (invalidateCache pattern w)) = console w ->
  cache_miss "books:all" (after (invalidateCache pattern w)).
Proof.
  unfold after, pending. rewrite invalidateCache_eq. cbv zeta.
  destruct (isOpen w) eqn:Hopen; cbn [negb snd].
  2:{ intros _ _. apply cache_miss_closed, Hopen. }
  destruct (cache_fault w (cache_cmds w)).
  { destruct (cache_stall w (cache_cmds w)); [discriminate|].
    cbn. intros _ H. destruct (snoc_neq _ _ H). }
  destruct (0 <? length (matching_keys pattern (cache w)))%nat;
    (destruct (cache_fault w (S (cache_cmds w)));
     [destruct (cache_stall w (S (cache_cmds w))); [discriminate|];
      cbn; intros _ H; destruct (snoc_neq _ _ H)|]).
  - destruct (cache_fault w (S (S (cache_cmds w)))).
    { destruct (cache_stall w (S (S (cache_cmds w)))); [discriminate|].
      cbn. intros _ H. destruct (snoc_neq _ _ H). }
    intros _ _. apply cache_miss_absent. cbn. apply lookup_delete_eq.
  - intros _ _. apply cache_miss_absent. cbn. apply lookup_delete_eq.
Qed.


(** A mutation request leaves the cache client and its oracle alone. *)
Lemma mutation_same_client m w : same_client w (after (handle_mutation m w)).
Proof.
  destruct (mutation_effect m w)
    as (r & _ & [(_ & _ & _ & _ & _ & _ & _ & Hc)|(_ & w1 & Ha & E)]);
    [exact Hc|].
  rewrite (after_reply_after_run _ _ _ E). destruct Ha as ((Hc & _) & _).
  eapply same_client_trans; [exact Hc|].
  destruct (invalidateCache_run "books:*" w1) as (o & w' & E' & _ & _ & Hc').
  unfold after. rewrite E'. exact Hc'.
Qed.



(** On the sample: the cached snapshot lists books 1 and 2; once book 1 is
    deleted, the next read is answered from the store with books 2 and 3. *)
Example DELETE_then_GET_books_seeded :
  sweep_rejected seeded_cached = false
  /\ reply (GET_books (after (DELETE_book 1 seeded_cached))) =
       Some (Response 200 (rows_json [clean_code; design_patterns])).
Proof. vm_compute. split; reflexivity. Qed.

(** The same when only the final [DEL] of the collection key is rejected:
    the error is recorded, the sweep has removed the key all the same, and
    the next read is answered from the store. *)
Example DELETE_then_GET_books_final_DEL_rejected :
  sweep_rejected final_DEL_fails = false
  /\ reply (DELETE_book 1 final_DEL_fails) =
       Some (Response 200 (JObj [("message", JStr "Book deleted successfully")]))
  /\ console (after (DELETE_book 1 final_DEL_fails)) = ["Cache invalidate error:"]
  /\ cache (after (DELETE_book 1 final_DEL_fails)) = ∅
  /\ reply (GET_books (after (DELETE_book 1 final_DEL_fails))) =
       Some (Response 200 (rows_json [clean_code; design_patterns])).
Proof. vm_compute. repeat split. Qed.


(** ** GET /api/books/:id on a cache miss *)





(** On the sample: a missing identifier is answered 404 and the cache stays
    empty; an existing one is answered with its row, which is then found
    under its item key. *)
Example GET_book_seeded :
  reply (GET_book 9 seeded) = Some (error_response 404 "Book not found")
  /\ cache (after (GET_book 9 seeded)) = ∅
  /\ cache (after (GET_book 2 seeded)) !! "books:2"
     = Some (Entry (JsonText (book_json clean_code)) 300).
Proof. repeat split; vm_compute; reflexivity. Qed.

(** ** Cache failures *)

(** The run of GET /api/books/:id once the lookup has returned a falsy
    value: the point lookup, then the populate, then the reply. *)
Lemma GET_book_miss_run id w v w1 :
  getFromCache (item_key id) w = (Ok v, w1) ->
  truthy v = false ->
  GET_book id w =
    if store_fault w1 (store_stmts w1)
    then (Ok (error_response 500 "Failed to fetch book"),
          recorded "Error fetching book:" (one_statement w1))
    else match List.filter (has_id id) (books w1) with
         | [] => (Ok (error_response 404 "Book not found"), one_statement w1)
         | row :: _ =>
             reply_after (Response 200 (book_json row))
               (setToCache (item_key id) (book_json row) (one_statement w1))
         end.
Proof.
  intros E Hv. unfold GET_book, try_catch, bind. cbv zeta. rewrite E, Hv.
  rewrite sql_select_by_id_eq.
  destruct (store_fault w1 (store_stmts w1)); [reflexivity|].
  destruct (List.filter (has_id id) (books w1)) as [|row rest]; [reflexivity|].
  destruct (setToCache_run (item_key id) (book_json row) (one_statement w1))
    as (o & w2 & E2 & Hne & _).
  rewrite E2. unfold reply_after, pending. cbn [fst snd].
  destruct o as [[]|e|]; [reflexivity|destruct (Hne e eq_refl)|reflexivity].
Qed.

Lemma GET_book_pending id w :
  pending (getFromCache (item_key id) w) = true ->
  GET_book id w = (Pending, after (getFromCache (item_key id) w)).
Proof.
  unfold pending, after, GET_book, try_catch, bind. cbv zeta.
  destruct (getFromCache (item_key id) w) as [[v|e|] w1]; cbn [fst snd];
    try discriminate. reflexivity.
Qed.

(** The reply of GET /api/books/:id on a miss, if there is one. *)
Lemma GET_book_miss_replied id w r :
  cache_miss (item_key id) w ->
  reply (GET_book id w) = Some r ->
  r = if store_fault w (store_stmts w)
      then error_response 500 "Failed to fetch book"
      else match List.filter (has_id id) (books w) with
           | [] => error_response 404 "Book not found"
           | row :: _ => Response 200 (book_json row)
           end.
Proof.
  unfold cache_miss, cache_lookup. intros Hmiss Hr.
  destruct (getFromCache_run (item_key id) w)
    as (o & w1 & E & Hne & (Hb & _ & _ & Hf & Hn & _) & _).
  rewrite E in Hmiss. cbn [fst] in Hmiss.
  destruct o as [v|e|]; [|destruct (Hne e eq_refl)|].
  - rewrite (GET_book_miss_run id w v w1 E Hmiss), Hf, Hn, Hb in Hr.
    destruct (store_fault w (store_stmts w)).
    + injection Hr as <-. reflexivity.
    + destruct (List.filter (has_id id) (books w)) as [|row rest].
      * injection Hr as <-. reflexivity.
      * rewrite reply_reply_after in Hr.
        destruct (pending _); [discriminate Hr|]. injection Hr as <-. reflexivity.
  - rewrite GET_book_pending in Hr by (unfold pending; rewrite E; reflexivity).
    discriminate Hr.
Qed.

Lemma GET_book_store_error id w :
  responsive w ->
  cache_miss (item_key id) w ->
  store_fault w (store_stmts w) = true ->
  reply (GET_book id w) = Some (error_response 500 "Failed to fetch book")
  /\ cache (after (GET_book id w)) = cache w.
Proof.
  unfold cache_miss, cache_lookup. intros Hresp Hmiss Hf.
  destruct (getFromCache_frame (item_key id) w Hresp)
    as (v & w1 & E & (_ & _ & _ & Hsf & Hsn & _) & _ & Hc).
  rewrite E in Hmiss. cbn [fst] in Hmiss.
  rewrite (GET_book_miss_run id w v w1 E Hmiss), Hsf, Hsn, Hf.
  split; [reflexivity|exact Hc].
Qed.

(** The reply of GET /api/books/:id on a miss, when the lookup succeeds and
    no command is left pending. *)
Lemma GET_book_miss_reply id w :
  responsive w ->
  cache_miss (item_key id) w ->
  store_fault w (store_stmts w) = false ->
  reply (GET_book id w) =
    Some (match List.filter (has_id id) (books w) with
          | [] => error_response 404 "Book not found"
          | row :: _ => Response 200 (book_json row)
          end).
Proof.
  unfold cache_miss, cache_lookup. intros Hresp Hmiss Hf.
  destruct (getFromCache_frame (item_key id) w Hresp)
    as (v & w1 & E & (Hb & _ & _ & Hsf & Hsn & _) & Hcl & _).
  rewrite E in Hmiss. cbn [fst] in Hmiss.
  rewrite (GET_book_miss_run id w v w1 E Hmiss), Hsf, Hsn, Hf, Hb.
  destruct (List.filter (has_id id) (books w)) as [|row rest]; [reflexivity|].
  destruct (setToCache_frame (item_key id) (book_json row) (one_statement w1))
    as (w2 & E2 & _).
  { apply (responsive_same_client w); [exact Hcl|exact Hresp]. }
  rewrite E2. reflexivity.
Qed.

(** With a closed client the three helpers do nothing. *)
Lemma closed_helpers w :
  isOpen w = false ->
  (forall key, getFromCache key w = (Ok JNull, w))
  /\ (forall key data, setToCache key data w = (Ok tt, w))
  /\ (forall pattern, invalidateCache pattern w = (Ok tt, w)).
Proof.
  intros H. repeat split; intros.
  - rewrite getFromCache_eq, H. reflexivity.
  - rewrite setToCache_eq, H. reflexivity.
  - rewrite invalidateCache_eq, H. reflexivity.
Qed.

(** The degraded mode there is: when the client is not open (its
    [connect()] was rejected at start-up), all five operations are answered
    from the store alone. *)
Lemma closed_client_serves_from_store w :
  isOpen w = false ->
  store_fault w (store_stmts w) = false ->
  degraded_mode_serves w.
Proof.
  intros Hclosed Hf. destruct (closed_helpers w Hclosed) as (Hget & _ & _).
  assert (Hset : forall w', isOpen w' = isOpen w ->
                   forall key data, setToCache key data w' = (Ok tt, w')).
  { intros w' Hw' key data. apply closed_helpers. rewrite Hw'. exact Hclosed. }
  assert (Hinv : forall w', isOpen w' = isOpen w ->
                   forall pattern, invalidateCache pattern w' = (Ok tt, w')).
  { intros w' Hw' pattern. apply closed_helpers. rewrite Hw'. exact Hclosed. }
  unfold degraded_mode_serves. split; [|split; [|split; [|split]]].
  - rewrite (GET_books_miss_run w JNull w (Hget _) eq_refl), Hf.
    rewrite Hset by reflexivity. split; reflexivity.
  - intros id row rest Hm.
    rewrite (GET_book_miss_run id w JNull w (Hget _) eq_refl), Hf, Hm.
    rewrite Hset by reflexivity. split; reflexivity.
  - intros b t a i Ht Ha Hi Ht0 Ha0 Hi0 Hd.
    rewrite (POST_books_created b w t a i) by assumption.
    rewrite Hinv by reflexivity. repeat split.
  - intros id b t a i row rest Ht Ha Hi Hm Hd.
    rewrite (PUT_book_updated id b w t a i row rest) by assumption.
    rewrite Hinv by reflexivity. repeat split.
  - intros id row rest Hm.
    rewrite (DELETE_book_deleted id w row rest) by assumption.
    rewrite Hinv by reflexivity. repeat split.
Qed.

(** A helper called while the server is out of reach never returns. *)
Lemma out_of_reach_helpers w :
  isOpen w = true ->
  cache_fault w (cache_cmds w) = true ->
  cache_stall w (cache_cmds w) = true ->
  (forall key, getFromCache key w = (Pending, one_command w))
  /\ (forall key data, setToCache key data w = (Pending, one_command w))
  /\ (forall pattern, invalidateCache pattern w = (Pending, one_command w)).
Proof.
  intros Ho Hf Hs. repeat split; intros.
  - rewrite getFromCache_eq, Ho, Hf, Hs. reflexivity.
  - rewrite setToCache_eq, Ho, Hf, Hs. reflexivity.
  - rewrite invalidateCache_eq, Ho, Hf, Hs. reflexivity.
Qed.

(** C7 (what the code does when the cache cannot be reached).  The helpers
    check [isOpen] and then await the command, without a timeout.  When the
    server behind an open client is out of reach, the client keeps the
    command in its queue and the awaited promise never settles: there is no
    error to swallow and no fallback to the store.  Then, even with the
    store executing every statement, none of the five operations is
    answered: a read hangs in its lookup before it queries the store, and a
    write is applied to the table and hangs in its invalidation, so that the
    change is made but never acknowledged. *)
Theorem unreachable_cache_blocks_requests (w : world) :
  out_of_reach w ->
  store_fault w (store_stmts w) = false ->
  requests_hang w.
Proof.
  intros [Hopen Hall] Hf.
  destruct (Hall (cache_cmds w)) as [Hfault Hstall].
  destruct (out_of_reach_helpers w Hopen Hfault Hstall) as (Hget & _ & _).
  assert (Hinv : forall w', isOpen w' = isOpen w ->
                   cache_fault w' = cache_fault w -> cache_stall w' = cache_stall w ->
                   cache_cmds w' = cache_cmds w ->
                   invalidateCache "books:*" w' = (Pending, one_command w')).
  { intros w' Ho Hcf Hcs Hn. apply out_of_reach_helpers.
    - rewrite Ho. exact Hopen.
    - rewrite Hcf, Hn. exact Hfault.
    - rewrite Hcs, Hn. exact Hstall. }
  unfold requests_hang. split; [|split; [|split; [|split]]].
  - rewrite GET_books_pending; unfold pending, after; rewrite Hget; reflexivity.
  - intros id.
    rewrite GET_book_pending; unfold pending, after; rewrite Hget; reflexivity.
  - intros b t a i Ht Ha Hi Ht0 Ha0 Hi0 Hd.
    rewrite (POST_books_created b w t a i) by assumption.
    rewrite Hinv by reflexivity. repeat split.
  - intros id b t a i row rest Ht Ha Hi Hm Hd.
    rewrite (PUT_book_updated id b w t a i row rest) by assumption.
    rewrite Hinv by reflexivity. repeat split.
  - intros id row rest Hm.
    rewrite (DELETE_book_deleted id w row rest) by assumption.
    rewrite Hinv by reflexivity. repeat split.
Qed.

(** On the seeded table, with the server out of reach. *)
Lemma unreachable_cache_blocks_requests_witness : requests_hang cache_out_of_reach.
Proof.
  apply (unreachable_cache_blocks_requests cache_out_of_reach).
  - split; [reflexivity|]. intros n. split; reflexivity.
  - reflexivity.
Defined.

(** The same requests on the three kinds of unavailable cache.  With the
    server out of reach, GET /api/books gets no reply and DELETE
    /api/books/1 removes the row and gets no reply.  With a client that
    never connected, and with a server that rejects every command, both are
    answered from the store. *)
Example requests_on_an_unavailable_cache :
  reply (GET_books cache_out_of_reach) = None
  /\ reply (DELETE_book 1 cache_out_of_reach) = None
  /\ books (after (DELETE_book 1 cache_out_of_reach)) = [clean_code; design_patterns]
  /\ reply (GET_books cache_disabled) =
       Some (Response 200
               (rows_json [pragmatic_programmer; clean_code; design_patterns]))
  /\ (status <$> reply (DELETE_book 1 cache_disabled)) = Some 200
  /\ reply (GET_books cache_down) =
       Some (Response 200
               (rows_json [pragmatic_programmer; clean_code; design_patterns]))
  /\ (status <$> reply (DELETE_book 1 cache_down)) = Some 200.
Proof. vm_compute. repeat split. Qed.

(** The scenario of the specification with a cache that rejects every
    command: create, read, update, read all, delete, read.  Every rejection
    is recorded and swallowed. *)
Example scenario_cache_down :
  let w1 := after (POST_books refactoring cache_down) in
  let w2 := after (GET_book 4 w1) in
  let restocked :=
    Body (Given "Refactoring") (Given "Martin Fowler") (Given "978-0134757599")
         (Given 4500) (Given 5) in
  let w3 := after (PUT_book 4 restocked w2) in
  let w4 := after (GET_books w3) in
  let w5 := after (DELETE_book 4 w4) in
  (status <$> reply (POST_books refactoring cache_down)) = Some 201
  /\ (status <$> reply (GET_book 4 w1)) = Some 200
  /\ (status <$> reply (PUT_book 4 restocked w2)) = Some 200
  /\ reply (GET_books w3) =
       Some (Response 200
               (rows_json [Book 4 "Refactoring" "Martin Fowler" "978-0134757599"
                                (Some 4500) (Some 5) 2000 2000;
                           pragmatic_programmer; clean_code; design_patterns]))
  /\ (status <$> reply (DELETE_book 4 w4)) = Some 200
  /\ (status <$> reply (GET_book 4 w5)) = Some 404
  /\ console w5 = ["Cache invalidate error:"; "Cache get error:"; "Cache set error:";
                   "Cache invalidate error:"; "Cache get error:"; "Cache set error:";
                   "Cache invalidate error:"].
Proof. vm_compute. repeat split. Qed.

(** ** What a successful sweep removes *)

(** An invalidation none of whose commands fails removes the collection key
    and every key matching the pattern, keeps every other key, and records
    nothing. *)
Lemma invalidateCache_sweeps pattern w k :
  isOpen w = true ->
  (forall n, (cache_cmds w <= n < cache_cmds w + 3)%nat -> cache_fault w n = false) ->
  cache (after (invalidateCache pattern w)) !! k =
    (if glob pattern k || String.eqb k "books:all" then None else cache w !! k)
  /\ console (after (invalidateCache pattern w)) = console w.
Proof.
  intros Hopen Hok. unfold after. rewrite invalidateCache_eq, Hopen. cbv zeta.
  rewrite !Hok by lia. cbn [negb].
  destruct (String.eqb_spec k "books:all") as [->|Hne];
    destruct (0 <? length (matching_keys pattern (cache w)))%nat eqn:Hlen;
    cbn [snd cache with_cache console one_command with_cache_cmds];
    rewrite ?orb_true_r, ?orb_false_r, ?lookup_delete_eq; try (split; reflexivity).
  - rewrite lookup_delete_ne by congruence. rewrite swept_lookup.
    split; reflexivity.
  - rewrite lookup_delete_ne by congruence. split; [|reflexivity].
    apply Nat.ltb_ge in Hlen.
    destruct (matching_keys pattern (cache w)) as [|k0 ks] eqn:Hkeys;
      [|cbn in Hlen; lia].
    rewrite <- (swept_lookup pattern (cache w) k), Hkeys. reflexivity.
Qed.

(** On the sample: with the collection and one item cached, a rejected PUT
    leaves both keys in place and a successful DELETE leaves the cache
    empty. *)
Example PUT_book_sweeps_cache :
  let w1 := after (GET_book 2 (after (GET_books seeded))) in
  map fst (map_to_list (cache w1)) = ["books:all"; "books:2"]
  /\ cache (after (PUT_book 2 clean_code_wrong_isbn w1)) = cache w1
  /\ cache (after (DELETE_book 2 w1)) = ∅.
Proof. vm_compute. repeat split. Qed.

(** On the sample: the first GET /api/books is a miss and replies with an
    array; it populates the collection key, and the second replies with an
    object. *)
Example GET_books_twice :
  reply (GET_books seeded) =
    Some (Response 200
            (JArr [book_json pragmatic_programmer; book_json clean_code;
                   book_json design_patterns]))
  /\ reply (GET_books (after (GET_books seeded))) =
       Some (Response 200
               (JObj [("0", book_json pragmatic_programmer);
                      ("1", book_json clean_code);
                      ("2", book_json design_patterns);
                      ("fromCache", JBool true)])).
Proof. split; vm_compute; reflexivity. Qed.

(** The scenario of the specification on an empty store with a healthy
    cache: create, read, update, read all, delete, read.  The collection read
    after the update is a miss and shows the new stock. *)
Example scenario_healthy_cache :
  let empty_store :=
    World [] 1 2000 scan_order ci_pad_space never 0 (Some true) ∅ never never 0 [] in
  let book_A := Body (Given "A") (Given "B") (Given "111") Absent Absent in
  let book_A5 := Body (Given "A") (Given "B") (Given "111") (Given 0) (Given 5) in
  let w1 := after (POST_books book_A empty_store) in
  let w2 := after (GET_book 1 w1) in
  let w3 := after (PUT_book 1 book_A5 w2) in
  let w4 := after (GET_books w3) in
  let w5 := after (DELETE_book 1 w4) in
  reply (POST_books book_A empty_store) =
    Some (Response 201
            (JObj [("id", JNum 1); ("title", JStr "A"); ("author", JStr "B");
                   ("isbn", JStr "111");
                   ("message", JStr "Book created successfully")]))
  /\ reply (GET_book 1 w1) =
       Some (Response 200 (book_json (Book 1 "A" "B" "111" (Some 0) (Some 0) 2000 2000)))
  /\ (status <$> reply (PUT_book 1 book_A5 w2)) = Some 200
  /\ reply (GET_books w3) =
       Some (Response 200 (rows_json [Book 1 "A" "B" "111" (Some 0) (Some 5) 2000 2000]))
  /\ (status <$> reply (DELETE_book 1 w4)) = Some 200
  /\ reply (GET_book 1 w5) = Some (error_response 404 "Book not found")
  /\ console w5 = [].
Proof. vm_compute. repeat split. Qed.

(** * Further properties of the routes *)

(** ** What a request does to the world *)

(** What GET /api/books does to the world: table and counter stay, and the
    cache either stays or gains the snapshot of the scan under the collection
    key. *)
Lemma GET_books_effect w :
  books (after (GET_books w)) = books w
  /\ next_id (after (GET_books w)) = next_id w
  /\ same_client w (after (GET_books w))
  /\ (cache (after (GET_books w)) = cache w
      \/ (isOpen w = true
          /\ cache (after (GET_books w))
             = <["books:all" :=
                   Entry (JsonText (rows_json (order_by_created_at_desc (tie_break w) (books w))))
                         CACHE_TTL]> (cache w))).
Proof.
  destruct (getFromCache_run "books:all" w)
    as (o & w1 & E & Hne & (Hb & Hn & _ & Hsf & Hsn & Ht & _) & Hcl & Hc).
  pose proof (same_client_isOpen _ _ Hcl) as Hopen.
  destruct o as [v|e|]; [|destruct (Hne e eq_refl)|].
  2:{ rewrite GET_books_pending by (unfold pending; rewrite E; reflexivity).
      unfold after. rewrite E. cbn [snd]. auto. }
  destruct (truthy v) eqn:Hv.
  { unfold after, GET_books, try_catch, bind. rewrite E, Hv. cbn [snd]. auto. }
  rewrite (GET_books_miss_run w v w1 E Hv).
  destruct (store_fault w1 (store_stmts w1)).
  { unfold after. cbn. destruct Hcl as (? & ? & ?). repeat split; auto. }
  rewrite after_reply_after. unfold after. rewrite setToCache_eq.
  change (isOpen (one_statement w1)) with (isOpen w1).
  change (cache_fault (one_statement w1)) with (cache_fault w1).
  change (cache_stall (one_statement w1)) with (cache_stall w1).
  change (cache_cmds (one_statement w1)) with (cache_cmds w1).
  rewrite Hopen.
  destruct (isOpen w); cbn [negb];
    [destruct (cache_fault w1 (cache_cmds w1));
     [destruct (cache_stall w1 (cache_cmds w1))|]|]; cbn;
    destruct Hcl as (? & ? & ?); rewrite ?Hb, ?Hc, ?Ht; repeat split; auto.
Qed.

(** What GET /api/books/:id does to the world: table and counter stay, and
    the cache either stays or gains the first row with that identifier under
    its item key. *)
Lemma GET_book_effect id w :
  books (after (GET_book id w)) = books w
  /\ next_id (after (GET_book id w)) = next_id w
  /\ same_client w (after (GET_book id w))
  /\ (cache (after (GET_book id w)) = cache w
      \/ (isOpen w = true
          /\ exists row rest,
               List.filter (has_id id) (books w) = row :: rest
               /\ cache (after (GET_book id w))
                  = <[item_key id := Entry (JsonText (book_json row)) CACHE_TTL]>
                      (cache w))).
Proof.
  destruct (getFromCache_run (item_key id) w)
    as (o & w1 & E & Hne & (Hb & Hn & _ & Hsf & Hsn & _) & Hcl & Hc).
  pose proof (same_client_isOpen _ _ Hcl) as Hopen.
  destruct o as [v|e|]; [|destruct (Hne e eq_refl)|].
  2:{ rewrite GET_book_pending by (unfold pending; rewrite E; reflexivity).
      unfold after. rewrite E. cbn [snd]. auto. }
  destruct (truthy v) eqn:Hv.
  { unfold after, GET_book, try_catch, bind. cbv zeta. rewrite E, Hv.
    cbn [snd]. auto. }
  rewrite (GET_book_miss_run id w v w1 E Hv).
  destruct (store_fault w1 (store_stmts w1)).
  { unfold after. cbn. destruct Hcl as (? & ? & ?). repeat split; auto. }
  rewrite Hb.
  destruct (List.filter (has_id id) (books w)) as [|row rest] eqn:Hm.
  { unfold after. cbn. destruct Hcl as (? & ? & ?). repeat split; auto. }
  rewrite after_reply_after. unfold after. rewrite setToCache_eq.
  change (isOpen (one_statement w1)) with (isOpen w1).
  change (cache_fault (one_statement w1)) with (cache_fault w1).
  change (cache_stall (one_statement w1)) with (cache_stall w1).
  change (cache_cmds (one_statement w1)) with (cache_cmds w1).
  rewrite Hopen.
  destruct (isOpen w); cbn [negb];
    [destruct (cache_fault w1 (cache_cmds w1));
     [destruct (cache_stall w1 (cache_cmds w1))|]|]; cbn;
    destruct Hcl as (? & ? & ?); rewrite ?Hc; repeat split; auto.
  right. split; [reflexivity|]. exists row, rest. auto.
Qed.

Lemma invalidateCache_same_client pattern w :
  same_client w (after (invalidateCache pattern w)).
Proof.
  destruct (invalidateCache_run pattern w) as (o & w' & E & _ & _ & Hc).
  unfold after. rewrite E. exact Hc.
Qed.

Lemma invalidateCache_next_id pattern w :
  next_id (after (invalidateCache pattern w)) = next_id w.
Proof.
  destruct (invalidateCache_run pattern w) as (o & w' & E & _ & (_ & Hn & _) & _).
  unfold after. rewrite E. exact Hn.
Qed.

Lemma invalidateCache_same_store pattern w :
  same_store w (after (invalidateCache pattern w)).
Proof.
  destruct (invalidateCache_run pattern w) as (o & w' & E & _ & Hs & _).
  unfold after. rewrite E. exact Hs.
Qed.

(** No request changes the cache client or the oracle of the cache. *)
Lemma serve_same_client q w : same_client w (after (serve q w)).
Proof.
  destruct q as [|id|m]; cbn [serve].
  - apply GET_books_effect.
  - apply GET_book_effect.
  - apply mutation_same_client.
Qed.

(** No request changes the engine of the store. *)
Lemma serve_same_engine q w :
  tie_break (after (serve q w)) = tie_break w
  /\ collation (after (serve q w)) = collation w.
Proof.
  destruct q as [|id|m]; cbn [serve].
  - destruct (getFromCache_run "books:all" w)
      as (o & w1 & E & Hne & (_ & _ & _ & _ & _ & Ht & Hco) & _).
    destruct o as [v|e|]; [|destruct (Hne e eq_refl)|].
    2:{ rewrite GET_books_pending by (unfold pending; rewrite E; reflexivity).
        unfold after. rewrite E. cbn [snd]. auto. }
    destruct (truthy v) eqn:Hv.
    { unfold after, GET_books, try_catch, bind. rewrite E, Hv. cbn [snd]. auto. }
    rewrite (GET_books_miss_run w v w1 E Hv).
    destruct (store_fault w1 (store_stmts w1)); [unfold after; cbn; auto|].
    rewrite after_reply_after.
    destruct (setToCache_run "books:all"
                (rows_json (order_by_created_at_desc (tie_break w1) (books w1)))
                (one_statement w1))
      as (o2 & w2 & E2 & _ & (_ & _ & _ & _ & _ & Ht2 & Hco2) & _).
    unfold after. rewrite E2. cbn [snd]. rewrite Ht2, Hco2. cbn. auto.
  - destruct (getFromCache_run (item_key id) w)
      as (o & w1 & E & Hne & (_ & _ & _ & _ & _ & Ht & Hco) & _).
    destruct o as [v|e|]; [|destruct (Hne e eq_refl)|].
    2:{ rewrite GET_book_pending by (unfold pending; rewrite E; reflexivity).
        unfold after. rewrite E. cbn [snd]. auto. }
    destruct (truthy v) eqn:Hv.
    { unfold after, GET_book, try_catch, bind. cbv zeta. rewrite E, Hv.
      cbn [snd]. auto. }
    rewrite (GET_book_miss_run id w v w1 E Hv).
    destruct (store_fault w1 (store_stmts w1)); [unfold after; cbn; auto|].
    destruct (List.filter (has_id id) (books w1)) as [|row rest];
      [unfold after; cbn; auto|].
    rewrite after_reply_after.
    destruct (setToCache_run (item_key id) (book_json row) (one_statement w1))
      as (o2 & w2 & E2 & _ & (_ & _ & _ & _ & _ & Ht2 & Hco2) & _).
    unfold after. rewrite E2. cbn [snd]. rewrite Ht2, Hco2. cbn. auto.
  - destruct (mutation_effect m w) as (r & _ & [Hrej|(_ & w1 & Ha & E)]).
    + destruct Hrej as (_ & Hr & _).
      destruct m as [b|id b|id]; cbn [handle_mutation] in *.
      * destruct (missing_required b) eqn:Hm;
          [rewrite POST_books_invalid by assumption; auto|].
        apply missing_required_false in Hm
            as (t & a & i & Ht & Ha & Hi & Ht0 & Ha0 & Hi0).
        destruct (store_fault w (store_stmts w)) eqn:Hf;
          [rewrite (POST_books_store_error b w t a i) by assumption; auto|].
        destruct (existsb (has_isbn (collation w) i) (books w)) eqn:Hd;
          [rewrite (POST_books_duplicate b w t a i) by assumption; auto|].
        rewrite (POST_books_created b w t a i), after_reply_after by assumption.
        destruct (invalidateCache_same_store "books:*"
                    (inserted (created_row t a i b w) w))
          as (_ & _ & _ & _ & _ & -> & ->). auto.
      * destruct (PUT_book_cases id b w)
          as [(r' & w' & E & Hs)|(t & a & i & _ & _ & _ & E)].
        -- clear Hs.
           destruct (store_fault w (store_stmts w)) eqn:Hf;
             [rewrite PUT_book_store_error by assumption; auto|].
           destruct (List.filter (has_id id) (books w)) as [|row rest] eqn:Hm;
             [rewrite PUT_book_absent by assumption; auto|].
           destruct (sql_param (title b)) as [t|] eqn:Ht;
             [|rewrite (PUT_book_null_column id b w row rest) by auto; auto].
           destruct (sql_param (author b)) as [a|] eqn:Ha;
             [|rewrite (PUT_book_null_column id b w row rest) by auto; auto].
           destruct (sql_param (isbn b)) as [i|] eqn:Hi;
             [|rewrite (PUT_book_null_column id b w row rest) by auto; auto].
           assert (Ht' : title b = Given t)
             by (destruct (title b); inversion Ht; reflexivity).
           assert (Ha' : author b = Given a)
             by (destruct (author b); inversion Ha; reflexivity).
           assert (Hi' : isbn b = Given i)
             by (destruct (isbn b); inversion Hi; reflexivity).
           destruct (isbn_taken_elsewhere id i w) eqn:Hd;
             [rewrite (PUT_book_duplicate id b w t a i row rest) by assumption;
              auto|].
           rewrite (PUT_book_updated id b w t a i row rest), after_reply_after
             by assumption.
           destruct (invalidateCache_same_store "books:*" (updated id t a i b w))
             as (_ & _ & _ & _ & _ & -> & ->). auto.
        -- rewrite E, after_reply_after.
           destruct (invalidateCache_same_store "books:*" (updated id t a i b w))
             as (_ & _ & _ & _ & _ & -> & ->). auto.
      * destruct (store_fault w (store_stmts w)) eqn:Hf;
          [rewrite DELETE_book_store_error by assumption; auto|].
        destruct (List.filter (has_id id) (books w)) as [|row rest] eqn:Hm.
        { destruct (DELETE_book_absent id w Hf Hm) as [E _]. rewrite E. auto. }
        rewrite (DELETE_book_deleted id w row rest), after_reply_after
          by assumption.
        destruct (invalidateCache_same_store "books:*" (deleted id w))
          as (_ & _ & _ & _ & _ & -> & ->). auto.
    + rewrite (after_reply_after_run _ _ _ E).
      destruct (invalidateCache_same_store "books:*" w1)
        as (_ & _ & _ & _ & _ & -> & ->).
      destruct Ha as (_ & (_ & Ht & Hco) & _). auto.
Qed.

(** ** The keys of the table *)

Lemma NoDup_snoc {A} (l : list A) (x : A) :
  NoDup l -> ~ In x l -> NoDup (l ++ [x]).
Proof.
  intros Hl Hx. apply NoDup_app. split; [exact Hl|].
  split; [|apply NoDup_singleton].
  intros y Hy Hin. apply list_elem_of_In in Hin. cbn [In] in Hin.
  destruct Hin as [<-|[]]. apply Hx, list_elem_of_In, Hy.
Qed.

(** An ISBN the index does not hold is not the ISBN of any row, whatever
    the collation. *)
Lemma fresh_isbn weight i l :
  existsb (has_isbn weight i) l = false -> ~ In i (map row_isbn l).
Proof.
  intros He Hin. apply List.in_map_iff in Hin as (b & Hb & Hin).
  assert (existsb (has_isbn weight i) l = true); [|congruence].
  apply List.existsb_exists. exists b. split; [exact Hin|].
  unfold has_isbn. rewrite Hb. apply String.eqb_refl.
Qed.

Lemma fresh_id n l :
  Forall (fun b => row_id b < n) l -> ~ In n (map row_id l).
Proof.
  intros Hall Hin. apply List.in_map_iff in Hin as (b & Hb & Hin).
  rewrite List.Forall_forall in Hall. specialize (Hall b Hin). lia.
Qed.

Lemma replace_row_id id t a i p s t_now b :
  row_id (replace_row id t a i p s t_now b) = row_id b.
Proof. unfold replace_row. destruct (has_id id b); reflexivity. Qed.

Lemma replace_row_ids id t a i p s t_now l :
  map row_id (map (replace_row id t a i p s t_now) l) = map row_id l.
Proof.
  induction l as [|b l IH]; cbn [map]; [reflexivity|].
  rewrite replace_row_id, IH. reflexivity.
Qed.

Lemma replace_row_isbn id t a i p s t_now b :
  row_isbn (replace_row id t a i p s t_now b) = if has_id id b then i else row_isbn b.
Proof. unfold replace_row. destruct (has_id id b); reflexivity. Qed.

(** Rows that do not carry the identifier are not touched by the update. *)
Lemma replace_row_others id t a i p s t_now l :
  ~ In id (map row_id l) -> map (replace_row id t a i p s t_now) l = l.
Proof.
  induction l as [|b l IH]; cbn [map In]; intros Hn; [reflexivity|].
  rewrite IH by tauto. unfold replace_row, has_id.
  destruct (Z.eqb_spec (row_id b) id) as [E|_]; [tauto|reflexivity].
Qed.

Lemma isbn_free_elsewhere weight id i l :
  existsb (fun b => negb (has_id id b) && has_isbn weight i b) l = false ->
  forall b, In b l -> row_id b <> id -> row_isbn b <> i.
Proof.
  intros He b Hin Hid Hi.
  assert (existsb (fun b => negb (has_id id b) && has_isbn weight i b) l = true);
    [|congruence].
  apply List.existsb_exists. exists b. split; [exact Hin|].
  unfold has_id, has_isbn. rewrite Hi, String.eqb_refl.
  destruct (Z.eqb_spec (row_id b) id); [contradiction|reflexivity].
Qed.

(** An update that the store accepts keeps the ISBNs distinct. *)
Lemma replace_row_isbns id t a i p s t_now l :
  NoDup (map row_id l) ->
  NoDup (map row_isbn l) ->
  (forall b, In b l -> row_id b <> id -> row_isbn b <> i) ->
  NoDup (map row_isbn (map (replace_row id t a i p s t_now) l)).
Proof.
  induction l as [|x l IH]; cbn [map]; intros Hids Hisbns Hfree; [constructor|].
  apply NoDup_cons in Hids as [Hxid Hids'].
  apply NoDup_cons in Hisbns as [Hxisbn Hisbns'].
  rewrite list_elem_of_In in Hxid. rewrite list_elem_of_In in Hxisbn.
  assert (Hfree' : forall b, In b l -> row_id b <> id -> row_isbn b <> i)
    by (intros b Hb; apply Hfree; right; exact Hb).
  apply NoDup_cons. split; [|apply IH; assumption].
  rewrite list_elem_of_In, replace_row_isbn. unfold has_id.
  destruct (Z.eqb_spec (row_id x) id) as [E|Hne].
  - subst id. rewrite replace_row_others by exact Hxid.
    intros Hin. apply List.in_map_iff in Hin as (b & Hb & Hin).
    apply (Hfree' b Hin); [|exact Hb].
    intros E. apply Hxid. rewrite <- E. apply List.in_map. exact Hin.
  - intros Hin. apply List.in_map_iff in Hin as (b' & Hb' & Hin).
    apply List.in_map_iff in Hin as (b & Hb & Hin). subst b'.
    rewrite replace_row_isbn in Hb'. unfold has_id in Hb'.
    destruct (Z.eqb_spec (row_id b) id) as [_|_].
    + apply (Hfree x); [left; reflexivity|exact Hne|symmetry; exact Hb'].
    + apply Hxisbn. rewrite <- Hb'. apply List.in_map. exact Hin.
Qed.

Lemma NoDup_map_filter {A B} (f : A -> B) (keep : A -> bool) l :
  NoDup (map f l) -> NoDup (map f (List.filter keep l)).
Proof.
  induction l as [|x l IH]; cbn [map List.filter]; intros Hn; [constructor|].
  apply NoDup_cons in Hn as [Hx Hn']. rewrite list_elem_of_In in Hx.
  destruct (keep x); cbn [map]; [|apply IH; exact Hn'].
  apply NoDup_cons. split; [|apply IH; exact Hn'].
  rewrite list_elem_of_In. intros Hin. apply Hx. apply List.in_map_iff in Hin as (b & Hb & Hin).
  apply List.filter_In in Hin as [Hin _]. rewrite <- Hb. apply List.in_map. exact Hin.
Qed.

Lemma Forall_filter_keep {A} (P : A -> Prop) (keep : A -> bool) l :
  Forall P l -> Forall P (List.filter keep l).
Proof.
  rewrite !List.Forall_forall. intros H x Hin.
  apply List.filter_In in Hin as [Hin _]. apply H, Hin.
Qed.

(** One request keeps the keys of the table in order and never lowers the
    counter. *)
Lemma serve_store_wf q w :
  store_wf w ->
  store_wf (after (serve q w)) /\ next_id w <= next_id (after (serve q w)).
Proof.
  intros (Hids & Hisbns & Hbelow). unfold store_wf.
  destruct q as [|id|m]; cbn [serve].
  - destruct (GET_books_effect w) as (Hb & Hn & _). rewrite Hb, Hn.
    repeat split; try assumption. lia.
  - destruct (GET_book_effect id w) as (Hb & Hn & _). rewrite Hb, Hn.
    repeat split; try assumption. lia.
  - destruct (mutation_effect m w)
      as (r & _ & [(_ & _ & _ & Hb & Hn & _)|(_ & w1 & (_ & _ & Ha) & E)]).
    { rewrite Hb, Hn.
      assert (Hle : next_id w <= (if status r =? 409 then next_id w + 1 else next_id w))
        by (destruct (status r =? 409); lia).
      split; [|exact Hle]. repeat split; try assumption.
      eapply List.Forall_impl; [|exact Hbelow]. cbn. intros; lia. }
    rewrite (after_reply_after_run _ _ _ E), invalidateCache_books,
      invalidateCache_next_id.
    destruct m as [b|id b|id].
    + destruct Ha as (t & a & i & _ & _ & _ & Hfresh & Hb & Hn).
      rewrite Hb, Hn, !List.map_app. cbn [map created_row row_id row_isbn].
      split; [|lia].
      split; [apply NoDup_snoc; [exact Hids|apply fresh_id, Hbelow]|].
      split; [apply NoDup_snoc;
              [exact Hisbns|apply (fresh_isbn (collation w)), Hfresh]|].
      apply List.Forall_app. split.
      * eapply List.Forall_impl; [|exact Hbelow]. cbn. intros; lia.
      * constructor; [cbn; lia|constructor].
    + destruct Ha as (t & a & i & row & rest & _ & _ & _ & _ & Hfree & Hb & Hn).
      rewrite Hb, Hn, replace_row_ids.
      split; [|lia].
      split; [exact Hids|].
      split; [apply replace_row_isbns; try assumption;
              apply (isbn_free_elsewhere (collation w)), Hfree|].
      rewrite List.Forall_forall in Hbelow |- *. intros b' Hin.
      apply List.in_map_iff in Hin as (b0 & <- & Hin).
      rewrite replace_row_id. apply Hbelow, Hin.
    + destruct Ha as (row & rest & _ & Hb & Hn). rewrite Hb, Hn.
      split; [|lia].
      split; [apply NoDup_map_filter, Hids|].
      split; [apply NoDup_map_filter, Hisbns|].
      apply Forall_filter_keep, Hbelow.
Qed.

(** X1.  Whatever requests are handled, in whatever state of the cache, the
    table keeps its keys: identifiers stay unique, ISBNs stay unique, every
    identifier lies below the AUTO_INCREMENT counter, and the counter never
    decreases (so an identifier is never handed out twice, not even after a
    DELETE). *)
Theorem store_keys_preserved (qs : list request) (w : world) :
  store_wf w ->
  store_wf (serve_all qs w) /\ next_id w <= next_id (serve_all qs w).
Proof.
  revert w. induction qs as [|q qs IH]; intros w Hwf; cbn [serve_all].
  - split; [exact Hwf|lia].
  - destruct (serve_store_wf q w Hwf) as [Hwf1 Hle].
    destruct (IH _ Hwf1) as [Hwf2 Hle2]. split; [exact Hwf2|lia].
Qed.

Lemma seeded_store_wf : store_wf seeded.
Proof.
  unfold store_wf. cbn [seeded books next_id map].
  repeat split.
  - repeat (apply NoDup_cons_2; [rewrite list_elem_of_In; cbn; intros H;
      repeat (destruct H as [H|H]; [discriminate H|]); exact H|]).
    apply NoDup_nil_2.
  - repeat (apply NoDup_cons_2; [rewrite list_elem_of_In; cbn; intros H;
      repeat (destruct H as [H|H]; [discriminate H|]); exact H|]).
    apply NoDup_nil_2.
  - repeat constructor.
Defined.

(** On the seeded table: a create, a delete of book 1 and a second create. *)
Lemma store_keys_preserved_witness :
  store_wf (serve_all [Write (Create refactoring); Write (Delete 1);
                       Write (Create untitled)] seeded)
  /\ next_id seeded
     <= next_id (serve_all [Write (Create refactoring); Write (Delete 1);
                            Write (Create untitled)] seeded).
Proof.
  apply (store_keys_preserved
           [Write (Create refactoring); Write (Delete 1); Write (Create untitled)]
           seeded).
  exact seeded_store_wf.
Defined.

(** ** How many statements and commands a request issues *)

Lemma issues_ret {A} (a : A) : issues (ret a) 0 0.
Proof. intros w. cbn. lia. Qed.

Lemma issues_throw {A} (e : error) : issues (@throw A e) 0 0.
Proof. intros w. cbn. lia. Qed.

Lemma issues_console_error line : issues (console_error line) 0 0.
Proof. intros w. cbn. lia. Qed.

Lemma issues_weaken {A} (m : M A) s c s' c' :
  issues m s c -> (s <= s')%nat -> (c <= c')%nat -> issues m s' c'.
Proof. intros H Hs Hc w. specialize (H w). lia. Qed.

Lemma issues_bind {A B} (m : M A) (k : A -> M B) s1 c1 s2 c2 :
  issues m s1 c1 -> (forall a, issues (k a) s2 c2) ->
  issues (bind m k) (s1 + s2) (c1 + c2).
Proof.
  intros Hm Hk w. specialize (Hm w). unfold bind, after in *.
  destruct (m w) as [[a|e|] w1]; cbn [snd] in *; [|lia|lia].
  specialize (Hk a w1). unfold after in Hk. lia.
Qed.

Lemma issues_try_catch {A} (m : M A) (h : error -> M A) s1 c1 s2 c2 :
  issues m s1 c1 -> (forall e, issues (h e) s2 c2) ->
  issues (try_catch m h) (s1 + s2) (c1 + c2).
Proof.
  intros Hm Hh w. specialize (Hm w). unfold try_catch, after in *.
  destruct (m w) as [[a|e|] w1]; cbn [snd] in *; [lia| |lia].
  specialize (Hh e w1). unfold after in Hh. lia.
Qed.

Lemma issues_statement {A} (run : M A) :
  (forall w, store_stmts (after (run w)) = store_stmts w
             /\ cache_cmds (after (run w)) = cache_cmds w) ->
  issues (statement run) 1 0.
Proof.
  intros Hrun w. unfold statement, after in *.
  destruct (store_fault w (store_stmts w)); [cbn; lia|].
  destruct (Hrun (with_store_stmts (S (store_stmts w)) w)) as [Hs Hc].
  cbn [store_stmts cache_cmds with_store_stmts] in Hs, Hc. lia.
Qed.

Lemma issues_command {A} (run : M A) :
  (forall w, store_stmts (after (run w)) = store_stmts w
             /\ cache_cmds (after (run w)) = cache_cmds w) ->
  issues (command run) 0 1.
Proof.
  intros Hrun w. unfold command, after in *.
  destruct (cache_fault w (cache_cmds w)); [cbn; lia|].
  destruct (Hrun (with_cache_cmds (S (cache_cmds w)) w)) as [Hs Hc].
  cbn [store_stmts cache_cmds with_cache_cmds] in Hs, Hc. lia.
Qed.

(** A helper that does nothing unless the client is open. *)
Lemma issues_if_open {A} (a : A) (m : M A) s c :
  issues m s c ->
  issues (fun w => if negb (isOpen w) then (Ok a, w) else m w) s c.
Proof.
  intros Hm w. destruct (negb (isOpen w)); [cbn; lia|apply Hm].
Qed.

Lemma issues_getFromCache key : issues (getFromCache key) 0 1.
Proof.
  unfold getFromCache. apply issues_if_open.
  apply (issues_try_catch _ _ 0 1 0 0).
  - apply (issues_bind _ _ 0 1 0 0).
    + apply issues_command. intros w. split; reflexivity.
    + intros [[v| |]|]; try apply issues_ret; apply issues_throw.
  - intros e. apply (issues_bind _ _ 0 0 0 0);
      [apply issues_console_error|intros; apply issues_ret].
Qed.

Lemma issues_setToCache key data : issues (setToCache key data) 0 1.
Proof.
  unfold setToCache. apply issues_if_open.
  apply (issues_try_catch _ _ 0 1 0 0).
  - apply issues_command. intros w. split; reflexivity.
  - intros e. apply issues_console_error.
Qed.

Lemma issues_invalidateCache pattern : issues (invalidateCache pattern) 0 3.
Proof.
  unfold invalidateCache. apply issues_if_open.
  apply (issues_try_catch _ _ 0 3 0 0).
  - apply (issues_bind _ _ 0 1 0 2).
    + apply issues_command. intros w. split; reflexivity.
    + intros keys. apply (issues_bind _ _ 0 1 0 1).
      * destruct (0 <? length keys)%nat.
        -- apply issues_command. intros w. split; reflexivity.
        -- apply (issues_weaken _ 0 0); [apply issues_ret|lia|lia].
      * intros _. apply issues_command. intros w. split; reflexivity.
  - intros e. apply issues_console_error.
Qed.

Lemma issues_GET_books : issues GET_books 1 2.
Proof.
  unfold GET_books. apply (issues_try_catch _ _ 1 2 0 0).
  - apply (issues_bind _ _ 0 1 1 1); [apply issues_getFromCache|].
    intros cached. destruct (truthy cached).
    + apply (issues_weaken _ 0 0); [apply issues_ret|lia|lia].
    + apply (issues_bind _ _ 1 0 0 1).
      * apply issues_statement. intros w. split; reflexivity.
      * intros rows. apply (issues_bind _ _ 0 1 0 0);
          [apply issues_setToCache|intros; apply issues_ret].
  - intros e. apply (issues_bind _ _ 0 0 0 0);
      [apply issues_console_error|intros; apply issues_ret].
Qed.

Lemma issues_GET_book id : issues (GET_book id) 1 2.
Proof.
  unfold GET_book. cbv zeta. apply (issues_try_catch _ _ 1 2 0 0).
  - apply (issues_bind _ _ 0 1 1 1); [apply issues_getFromCache|].
    intros cached. destruct (truthy cached).
    + apply (issues_weaken _ 0 0); [apply issues_ret|lia|lia].
    + apply (issues_bind _ _ 1 0 0 1).
      * apply issues_statement. intros w. split; reflexivity.
      * intros [|row rest].
        -- apply (issues_weaken _ 0 0); [apply issues_ret|lia|lia].
        -- apply (issues_bind _ _ 0 1 0 0);
             [apply issues_setToCache|intros; apply issues_ret].
  - intros e. apply (issues_bind _ _ 0 0 0 0);
      [apply issues_console_error|intros; apply issues_ret].
Qed.

Lemma issues_catch_reply line (pick : error -> response) :
  forall e, issues (console_error line >> ret (pick e)) 0 0.
Proof.
  intros e. apply (issues_bind _ _ 0 0 0 0);
    [apply issues_console_error|intros; apply issues_ret].
Qed.

Lemma issues_sql_insert t a i p s : issues (sql_insert t a i p s) 1 0.
Proof.
  apply issues_statement. intros w.
  destruct t, a, i; try (split; reflexivity).
  destruct (existsb _ (books w)); split; reflexivity.
Qed.

Lemma issues_sql_update t a i p s id : issues (sql_update t a i p s id) 1 0.
Proof.
  apply issues_statement. intros w.
  destruct (List.filter (has_id id) (books w)); [split; reflexivity|].
  destruct t, a, i; try (split; reflexivity).
  destruct (existsb _ (books w)); split; reflexivity.
Qed.

Lemma issues_sql_delete id : issues (sql_delete id) 1 0.
Proof. apply issues_statement. intros w. split; reflexivity. Qed.

Lemma issues_invalidate_then {A} (a : A) :
  issues (invalidateCache "books:*" >> ret a) 0 3.
Proof.
  apply (issues_bind _ _ 0 3 0 0);
    [apply issues_invalidateCache|intros; apply issues_ret].
Qed.

Lemma issues_handle_mutation m : issues (handle_mutation m) 1 3.
Proof.
  destruct m as [b|id b|id]; cbn [handle_mutation].
  - unfold POST_books. apply (issues_try_catch _ _ 1 3 0 0).
    + destruct (falsy_str (title b) || falsy_str (author b) || falsy_str (isbn b)).
      * apply (issues_weaken _ 0 0); [apply issues_ret|lia|lia].
      * apply (issues_bind _ _ 1 0 0 3); [apply issues_sql_insert|].
        intros insertId. apply issues_invalidate_then.
    + intros e. apply (issues_bind _ _ 0 0 0 0); [apply issues_console_error|].
      intros _. destruct (is_dup_entry e); apply issues_ret.
  - unfold PUT_book. apply (issues_try_catch _ _ 1 3 0 0).
    + apply (issues_bind _ _ 1 0 0 3); [apply issues_sql_update|].
      intros affectedRows. destruct (affectedRows =? 0)%nat.
      * apply (issues_weaken _ 0 0); [apply issues_ret|lia|lia].
      * apply issues_invalidate_then.
    + apply issues_catch_reply.
  - unfold DELETE_book. apply (issues_try_catch _ _ 1 3 0 0).
    + apply (issues_bind _ _ 1 0 0 3); [apply issues_sql_delete|].
      intros affectedRows. destruct (affectedRows =? 0)%nat.
      * apply (issues_weaken _ 0 0); [apply issues_ret|lia|lia].
      * apply issues_invalidate_then.
    + apply issues_catch_reply.
Qed.

(** On a hit the handler returns before any statement. *)
Lemma hit_spares_store key w (h : error -> M response) (rest : M response) :
  truthy (cache_lookup key w) = true ->
  store_stmts
    (after (try_catch
              (let! cached := getFromCache key in
               if truthy cached then ret (Response 200 (tagged cached)) else rest)
              h w))
  = store_stmts w.
Proof.
  unfold cache_lookup. intros Hhit.
  destruct (getFromCache_run key w)
    as (o & w1 & E & _ & (_ & _ & _ & _ & Hs & _) & _).
  rewrite E in Hhit. cbn [fst] in Hhit.
  destruct o as [v|e|]; try discriminate Hhit.
  unfold after, try_catch, bind. rewrite E, Hhit. exact Hs.
Qed.

(** X2.  A request costs the store at most one statement and the cache at
    most three commands (two for a read), whatever fails on the way; and a
    read that is served from the cache costs the store nothing. *)
Theorem request_cost (q : request) (w : world) :
  (store_stmts w <= store_stmts (after (serve q w)) <= store_stmts w + 1)%nat
  /\ (cache_cmds w <= cache_cmds (after (serve q w)) <= cache_cmds w + 3)%nat
  /\ (q = ListBooks \/ (exists id, q = ReadBook id) ->
      (cache_cmds (after (serve q w)) <= cache_cmds w + 2)%nat)
  /\ (q = ListBooks -> truthy (cache_lookup "books:all" w) = true ->
      store_stmts (after (serve q w)) = store_stmts w)
  /\ (forall id, q = ReadBook id ->
        truthy (cache_lookup (item_key id) w) = true ->
        store_stmts (after (serve q w)) = store_stmts w).
Proof.
  split; [|split; [|split; [|split]]].
  - destruct q as [|id|m]; cbn [serve].
    + apply issues_GET_books.
    + apply issues_GET_book.
    + apply issues_handle_mutation.
  - destruct q as [|id|m]; cbn [serve].
    + pose proof (issues_GET_books w). lia.
    + pose proof (issues_GET_book id w). lia.
    + apply issues_handle_mutation.
  - intros [->|[id ->]]; cbn [serve].
    + apply issues_GET_books.
    + apply issues_GET_book.
  - intros -> Hhit. cbn [serve]. apply (hit_spares_store "books:all" w). exact Hhit.
  - intros id -> Hhit. cbn [serve]. unfold GET_book. cbv zeta.
    apply (hit_spares_store (item_key id) w). exact Hhit.
Qed.

(** ** When the cache is served *)

Lemma cache_hit_inv key w :
  truthy (cache_lookup key w) = true ->
  isOpen w = true
  /\ cache_fault w (cache_cmds w) = false
  /\ exists v t,
       cache w !! key = Some (Entry (JsonText v) t)
       /\ cache_lookup key w = v.
Proof.
  unfold cache_lookup. rewrite getFromCache_eq.
  destruct (isOpen w); cbn [negb fst]; [|discriminate].
  destruct (cache_fault w (cache_cmds w));
    [destruct (cache_stall w (cache_cmds w)); discriminate|].
  destruct (cache w !! key) as [[[v| |] t]|]; cbn [fst]; try discriminate.
  intros _. repeat split. exists v, t. split; reflexivity.
Qed.

Lemma GET_books_hit_reply w :
  truthy (cache_lookup "books:all" w) = true ->
  reply (GET_books w) = Some (Response 200 (tagged (cache_lookup "books:all" w))).
Proof.
  unfold cache_lookup. intros Hhit.
  destruct (getFromCache_run "books:all" w) as (o & w1 & E & _).
  rewrite E in Hhit |- *. cbn [fst] in Hhit |- *.
  destruct o as [v|e|]; try discriminate Hhit.
  unfold GET_books, try_catch, bind, reply. rewrite E, Hhit. reflexivity.
Qed.

Lemma GET_book_hit_reply id w :
  truthy (cache_lookup (item_key id) w) = true ->
  reply (GET_book id w)
  = Some (Response 200 (tagged (cache_lookup (item_key id) w))).
Proof.
  unfold cache_lookup. intros Hhit.
  destruct (getFromCache_run (item_key id) w) as (o & w1 & E & _).
  rewrite E in Hhit |- *. cbn [fst] in Hhit |- *.
  destruct o as [v|e|]; try discriminate Hhit.
  unfold GET_book, try_catch, bind, reply. cbv zeta. rewrite E, Hhit. reflexivity.
Qed.


(** ** A cache that does not fail never serves stale data *)

Lemma item_key_inj a b : item_key a = item_key b -> a = b.
Proof.
  unfold item_key. cbn [String.append]. intros H.
  injection H as H. exact (inj pretty _ _ H).
Qed.

Lemma pretty_Z_not_all (id : Z) : pretty id <> "all".
Proof.
  unfold pretty, pretty_Z. destruct id as [|p|p]; [discriminate| |discriminate].
  intros H. assert (Hd : digits_only (pretty_N_go (N.pos p) EmptyString) = true)
    by (apply pretty_N_go_digits; reflexivity).
  unfold pretty, pretty_positive, pretty, pretty_N in H.
  destruct (decide (N.pos p = 0)%N) as [E|_]; [discriminate E|].
  rewrite H in Hd. discriminate Hd.
Qed.

Lemma item_key_not_collection id : item_key id <> "books:all".
Proof.
  unfold item_key. cbn [String.append]. intros H. injection H as H.
  exact (pretty_Z_not_all id H).
Qed.

Lemma healthy_same_client w w1 : same_client w w1 -> healthy w -> healthy w1.
Proof. intros (_ & Hf & _) Hh n. rewrite Hf. apply Hh. Qed.

Lemma healthy_responsive w : healthy w -> responsive w.
Proof. intros Hh n Hn. rewrite Hh in Hn. discriminate Hn. Qed.

(** One request keeps a cache that does not fail in step with the table. *)
Lemma coherent_serve q w :
  healthy w -> coherent w -> coherent (after (serve q w)).
Proof.
  intros Hh Hcoh. destruct q as [|id|m]; cbn [serve].
  - destruct (GET_books_effect w) as (Hb & _ & Hcl & Hcache).
    destruct (serve_same_engine ListBooks w) as [Ht _]. cbn [serve] in Ht.
    intros Hopen. rewrite (same_client_isOpen _ _ Hcl) in Hopen.
    destruct (Hcoh Hopen) as [Hall Hitem]. rewrite Hb, Ht.
    destruct Hcache as [Hc|[_ Hc]]; rewrite Hc; [split; assumption|].
    split.
    + intros e. rewrite lookup_insert_eq. intros [= <-]. reflexivity.
    + intros id e. rewrite lookup_insert_ne.
      * apply Hitem.
      * intros E. exact (item_key_not_collection id (eq_sym E)).
  - destruct (GET_book_effect id w) as (Hb & _ & Hcl & Hcache).
    destruct (serve_same_engine (ReadBook id) w) as [Ht _]. cbn [serve] in Ht.
    intros Hopen. rewrite (same_client_isOpen _ _ Hcl) in Hopen.
    destruct (Hcoh Hopen) as [Hall Hitem]. rewrite Hb, Ht.
    destruct Hcache as [Hc|(_ & row & rest & Hm & Hc)]; rewrite Hc;
      [split; assumption|].
    split.
    + intros e. rewrite lookup_insert_ne by apply item_key_not_collection.
      apply Hall.
    + intros id' e. destruct (Z.eq_dec id id') as [<-|Hne].
      * rewrite lookup_insert_eq. intros [= <-]. exists row, rest. auto.
      * rewrite lookup_insert_ne; [apply Hitem|].
        intros E. apply Hne, item_key_inj, E.
  - destruct (serve_same_engine (Write m) w) as [Ht _]. cbn [serve] in Ht.
    destruct (mutation_effect m w)
      as (r & _ & [(_ & _ & _ & Hb & _ & Hc & _ & Hcl)|(_ & w1 & (Hun & _) & E)]).
    + intros Hopen. rewrite (same_client_isOpen _ _ Hcl) in Hopen.
      rewrite Hb, Hc, Ht. exact (Hcoh Hopen).
    + destruct Hun as (Hcl & Hc & _). rewrite (after_reply_after_run _ _ _ E).
      intros Hopen.
      rewrite (same_client_isOpen _ _ (invalidateCache_same_client _ _)) in Hopen.
      assert (Hgone : forall k,
                cache (after (invalidateCache "books:*" w1)) !! k =
                  if glob "books:*" k || String.eqb k "books:all"
                  then None else cache w1 !! k).
      { intros k. apply invalidateCache_sweeps; [exact Hopen|].
        intros n _. apply (healthy_same_client w w1 Hcl Hh). }
      split.
      * intros e. rewrite Hgone. cbn. discriminate.
      * intros id e. rewrite Hgone, glob_item_key. cbn. discriminate.
Qed.

Lemma coherent_serve_all qs w :
  healthy w -> coherent w ->
  healthy (serve_all qs w) /\ coherent (serve_all qs w).
Proof.
  revert w. induction qs as [|q qs IH]; intros w Hh Hcoh; cbn [serve_all];
    [split; assumption|].
  apply IH.
  - apply (healthy_same_client w); [apply serve_same_client|exact Hh].
  - apply coherent_serve; assumption.
Qed.

(** X4.  As long as no cache command fails, the cache stays in step with
    the table through any sequence of requests: whatever an open client can
    read under the collection key or an item key is the serialisation of
    what the table holds at that moment. *)
Theorem cache_stays_coherent (qs : list request) (w : world) :
  healthy w -> coherent w -> coherent (serve_all qs w).
Proof.
  intros Hh Hcoh. apply coherent_serve_all; assumption.
Qed.

Lemma seeded_coherent : coherent seeded.
Proof.
  intros _. split.
  - intros e H. cbn [seeded cache] in H. rewrite lookup_empty in H. discriminate H.
  - intros id e H. cbn [seeded cache] in H. rewrite lookup_empty in H.
    discriminate H.
Defined.

(** On the seeded process: two reads, an update and a delete. *)
Lemma cache_stays_coherent_witness :
  coherent (serve_all [ListBooks; ReadBook 2; Write (Update 2 clean_code_wrong_isbn);
                       Write (Delete 1); ReadBook 2] seeded).
Proof.
  apply (cache_stays_coherent
           [ListBooks; ReadBook 2; Write (Update 2 clean_code_wrong_isbn);
            Write (Delete 1); ReadBook 2] seeded).
  - intros n. reflexivity.
  - exact seeded_coherent.
Defined.

(** X5.  With a cache that does not fail and starts in step with the table,
    after any sequence of requests a read answered 200 shows the table as it
    is now, whether it is served from the store or from the cache: the item
    read shows the current row with that identifier (tagged on a hit), the
    collection read the current scan (spread and tagged on a hit). *)
Theorem reads_are_current (qs : list request) (w : world) (q : request)
    (r : response) :
  healthy w -> coherent w ->
  reply (serve q (serve_all qs w)) = Some r ->
  status r = 200 ->
  shows_current q (serve_all qs w) r.
Proof.
  intros Hh Hcoh Hr Hs.
  destruct (coherent_serve_all qs w Hh Hcoh) as [_ Hcoh'].
  set (w' := serve_all qs w) in *.
  destruct q as [|id|m]; cbn [serve shows_current] in *; [| |exact I].
  - destruct (truthy (cache_lookup "books:all" w')) eqn:Hhit.
    + rewrite (GET_books_hit_reply w' Hhit) in Hr. injection Hr as <-.
      destruct (cache_hit_inv _ _ Hhit) as (Ho & _ & v & t & Hk & Hv).
      destruct (Hcoh' Ho) as [Hall _]. specialize (Hall _ Hk). cbn in Hall.
      injection Hall as ->. right. cbn [body]. rewrite Hv. reflexivity.
    + pose proof (GET_books_miss_replied w' r Hhit Hr) as Er.
      destruct (store_fault w' (store_stmts w')); subst r;
        [discriminate Hs|]. left. reflexivity.
  - destruct (truthy (cache_lookup (item_key id) w')) eqn:Hhit.
    + rewrite (GET_book_hit_reply id w' Hhit) in Hr. injection Hr as <-.
      destruct (cache_hit_inv _ _ Hhit) as (Ho & _ & v & t & Hk & Hv).
      destruct (Hcoh' Ho) as [_ Hitem].
      destruct (Hitem _ _ Hk) as (row & rest & Hm & Hp). cbn in Hp.
      injection Hp as ->. exists row, rest. split; [exact Hm|]. right.
      cbn [body]. rewrite Hv. reflexivity.
    + pose proof (GET_book_miss_replied id w' r Hhit Hr) as Er.
      destruct (store_fault w' (store_stmts w')); [subst r; discriminate Hs|].
      destruct (List.filter (has_id id) (books w')) as [|row rest];
        subst r; [discriminate Hs|].
      exists row, rest. split; [reflexivity|]. left. reflexivity.
Qed.

(** On the seeded process: book 2 is read (and cached), restocked, read again
    (and cached again); the next read is a hit and shows the new stock. *)
Lemma reads_are_current_witness :
  shows_current (ReadBook 2)
    (serve_all [ReadBook 2; Write (Update 2 clean_code_restocked); ReadBook 2] seeded)
    (Response 200 (tagged (book_json clean_code_after_restock))).
Proof.
  apply (reads_are_current
           [ReadBook 2; Write (Update 2 clean_code_restocked); ReadBook 2] seeded
           (ReadBook 2) (Response 200 (tagged (book_json clean_code_after_restock)))).
  - intros n. reflexivity.
  - exact seeded_coherent.
  - vm_compute. reflexivity.
  - reflexivity.
Defined.

(** ** Write, then read *)

(** An invalidation that records no error leaves no readable entry under a
    key that matches its pattern. *)
Lemma invalidateCache_quiet_key pattern w k :
  pending (invalidateCache pattern w) = false ->
  console (after (invalidateCache pattern w)) = console w ->
  glob pattern k = true ->
  cache_miss k (after (invalidateCache pattern w)).
Proof.
  unfold after, pending. rewrite invalidateCache_eq. cbv zeta.
  destruct (isOpen w) eqn:Hopen; cbn [negb snd].
  2:{ intros _ _ _. apply cache_miss_closed, Hopen. }
  intros Hpend Hquiet Hg.
  assert (Hswept : foldr delete (cache w) (matching_keys pattern (cache w)) !! k = None)
    by (rewrite swept_lookup, Hg; reflexivity).
  revert Hpend Hquiet.
  destruct (cache_fault w (cache_cmds w)).
  { destruct (cache_stall w (cache_cmds w)); [discriminate|].
    cbn. intros _ H. destruct (snoc_neq _ _ H). }
  destruct (0 <? length (matching_keys pattern (cache w)))%nat eqn:Hlen;
    (destruct (cache_fault w (S (cache_cmds w)));
     [destruct (cache_stall w (S (cache_cmds w))); [discriminate|];
      cbn; intros _ H; destruct (snoc_neq _ _ H)|]).
  - destruct (cache_fault w (S (S (cache_cmds w)))).
    { destruct (cache_stall w (S (S (cache_cmds w)))); [discriminate|].
      cbn. intros _ H. destruct (snoc_neq _ _ H). }
    intros _ _. apply cache_miss_absent. cbn.
    destruct (decide ("books:all" = k)) as [<-|Hne];
      [apply lookup_delete_eq|rewrite lookup_delete_ne by exact Hne; exact Hswept].
  - intros _ _. apply cache_miss_absent. cbn.
    destruct (decide ("books:all" = k)) as [<-|Hne];
      [apply lookup_delete_eq|rewrite lookup_delete_ne by exact Hne].
    apply Nat.ltb_ge in Hlen.
    destruct (matching_keys pattern (cache w)) as [|k0 ks] eqn:Hkeys;
      [exact Hswept|cbn in Hlen; lia].
Qed.

Lemma filter_below_counter n l :
  Forall (fun b => row_id b < n) l -> List.filter (has_id n) l = [].
Proof.
  induction 1 as [|b l Hb _ IH]; cbn [List.filter]; [reflexivity|].
  unfold has_id at 1. destruct (Z.eqb_spec (row_id b) n); [lia|exact IH].
Qed.

Lemma filter_removed id l :
  List.filter (has_id id) (List.filter (fun b => negb (has_id id b)) l) = [].
Proof.
  induction l as [|b l IH]; cbn [List.filter]; [reflexivity|].
  destruct (has_id id b) eqn:E; cbn [negb List.filter]; [exact IH|].
  rewrite E. exact IH.
Qed.

(** X6.  Create, then read.  When POST /api/books answers 201 on a table
    with sound keys, the invalidation records no error, the next point
    lookup succeeds and no cache command is left pending,
    GET /api/books/:id for the identifier of the 201 reply answers 200 with
    the stored row: its title, author and ISBN are those of the request, its
    price and stock those of the request or 0. *)
Theorem create_then_read (b : request_body) (w : world) (r : response) :
  store_wf w ->
  responsive w ->
  reply (POST_books b w) = Some r ->
  status r = 201 ->
  console (after (POST_books b w)) = console w ->
  store_fault (after (POST_books b w)) (store_stmts (after (POST_books b w))) = false ->
  exists row,
    obj_get "id" (spread (body r)) = Some (JNum (row_id row))
    /\ reply (GET_book (row_id row) (after (POST_books b w)))
       = Some (Response 200 (book_json row))
    /\ title b = Given (row_title row)
    /\ author b = Given (row_author row)
    /\ isbn b = Given (row_isbn row)
    /\ row_price row = Some (or_zero (price b))
    /\ row_stock row = Some (or_zero (stock b)).
Proof.
  intros (_ & _ & Hbelow) Hresp Hr Hs Hquiet Hf.
  destruct (POST_books_status_201 b w r Hr Hs)
    as (t & a & i & Ht & Ha & Hi & _ & E).
  unfold reply in Hr. rewrite E in Hr, Hquiet, Hf |- *.
  cbn [fst] in Hr. injection Hr as <-.
  unfold after at 1 in Hquiet. unfold after at 1 2 in Hf. unfold after at 1.
  cbn [snd] in Hquiet, Hf |- *.
  set (row := created_row t a i b w) in *. set (w0 := inserted row w) in *.
  exists row. split; [reflexivity|].
  split; [|repeat split; assumption].
  assert (Hresp0 : responsive w0) by exact Hresp.
  assert (Hmiss : cache_miss (item_key (row_id row)) (after (invalidateCache "books:*" w0))).
  { apply invalidateCache_quiet_key; [|exact Hquiet|apply glob_item_key].
    destruct (invalidateCache_frame "books:*" w0 Hresp0) as (w' & E' & _).
    rewrite E'. reflexivity. }
  assert (Hresp1 : responsive (after (invalidateCache "books:*" w0))).
  { apply (responsive_same_client w0); [apply invalidateCache_same_client|exact Hresp0]. }
  rewrite (GET_book_miss_reply _ _ Hresp1 Hmiss Hf), invalidateCache_books.
  subst w0 row. cbn [inserted books with_next_id with_books created_row row_id].
  rewrite List.filter_app, (filter_below_counter _ _ Hbelow).
  cbn [List.filter app]. unfold has_id. cbn [row_id].
  rewrite Z.eqb_refl. reflexivity.
Qed.

(** On the seeded process: the sample request without price and stock. *)
Lemma create_then_read_witness :
  exists row,
    obj_get "id" (spread (body (Response 201 (JObj (created_fields refactoring seeded)))))
    = Some (JNum (row_id row))
    /\ reply (GET_book (row_id row) (after (POST_books refactoring seeded)))
       = Some (Response 200 (book_json row))
    /\ title refactoring = Given (row_title row)
    /\ author refactoring = Given (row_author row)
    /\ isbn refactoring = Given (row_isbn row)
    /\ row_price row = Some (or_zero (price refactoring))
    /\ row_stock row = Some (or_zero (stock refactoring)).
Proof.
  apply (create_then_read refactoring seeded
           (Response 201 (JObj (created_fields refactoring seeded)))).
  - exact seeded_store_wf.
  - intros n Hn. reflexivity.
  - vm_compute. reflexivity.
  - reflexivity.
  - vm_compute. reflexivity.
  - reflexivity.
Defined.

(** X7.  Delete, then read.  When DELETE /api/books/:id answers 200, no row
    with that identifier is left; if the invalidation records no error, the
    next point lookup succeeds and no cache command is left pending,
    GET /api/books/:id answers 404, even when the book had been cached
    before. *)
Theorem delete_then_read (id : Z) (w : world) (r : response) :
  responsive w ->
  reply (DELETE_book id w) = Some r ->
  status r = 200 ->
  console (after (DELETE_book id w)) = console w ->
  store_fault (after (DELETE_book id w)) (store_stmts (after (DELETE_book id w))) = false ->
  List.filter (has_id id) (books (after (DELETE_book id w))) = []
  /\ reply (GET_book id (after (DELETE_book id w)))
     = Some (error_response 404 "Book not found").
Proof.
  intros Hresp Hr Hs Hquiet Hf.
  destruct (mutation_effect (Delete id) w) as (r' & Hr' & Hcase).
  cbn [handle_mutation] in Hr', Hcase. rewrite (Hr' r Hr) in Hs. clear Hr'.
  destruct Hcase
    as [(Hnack & _)|(_ & w1 & ((Hcl & _ & _ & Hcon) & _ & Ha) & E)].
  { unfold acknowledged in Hnack. rewrite Hs in Hnack. discriminate Hnack. }
  destruct Ha as (row & rest & _ & Hb & _).
  assert (Hresp1 : responsive w1)
    by (apply (responsive_same_client w); assumption).
  destruct (invalidateCache_frame "books:*" w1 Hresp1) as (w' & E' & _).
  assert (Hafter : after (DELETE_book id w) = after (invalidateCache "books:*" w1))
    by (rewrite E; reflexivity).
  rewrite Hafter in Hquiet, Hf |- *.
  assert (Hgone : List.filter (has_id id)
                    (books (after (invalidateCache "books:*" w1))) = []).
  { rewrite invalidateCache_books, Hb. apply filter_removed. }
  split; [exact Hgone|].
  assert (Hmiss : cache_miss (item_key id) (after (invalidateCache "books:*" w1))).
  { apply invalidateCache_quiet_key; [rewrite E'; reflexivity| |apply glob_item_key].
    rewrite Hquiet, Hcon. reflexivity. }
  assert (Hresp2 : responsive (after (invalidateCache "books:*" w1))).
  { apply (responsive_same_client w1); [apply invalidateCache_same_client|exact Hresp1]. }
  rewrite (GET_book_miss_reply _ _ Hresp2 Hmiss Hf), Hgone. reflexivity.
Qed.

(** On the seeded process: book 2 is read (and cached), then deleted. *)
Lemma delete_then_read_witness :
  List.filter (has_id 2) (books (after (DELETE_book 2 (after (GET_book 2 seeded))))) = []
  /\ reply (GET_book 2 (after (DELETE_book 2 (after (GET_book 2 seeded)))))
     = Some (error_response 404 "Book not found").
Proof.
  apply (delete_then_read 2 (after (GET_book 2 seeded))
           (Response 200 (JObj [("message", JStr "Book deleted successfully")])));
    [intros n Hn; reflexivity|..]; vm_compute; reflexivity.
Defined.

Lemma existsb_snoc_isbn weight i l b :
  row_isbn b = i -> existsb (has_isbn weight i) (l ++ [b]) = true.
Proof.
  intros Hb. rewrite List.existsb_app. cbn [existsb]. unfold has_isbn at 2.
  rewrite Hb, String.eqb_refl. apply orb_true_iff. right. reflexivity.
Qed.

(** X8.  Two creates with one ISBN.  After POST /api/books answered 201, a
    second request with title, author and the same ISBN, on a store that
    executes the statement, is answered 409 and leaves the table as the first
    request left it, whatever the state of the cache. *)
Theorem second_create_conflicts (b b' : request_body) (w : world) (r : response)
    (i : string) :
  reply (POST_books b w) = Some r ->
  status r = 201 ->
  isbn b = Given i ->
  isbn b' = Given i ->
  missing_required b' = false ->
  store_fault (after (POST_books b w)) (store_stmts (after (POST_books b w))) = false ->
  reply (POST_books b' (after (POST_books b w)))
  = Some (error_response 409 "Book with this ISBN already exists")
  /\ books (after (POST_books b' (after (POST_books b w))))
     = books (after (POST_books b w)).
Proof.
  intros Hr Hs Hi Hi' Hvalid Hf.
  destruct (POST_books_status_201 b w r Hr Hs)
    as (t & a & i0 & _ & _ & Hi0 & _ & E).
  rewrite Hi in Hi0. injection Hi0 as <-.
  apply missing_required_false in Hvalid
    as (t' & a' & i' & Ht' & Ha' & Hi'' & Ht0 & Ha0 & Hi0).
  rewrite Hi' in Hi''. injection Hi'' as <-.
  assert (Hdup : existsb (has_isbn (collation (after (POST_books b w))) i)
                   (books (after (POST_books b w))) = true).
  { assert (Hafter : after (POST_books b w)
                      = after (invalidateCache "books:*"
                                 (inserted (created_row t a i b w) w)))
      by (rewrite E; reflexivity).
    rewrite Hafter, invalidateCache_books.
    cbn [inserted books with_next_id with_books].
    apply existsb_snoc_isbn. reflexivity. }
  rewrite (POST_books_duplicate b' _ t' a' i) by assumption.
  split; reflexivity.
Qed.

(** On the seeded process: the sample request, sent twice. *)
Lemma second_create_conflicts_witness :
  reply (POST_books refactoring (after (POST_books refactoring seeded)))
  = Some (error_response 409 "Book with this ISBN already exists")
  /\ books (after (POST_books refactoring (after (POST_books refactoring seeded))))
     = books (after (POST_books refactoring seeded)).
Proof.
  apply (second_create_conflicts refactoring refactoring seeded
           (Response 201 (JObj (created_fields refactoring seeded)))
           "978-0134757599");
    vm_compute; reflexivity.
Defined.

Lemma lookup_map {A B} (f : A -> B) (l : list A) (k : nat) :
  map f l !! k = f <$> l !! k.
Proof.
  revert k. induction l as [|x l IH]; intros [|k]; cbn; try reflexivity.
  apply IH.
Qed.

(** X9.  What an accepted update does.  When PUT /api/books/:id answers
    200, the table has as many rows as before, in the same places: a row with
    that identifier keeps its identifier and creation time and takes the five
    fields of the request (an absent or null price or stock becomes NULL) and
    the current time as its update time; every other row is unchanged.  A
    title, author or ISBN that is the empty string is accepted. *)
Theorem update_replaces_row (id : Z) (b : request_body) (w : world) (r : response) :
  reply (PUT_book id b w) = Some r ->
  status r = 200 ->
  exists t a i,
    title b = Given t /\ author b = Given a /\ isbn b = Given i
    /\ length (books (after (PUT_book id b w))) = length (books w)
    /\ forall k row,
         books w !! k = Some row ->
         books (after (PUT_book id b w)) !! k
         = Some (if has_id id row
                 then Book (row_id row) t a i (sql_param (price b))
                           (sql_param (stock b)) (created_at row) (now w)
                 else row).
Proof.
  intros Hr Hs.
  destruct (mutation_effect (Update id b) w) as (r' & Hr' & Hcase).
  cbn [handle_mutation] in Hr', Hcase. rewrite (Hr' r Hr) in Hs. clear Hr'.
  destruct Hcase as [(Hnack & _)|(_ & w1 & (_ & _ & Ha) & E)].
  { unfold acknowledged in Hnack. rewrite Hs in Hnack. discriminate Hnack. }
  destruct Ha as (t & a & i & row & rest & Ht & Ha & Hi & _ & _ & Hb & _).
  exists t, a, i. repeat (split; [assumption|]).
  rewrite E, after_reply_after, invalidateCache_books, Hb.
  split; [apply List.length_map|].
  intros k row0 Hk. rewrite lookup_map, Hk. reflexivity.
Qed.

(** On the seeded process: Clean Code resubmitted with an empty title. *)
Lemma update_replaces_row_witness :
  exists t a i,
    title clean_code_untitled = Given t /\ author clean_code_untitled = Given a
    /\ isbn clean_code_untitled = Given i
    /\ length (books (after (PUT_book 2 clean_code_untitled seeded)))
       = length (books seeded)
    /\ forall k row,
         books seeded !! k = Some row ->
         books (after (PUT_book 2 clean_code_untitled seeded)) !! k
         = Some (if has_id 2 row
                 then Book (row_id row) t a i (sql_param (price clean_code_untitled))
                           (sql_param (stock clean_code_untitled))
                           (created_at row) (now seeded)
                 else row).
Proof.
  apply (update_replaces_row 2 clean_code_untitled seeded
           (Response 200 (JObj (updated_fields 2 clean_code_untitled))));
    vm_compute; reflexivity.
Defined.

(** ** Mutations and the cache *)

Lemma invalidateCache_tries pattern w :
  isOpen w = true ->
  (cache_cmds w < cache_cmds (after (invalidateCache pattern w)))%nat.
Proof.
  intros Hopen. unfold after. rewrite invalidateCache_eq, Hopen. cbv zeta.
  cbn [negb]. frame_cases; cbn; lia.
Qed.

(** X10.  With an open cache client, a mutation request issues cache
    commands exactly when the store applied the mutation (reply 200 or 201).
    A request answered 400, 404, 409 or 500 issues none and leaves table and
    cache as they were; the counter of identifiers is as it was too, except
    after a 409: the insert that the unique index refused has used up one
    identifier. *)
Theorem cache_touched_iff_applied (m : mutation) (w : world) (r : response) :
  isOpen w = true ->
  reply (handle_mutation m w) = Some r ->
  (acknowledged r = true <->
   (cache_cmds w < cache_cmds (after (handle_mutation m w)))%nat)
  /\ (acknowledged r = false ->
      books (after (handle_mutation m w)) = books w
      /\ next_id (after (handle_mutation m w))
         = (if status r =? 409 then next_id w + 1 else next_id w)
      /\ cache (after (handle_mutation m w)) = cache w).
Proof.
  intros Hopen Hr.
  destruct (mutation_effect m w) as (r' & Hr' & Hcase).
  rewrite <- (Hr' r Hr) in Hcase. clear Hr' r'.
  destruct Hcase as [(Hnack & _ & _ & Hb & Hn & Hc & Hcmds & _)
                    |(Hack & w1 & (((Hcl & _ & Hcmds & _) & _) & E))].
  - rewrite Hnack, Hcmds. split; [split; [discriminate|lia]|]. auto.
  - rewrite Hack, E, after_reply_after. split; [|discriminate]. split; [|reflexivity].
    intros _. rewrite <- Hcmds. apply invalidateCache_tries.
    rewrite (same_client_isOpen _ _ Hcl). exact Hopen.
Qed.

(** On the seeded process: the sample create. *)
Lemma cache_touched_iff_applied_witness :
  (acknowledged (Response 201 (JObj (created_fields refactoring seeded))) = true <->
   (cache_cmds seeded
    < cache_cmds (after (handle_mutation (Create refactoring) seeded)))%nat)
  /\ (acknowledged (Response 201 (JObj (created_fields refactoring seeded))) = false ->
      books (after (handle_mutation (Create refactoring) seeded)) = books seeded
      /\ next_id (after (handle_mutation (Create refactoring) seeded))
         = (if status (Response 201 (JObj (created_fields refactoring seeded))) =? 409
            then next_id seeded + 1 else next_id seeded)
      /\ cache (after (handle_mutation (Create refactoring) seeded)) = cache seeded).
Proof.
  apply (cache_touched_iff_applied (Create refactoring) seeded
           (Response 201 (JObj (created_fields refactoring seeded))));
    vm_compute; reflexivity.
Defined.

(** X11.  With an open client and none of the (at most three) commands of
    the invalidation failing, an applied mutation empties the namespace of
    the books: afterwards the cache holds no key that starts with "books:"
    (the collection key and every item key included), every other key is
    exactly as before, and nothing is recorded on the console. *)
Theorem applied_write_sweeps (m : mutation) (w : world) (r : response) (k : string) :
  isOpen w = true ->
  (forall n, (cache_cmds w <= n < cache_cmds w + 3)%nat -> cache_fault w n = false) ->
  reply (handle_mutation m w) = Some r ->
  acknowledged r = true ->
  cache (after (handle_mutation m w)) !! k
  = (if glob "books:*" k then None else cache w !! k)
  /\ console (after (handle_mutation m w)) = console w.
Proof.
  intros Hopen Hok Hr Hack.
  destruct (mutation_effect m w) as (r' & Hr' & Hcase).
  rewrite <- (Hr' r Hr) in Hcase. clear Hr' r'.
  destruct Hcase as [(Hnack & _)|(_ & w1 & (((Hcl & Hc & Hcmds & Hcon) & _) & E))];
    [congruence|].
  rewrite E, after_reply_after.
  destruct (invalidateCache_sweeps "books:*" w1 k) as [Hk Hquiet].
  { rewrite (same_client_isOpen _ _ Hcl). exact Hopen. }
  { destruct Hcl as (_ & Hf & _). rewrite Hf, Hcmds. exact Hok. }
  rewrite Hk, Hquiet, Hc, Hcon. split; [|reflexivity].
  destruct (String.eqb_spec k "books:all") as [->|_].
  - reflexivity.
  - rewrite orb_false_r. reflexivity.
Qed.

(** On the sample with a foreign key in the cache: book 1 is deleted. *)
Lemma applied_write_sweeps_witness :
  cache (after (handle_mutation (Delete 1) with_foreign_key)) !! "session:7"
  = (if glob "books:*" "session:7" then None
     else cache with_foreign_key !! "session:7")
  /\ console (after (handle_mutation (Delete 1) with_foreign_key))
     = console with_foreign_key.
Proof.
  apply (applied_write_sweeps (Delete 1) with_foreign_key
           (Response 200 (JObj [("message", JStr "Book deleted successfully")]))
           "session:7").
  - reflexivity.
  - intros n _. reflexivity.
  - vm_compute. reflexivity.
  - reflexivity.
Defined.

(** On that sample: the cache held the collection key, an item key and the
    foreign key; after the delete the foreign key is the only one left. *)
Example DELETE_keeps_foreign_keys :
  map fst (map_to_list (cache with_foreign_key))
  = ["session:7"; "books:all"; "books:2"]
  /\ map fst (map_to_list (cache (after (handle_mutation (Delete 1) with_foreign_key))))
     = ["session:7"].
Proof. vm_compute. split; reflexivity. Qed.

(** X12.  A read never writes to the table and never removes or changes an
    entry of the cache other than the one key it populates; that key either
    stays as it was or receives the JSON text of what the store returned,
    with the fixed time-to-live. *)
Theorem reads_only_populate (w : world) :
  (books (after (GET_books w)) = books w
   /\ next_id (after (GET_books w)) = next_id w
   /\ (forall k, k <> "books:all" -> cache (after (GET_books w)) !! k = cache w !! k)
   /\ (cache (after (GET_books w)) !! "books:all" = cache w !! "books:all"
       \/ cache (after (GET_books w)) !! "books:all"
          = Some (Entry (JsonText (rows_json (order_by_created_at_desc (tie_break w) (books w))))
                        CACHE_TTL)))
  /\ (forall id,
        books (after (GET_book id w)) = books w
        /\ next_id (after (GET_book id w)) = next_id w
        /\ (forall k, k <> item_key id ->
                      cache (after (GET_book id w)) !! k = cache w !! k)
        /\ (cache (after (GET_book id w)) !! item_key id = cache w !! item_key id
            \/ exists row rest,
                 List.filter (has_id id) (books w) = row :: rest
                 /\ cache (after (GET_book id w)) !! item_key id
                    = Some (Entry (JsonText (book_json row)) CACHE_TTL))).
Proof.
  split.
  - destruct (GET_books_effect w) as (Hb & Hn & _ & [Hc|[_ Hc]]); rewrite Hc;
      repeat split; auto.
    + intros k Hk. apply lookup_insert_ne. congruence.
    + right. apply lookup_insert_eq.
  - intros id.
    destruct (GET_book_effect id w) as (Hb & Hn & _ & [Hc|(_ & row & rest & Hm & Hc)]);
      rewrite Hc; repeat split; auto.
    + intros k Hk. apply lookup_insert_ne. congruence.
    + right. exists row, rest. split; [exact Hm|apply lookup_insert_eq].
Qed.

(** ** The key pattern *)

Lemma literal_cons c rest :
  literal (String c rest) = true ->
  Ascii.eqb c "*"%char = false /\ literal rest = true.
Proof.
  cbn [literal]. intros H. apply andb_true_iff in H as [Hc Hl].
  split; [|exact Hl]. apply negb_true_iff in Hc. unfold glob_special in Hc.
  repeat (apply orb_false_iff in Hc as [Hc _]). exact Hc.
Qed.

Lemma glob_literal pattern s :
  literal pattern = true -> (glob pattern s = true <-> pattern = s).
Proof.
  revert s. induction pattern as [|c pattern IH]; intros s Hl.
  - destruct s; cbn; split; congruence.
  - apply literal_cons in Hl as [Hc Hl]. cbn [glob]. rewrite Hc.
    destruct s as [|d s]; [split; discriminate|].
    rewrite andb_true_iff, (IH s Hl). split.
    + intros [Hcd ->]. apply Ascii.eqb_eq in Hcd. subst. reflexivity.
    + intros [= -> ->]. split; [apply Ascii.eqb_refl|reflexivity].
Qed.

(** X13.  The keys the sweep of [invalidateCache] asks for.  A pattern
    without special characters matches that one key only, and such a pattern
    followed by [*] matches exactly the keys that start with it; so
    "books:*", the default pattern, matches the collection key, every item
    key, and nothing outside the "books:" namespace. *)
Theorem glob_prefix (prefix s : string) :
  literal prefix = true ->
  (glob prefix s = true <-> prefix = s)
  /\ (glob (prefix +:+ "*") s = true <-> exists rest, s = prefix +:+ rest).
Proof.
  intros Hl. split; [apply glob_literal, Hl|].
  revert s. induction prefix as [|c prefix IH]; intros s.
  - cbn [String.append]. rewrite glob_star. split; [|reflexivity].
    intros _. exists s. reflexivity.
  - apply literal_cons in Hl as [Hc Hl].
    change (String c prefix +:+ "*") with (String c (prefix +:+ "*")).
    cbn [glob]. rewrite Hc.
    destruct s as [|d s]; [split; [discriminate|intros [rest [=]]]|].
    rewrite andb_true_iff, (IH Hl s). split.
    + intros [Hcd [rest ->]]. apply Ascii.eqb_eq in Hcd. subst.
      exists rest. reflexivity.
    + intros [rest Hrest]. cbn [String.append] in Hrest.
      injection Hrest as -> ->. split; [apply Ascii.eqb_refl|].
      exists rest. reflexivity.
Qed.

(** The pattern of the sweep and the item key of book 42. *)
Lemma glob_prefix_witness :
  (glob "books:" "books:42" = true <-> "books:" = "books:42")
  /\ (glob ("books:" +:+ "*") "books:42" = true
      <-> exists rest, "books:42" = "books:" +:+ rest).
Proof.
  apply (glob_prefix "books:" "books:42"). reflexivity.
Defined.

(** ** Start-up, for every environment *)

Lemma initDatabase_calls r p :
  database_calls (snd (initDatabase r p)) = S (database_calls p).
Proof.
  destruct r; cbn [initDatabase snd]; rewrite database_calls_emit;
    try change (database_calls (Process _ _ (timeline p))) with (database_calls p);
    lia.
Qed.

Lemma initDatabase_pool r p :
  pool (snd (initDatabase r p))
  = match r with PoolCreationFails => pool p | _ => Some tt end.
Proof. destruct r; reflexivity. Qed.

Lemma initDatabase_connected r p :
  fst (initDatabase r p) = match r with Connects => true | _ => false end.
Proof. destruct r; reflexivity. Qed.

Lemma initDatabase_timeline r p :
  timeline (snd (initDatabase r p)) = timeline p ++ [TryDatabase r].
Proof. destruct r; reflexivity. Qed.

Lemma connect_loop_step retries db p :
  connect_loop (S retries) db p =
    if fst (initDatabase (db (database_calls p)) p)
    then snd (initDatabase (db (database_calls p)) p)
    else connect_loop retries db
           (emit (Wait 5000) (snd (initDatabase (db (database_calls p)) p))).
Proof.
  cbn [connect_loop]. destruct (initDatabase (db (database_calls p)) p) as [c p1].
  reflexivity.
Qed.

Lemma emit_wait_calls p : database_calls (emit (Wait 5000) p) = database_calls p.
Proof. rewrite database_calls_emit. lia. Qed.

(** The pool is still unassigned after the loop exactly when it was before
    and every attempt failed to create it. *)
Lemma connect_loop_pool retries db p :
  pool (connect_loop retries db p) = None <->
  pool p = None
  /\ forall k, (k < retries)%nat -> db (database_calls p + k)%nat = PoolCreationFails.
Proof.
  revert p. induction retries as [|n IH]; intros p.
  - cbn [connect_loop]. split; [intros H; split; [exact H|intros k Hk; lia]|tauto].
  - rewrite connect_loop_step, initDatabase_connected.
    pose proof (initDatabase_pool (db (database_calls p)) p) as Hp.
    pose proof (initDatabase_calls (db (database_calls p)) p) as Hc.
    destruct (db (database_calls p)) eqn:Hd.
    + rewrite IH. cbn [emit pool]. rewrite Hp, emit_wait_calls, Hc. split.
      * intros [Hnone Hall]. split; [exact Hnone|]. intros [|k] Hk.
        -- rewrite Nat.add_0_r. exact Hd.
        -- replace (database_calls p + S k)%nat with (S (database_calls p) + k)%nat
             by lia. apply Hall. lia.
      * intros [Hnone Hall]. split; [exact Hnone|]. intros k Hk.
        replace (S (database_calls p) + k)%nat with (database_calls p + S k)%nat
          by lia. apply Hall. lia.
    + rewrite IH. cbn [emit pool]. rewrite Hp. split; [intros [H _]; discriminate H|].
      intros [_ Hall]. specialize (Hall 0%nat ltac:(lia)).
      rewrite Nat.add_0_r, Hd in Hall. discriminate Hall.
    + rewrite Hp. split; [discriminate|].
      intros [_ Hall]. specialize (Hall 0%nat ltac:(lia)).
      rewrite Nat.add_0_r, Hd in Hall. discriminate Hall.
Qed.

Lemma connect_loop_events retries db p :
  Forall loop_event (timeline p) ->
  Forall loop_event (timeline (connect_loop retries db p)).
Proof.
  revert p. induction retries as [|n IH]; intros p Hp; [exact Hp|].
  rewrite connect_loop_step.
  assert (H1 : Forall loop_event
                 (timeline (snd (initDatabase (db (database_calls p)) p)))).
  { rewrite initDatabase_timeline. apply List.Forall_app. split; [exact Hp|].
    repeat constructor. }
  destruct (fst (initDatabase (db (database_calls p)) p)); [exact H1|].
  apply IH. cbn [emit timeline]. apply List.Forall_app. split; [exact H1|].
  repeat constructor.
Qed.

Lemma loop_events_only l e :
  Forall loop_event l -> loop_event e = False -> ~ In e l.
Proof.
  intros Hall He Hin. rewrite List.Forall_forall in Hall.
  specialize (Hall e Hin). rewrite He in Hall. exact Hall.
Qed.

(** The number of pauses on a timeline. *)
Lemma waits_emit e p :
  length (List.filter is_wait (timeline (emit e p)))
  = (length (List.filter is_wait (timeline p)) + if is_wait e then 1 else 0)%nat.
Proof.
  cbn [emit timeline]. rewrite List.filter_app, List.length_app.
  destruct e; reflexivity.
Qed.

Lemma connect_loop_first_connection retries db p k :
  (k < retries)%nat ->
  db (database_calls p + k)%nat = Connects ->
  (forall j, (j < k)%nat -> db (database_calls p + j)%nat <> Connects) ->
  database_calls (connect_loop retries db p) = (database_calls p + S k)%nat
  /\ In (TryDatabase Connects) (timeline (connect_loop retries db p))
  /\ pool (connect_loop retries db p) = Some tt
  /\ length (List.filter is_wait (timeline (connect_loop retries db p)))
     = (length (List.filter is_wait (timeline p)) + k)%nat.
Proof.
  revert p k. induction retries as [|n IH]; intros p k Hk Hconn Hbefore; [lia|].
  rewrite connect_loop_step, initDatabase_connected.
  pose proof (initDatabase_calls (db (database_calls p)) p) as Hc.
  pose proof (initDatabase_timeline (db (database_calls p)) p) as Ht.
  pose proof (initDatabase_pool (db (database_calls p)) p) as Hp.
  destruct k as [|k].
  - rewrite Nat.add_0_r in Hconn. rewrite Hconn in *.
    rewrite Hc, Ht, Hp, List.filter_app, List.length_app, List.in_app_iff.
    cbn. repeat split; auto. lia.
  - assert (Hfirst : db (database_calls p) <> Connects).
    { specialize (Hbefore 0%nat ltac:(lia)). rewrite Nat.add_0_r in Hbefore.
      exact Hbefore. }
    assert (E : match db (database_calls p) with Connects => true | _ => false end
                = false) by (destruct (db (database_calls p)); congruence).
    rewrite E.
    destruct (IH (emit (Wait 5000) (snd (initDatabase (db (database_calls p)) p))) k)
      as (H1 & H2 & H3 & H4).
    + lia.
    + rewrite emit_wait_calls, Hc.
      replace (S (database_calls p) + k)%nat with (database_calls p + S k)%nat by lia.
      exact Hconn.
    + intros j Hj. rewrite emit_wait_calls, Hc.
      replace (S (database_calls p) + j)%nat with (database_calls p + S j)%nat by lia.
      apply Hbefore. lia.
    + rewrite emit_wait_calls, Hc in H1. rewrite waits_emit, Ht in H4.
      rewrite List.filter_app, List.length_app in H4. cbn in H4.
      repeat split; auto; lia.
Qed.

Lemma startServer_calls db redis :
  database_calls (startServer db redis) = database_calls (connect_loop 5 db boot).
Proof.
  unfold startServer. destruct (pool (connect_loop 5 db boot)); [destruct redis|];
    cbn [initRedis snd]; rewrite !database_calls_emit;
    try change (database_calls (Process _ _ (timeline ?p))) with (database_calls p);
    lia.
Qed.

(** What [startServer] adds to the timeline of the loop. *)
Lemma startServer_timeline db redis :
  exists tail,
    timeline (startServer db redis) = timeline (connect_loop 5 db boot) ++ tail
    /\ Forall (fun e => is_wait e = false) tail
    /\ (pool (connect_loop 5 db boot) = Some tt ->
        tail = TryRedis redis
               :: match redis with Settles _ => [Listen] | NeverSettles => [] end)
    /\ (pool (connect_loop 5 db boot) = None -> tail = [Exit 1]).
Proof.
  unfold startServer. destruct (pool (connect_loop 5 db boot)) as [[]|].
  - destruct redis as [ok|].
    + exists [TryRedis (Settles ok); Listen]. cbn [emit initRedis snd timeline].
      rewrite <- List.app_assoc.
      repeat split; [repeat constructor|discriminate].
    + exists [TryRedis NeverSettles]. cbn [emit initRedis snd timeline].
      repeat split; [repeat constructor|discriminate].
  - exists [Exit 1]. repeat split; [repeat constructor|discriminate].
Qed.

(** A verified connection leaves the pool assigned. *)
Lemma verified_pool db :
  In (TryDatabase Connects) (timeline (connect_loop 5 db boot)) ->
  pool (connect_loop 5 db boot) = Some tt.
Proof.
  intros Hin.
  destruct (pool (connect_loop 5 db boot)) as [[]|] eqn:Hp; [reflexivity|].
  exfalso. apply connect_loop_pool in Hp as [_ Hall].
  assert (Hnone : forall n p,
            (forall k, (k < n)%nat ->
                       db (database_calls p + k)%nat = PoolCreationFails) ->
            In (TryDatabase Connects) (timeline (connect_loop n db p)) ->
            In (TryDatabase Connects) (timeline p)).
  { induction n as [|n IH]; intros p Hp Hi; [exact Hi|].
    rewrite connect_loop_step in Hi.
    pose proof (Hp 0%nat ltac:(lia)) as H0. rewrite Nat.add_0_r in H0.
    rewrite H0 in Hi. cbn [initDatabase fst snd] in Hi.
    apply IH in Hi.
    - cbn [emit timeline] in Hi. rewrite !List.in_app_iff in Hi. cbn in Hi.
      destruct Hi as [[Hi|[Hi|[]]]|[Hi|[]]]; try discriminate Hi. exact Hi.
    - intros k Hk. rewrite !database_calls_emit.
      replace (database_calls p + 1 + 0 + k)%nat
        with (database_calls p + S k)%nat by lia.
      apply Hp. lia. }
  apply (Hnone 5%nat boot) in Hin; [destruct Hin|exact Hall].
Qed.

(** Once the pool is assigned, the process listens exactly when the
    [connect()] of the cache client settles. *)
Lemma listening_iff_settles db redis :
  pool (connect_loop 5 db boot) = Some tt ->
  (listening (startServer db redis) <-> exists ok, redis = Settles ok).
Proof.
  intros Hp.
  assert (Hev : Forall loop_event (timeline (connect_loop 5 db boot)))
    by (apply connect_loop_events; constructor).
  destruct (startServer_timeline db redis) as (tail & Ht & _ & Hsome & _).
  specialize (Hsome Hp). subst tail. unfold listening. rewrite Ht.
  rewrite List.in_app_iff. split.
  - intros [Hin|Hin]; [destruct (loop_events_only _ Listen Hev eq_refl Hin)|].
    destruct redis as [ok|]; [exists ok; reflexivity|].
    cbn in Hin. destruct Hin as [H|[]]. discriminate H.
  - intros [ok ->]. right. right. left. reflexivity.
Qed.

(** X14.  How start-up ends, for every behaviour of the store and of the
    cache.  The process exits (with code 1) exactly when [mysql.createPool]
    threw on each of the five attempts.  It listens exactly when it did not
    exit and the [connect()] of the cache client settled, resolved or
    rejected, whether or not any attempt obtained a store connection.  It
    never does both; and while [connect()] stays pending, a process that did
    not exit does not listen either. *)
Theorem startServer_exits_or_listens (db : nat -> connect_result)
    (redis : redis_connect) :
  (exited (startServer db redis) <->
   forall k, (k < 5)%nat -> db k = PoolCreationFails)
  /\ (exited (startServer db redis) -> In (Exit 1) (timeline (startServer db redis)))
  /\ (listening (startServer db redis) <->
      ~ exited (startServer db redis) /\ exists ok, redis = Settles ok)
  /\ (redis = NeverSettles -> ~ listening (startServer db redis)).
Proof.
  pose proof (connect_loop_pool 5 db boot) as Hpool.
  change (database_calls boot) with 0%nat in Hpool. cbn [Nat.add] in Hpool.
  assert (Hev : Forall loop_event (timeline (connect_loop 5 db boot)))
    by (apply connect_loop_events; constructor).
  pose proof (listening_iff_settles db redis) as Hlisten.
  destruct (startServer_timeline db redis) as (tail & Ht & _ & Hsome & Hnone).
  unfold exited, listening. rewrite Ht.
  destruct (pool (connect_loop 5 db boot)) as [[]|] eqn:Hp.
  - specialize (Hsome eq_refl). specialize (Hlisten eq_refl). subst tail.
    unfold listening in Hlisten. rewrite Ht in Hlisten.
    assert (Hnot : ~ (forall k, (k < 5)%nat -> db k = PoolCreationFails)).
    { intros Hall. assert (Some tt = None); [|discriminate].
      apply Hpool. split; [reflexivity|exact Hall]. }
    assert (Hnoexit : forall code,
              ~ In (Exit code)
                  (timeline (connect_loop 5 db boot)
                   ++ TryRedis redis
                      :: match redis with Settles _ => [Listen] | NeverSettles => [] end)).
    { intros code Hin. apply List.in_app_iff in Hin. destruct Hin as [Hin|Hin].
      - exact (loop_events_only _ (Exit code) Hev eq_refl Hin).
      - destruct redis; cbn in Hin; intuition discriminate. }
    split; [split; [intros [code H]; destruct (Hnoexit code H)
                   |intros H; destruct (Hnot H)]|].
    split; [intros [code H]; destruct (Hnoexit code H)|].
    split.
    + rewrite Hlisten. split; [intros H; split; [|exact H]|intros [_ H]; exact H].
      intros [code Hin]. exact (Hnoexit code Hin).
    + intros -> Hin. apply Hlisten in Hin as [ok H]. discriminate H.
  - specialize (Hnone eq_refl). subst tail.
    assert (Hall : forall k, (k < 5)%nat -> db k = PoolCreationFails)
      by (apply Hpool; reflexivity).
    assert (Hexit : In (Exit 1) (timeline (connect_loop 5 db boot) ++ [Exit 1])).
    { apply List.in_app_iff. right. left. reflexivity. }
    assert (Hdeaf : ~ In Listen (timeline (connect_loop 5 db boot) ++ [Exit 1])).
    { intros Hin. apply List.in_app_iff in Hin.
      cbn [In] in Hin. destruct Hin as [Hin|[H|[]]]; [|discriminate H].
      destruct (loop_events_only _ Listen Hev eq_refl Hin). }
    split; [split; [intros _; exact Hall|intros _; exists 1; exact Hexit]|].
    split; [intros _; exact Hexit|].
    split; [split|].
    + intros Hin. destruct (Hdeaf Hin).
    + intros [Hno _]. destruct Hno. exists 1. exact Hexit.
    + intros _. exact Hdeaf.
Qed.

(** X15.  The loop stops at the first connection.  If the store hands out a
    connection at attempt number [k] (counting from 0, [k < 5]) and at none
    before, [startServer] has called [initDatabase] exactly [k + 1] times and
    paused exactly [k] times, the connection is verified and the cache is
    tried; the process then listens exactly when the [connect()] of the cache
    client settles. *)
Theorem startServer_first_connection (db : nat -> connect_result)
    (redis : redis_connect) (k : nat) :
  (k < 5)%nat ->
  db k = Connects ->
  (forall j, (j < k)%nat -> db j <> Connects) ->
  database_calls (startServer db redis) = S k
  /\ length (List.filter is_wait (timeline (startServer db redis))) = k
  /\ verified (startServer db redis)
  /\ In (TryRedis redis) (timeline (startServer db redis))
  /\ (listening (startServer db redis) <-> exists ok, redis = Settles ok).
Proof.
  intros Hk Hconn Hbefore.
  destruct (connect_loop_first_connection 5 db boot k Hk Hconn Hbefore)
    as (Hcalls & Hver & Hpool & Hwaits).
  change (database_calls boot) with 0%nat in Hcalls.
  cbn [boot timeline List.filter length Nat.add] in Hwaits, Hcalls.
  destruct (startServer_timeline db redis) as (tail & Ht & Hnowait & Htail & _).
  specialize (Htail Hpool). subst tail.
  split; [rewrite startServer_calls; exact Hcalls|].
  split.
  { rewrite Ht, List.filter_app, List.length_app, Hwaits.
    destruct redis; cbn; lia. }
  split; [unfold verified; rewrite Ht; apply List.in_app_iff; left; exact Hver|].
  split; [rewrite Ht; apply List.in_app_iff; right; left; reflexivity|].
  apply listening_iff_settles, Hpool.
Qed.

(** The store refuses two connections and grants the third; the cache
    refuses its connection. *)
Lemma startServer_first_connection_witness :
  database_calls (startServer (fun n => if (n <? 2)%nat then ConnectionFails else Connects)
                    (Settles false)) = 3%nat
  /\ length (List.filter is_wait
               (timeline (startServer
                  (fun n => if (n <? 2)%nat then ConnectionFails else Connects)
                  (Settles false))))
     = 2%nat
  /\ verified (startServer
                 (fun n => if (n <? 2)%nat then ConnectionFails else Connects)
                 (Settles false))
  /\ In (TryRedis (Settles false))
        (timeline (startServer
                     (fun n => if (n <? 2)%nat then ConnectionFails else Connects)
                     (Settles false)))
  /\ (listening (startServer
                   (fun n => if (n <? 2)%nat then ConnectionFails else Connects)
                   (Settles false))
      <-> exists ok, Settles false = Settles ok).
Proof.
  apply (startServer_first_connection
           (fun n => if (n <? 2)%nat then ConnectionFails else Connects)
           (Settles false) 2).
  - lia.
  - reflexivity.
  - intros [|[|j]] Hj; [discriminate|discriminate|lia].
Defined.

(** The store grants the first connection and the cache server cannot be
    reached: the timeline ends with the attempt on the cache, and the process
    neither listens nor exits. *)
Example startServer_waits_for_the_cache :
  timeline (startServer (fun _ => Connects) NeverSettles)
  = [TryDatabase Connects; TryRedis NeverSettles]
  /\ ~ listening (startServer (fun _ => Connects) NeverSettles)
  /\ ~ exited (startServer (fun _ => Connects) NeverSettles).
Proof.
  split; [reflexivity|]. split.
  - intros Hin. cbn in Hin. intuition discriminate.
  - intros [code Hin]. cbn in Hin. intuition discriminate.
Qed.

(** X16.  Bounds of start-up, for every behaviour of the store and of the
    cache: [initDatabase] is called at least once and at most five times,
    every pause of the loop lasts 5000 ms and there is at most one pause per
    attempt; after a verified connection the process listens exactly when
    the [connect()] of the cache client settles. *)
Theorem startServer_bounds (db : nat -> connect_result) (redis : redis_connect) :
  (1 <= database_calls (startServer db redis) <= 5)%nat
  /\ Forall fixed_backoff (timeline (startServer db redis))
  /\ (length (List.filter is_wait (timeline (startServer db redis)))
      <= database_calls (startServer db redis))%nat
  /\ (verified (startServer db redis) ->
      (listening (startServer db redis) <-> exists ok, redis = Settles ok)).
Proof.
  assert (Hpos : forall n p, (database_calls p + 1
                              <= database_calls (connect_loop (S n) db p))%nat).
  { intros n p. rewrite connect_loop_step.
    pose proof (initDatabase_calls (db (database_calls p)) p) as Hc.
    destruct (fst (initDatabase (db (database_calls p)) p)); [lia|].
    clear -Hc.
    assert (Hmono : forall m q, (database_calls q <= database_calls (connect_loop m db q))%nat).
    { induction m as [|m IH]; intros q; [cbn; lia|].
      rewrite connect_loop_step.
      pose proof (initDatabase_calls (db (database_calls q)) q) as Hq.
      destruct (fst (initDatabase (db (database_calls q)) q)); [lia|].
      etransitivity; [|apply IH]. rewrite emit_wait_calls. lia. }
    etransitivity; [|apply Hmono]. rewrite emit_wait_calls. lia. }
  assert (Hwaits : forall n p,
            (length (List.filter is_wait (timeline (connect_loop n db p)))
             + database_calls p
             <= length (List.filter is_wait (timeline p))
                + database_calls (connect_loop n db p))%nat).
  { induction n as [|n IH]; intros p; [cbn; lia|].
    rewrite connect_loop_step.
    pose proof (initDatabase_calls (db (database_calls p)) p) as Hc.
    pose proof (initDatabase_timeline (db (database_calls p)) p) as Ht.
    destruct (fst (initDatabase (db (database_calls p)) p)).
    - rewrite Ht, List.filter_app, List.length_app. cbn. lia.
    - specialize (IH (emit (Wait 5000) (snd (initDatabase (db (database_calls p)) p)))).
      rewrite waits_emit, emit_wait_calls, Ht, List.filter_app, List.length_app in IH.
      cbn in IH. lia. }
  destruct (startServer_timeline db redis) as (tail & Ht & Hnowait & Htail & Hexit).
  rewrite startServer_calls.
  pose proof (connect_loop_calls 5 db boot) as Hmax.
  specialize (Hpos 4%nat boot). specialize (Hwaits 5%nat boot).
  change (database_calls boot) with 0%nat in *. cbn [boot timeline List.filter length] in Hwaits.
  split; [lia|]. split; [|split].
  - rewrite Ht. apply List.Forall_app. split.
    + apply connect_loop_backoff. constructor.
    + eapply List.Forall_impl; [|exact Hnowait]. intros [] H; cbn in *; auto; discriminate.
  - rewrite Ht, List.filter_app, List.length_app.
    assert (Hz : length (List.filter is_wait tail) = 0%nat).
    { clear -Hnowait. induction Hnowait as [|e l He _ IH]; [reflexivity|].
      cbn [List.filter]. rewrite He. exact IH. }
    lia.
  - intros Hver. apply listening_iff_settles.
    unfold verified in Hver. rewrite Ht in Hver.
    apply List.in_app_iff in Hver. destruct Hver as [Hin|Hin];
      [apply verified_pool, Hin|].
    destruct (pool (connect_loop 5 db boot)) as [[]|]; [reflexivity|].
    rewrite (Hexit eq_refl) in Hin. cbn in Hin. destruct Hin as [H|[]].
    discriminate H.
Qed.

(** ** The page and the collection route *)

Lemma obj_get_after_indices k (items : list json) i :
  digits_only k = false -> obj_get k (index_from i items) = None.
Proof.
  intros Hk. revert i. induction items as [|x items IH]; intros i; [reflexivity|].
  cbn [index_from obj_get].
  destruct (String.eqb_spec k (pretty i)) as [E|_]; [|apply IH].
  rewrite E, pretty_nat_digits in Hk. discriminate Hk.
Qed.

Lemma obj_get_app k (l1 l2 : list (string * json)) :
  obj_get k l1 = None -> obj_get k (l1 ++ l2) = obj_get k l2.
Proof.
  induction l1 as [|[k' v] l1 IH]; [reflexivity|]. cbn [obj_get app].
  destruct (String.eqb k k'); [discriminate|exact IH].
Qed.

(** The page cannot load a tagged array: the reply is an object, it has no
    [length] and no [map]. *)
Lemma loadBooks_tagged_array card items p :
  loadBooks card (Some (tagged (JArr items))) p = load_failed p.
Proof.
  unfold loadBooks, tagged. cbn [spread length_of].
  rewrite obj_set_after_indices by reflexivity.
  rewrite obj_get_app by (apply obj_get_after_indices; reflexivity).
  reflexivity.
Qed.

Lemma pretty_nat_Z (n : nat) : pretty (Z.of_nat n) = pretty n.
Proof.
  destruct n as [|n]; [reflexivity|].
  reflexivity.
Qed.

Lemma loadBooks_rows card rows p :
  loadBooks card (Some (rows_json rows)) p = lists card rows p.
Proof.
  unfold loadBooks, lists, rows_json. cbn [length_of strict_eq_num].
  rewrite length_map.
  destruct rows as [|b rows]; [reflexivity|].
  change (Z.of_nat (length (b :: rows)) =? 0) with false. cbv iota.
  unfold displayBooks.
  destruct (join_cards card (map book_json (b :: rows))) as [html|]; [|reflexivity].
  cbn [booksContainer bookCount browser_console].
  unfold count_text, template, strict_eq_num. cbn [js_string].
  rewrite pretty_nat_Z. f_equal.
  destruct (Nat.eqb_spec (length (b :: rows)) 1) as [E|E].
  - rewrite E. reflexivity.
  - destruct (Z.eqb_spec (Z.of_nat (length (b :: rows))) 1); [lia|].
    reflexivity.
Qed.

Lemma coherent_collection_hit w :
  coherent w ->
  truthy (cache_lookup "books:all" w) = true ->
  cache_lookup "books:all" w = rows_json (order_by_created_at_desc (tie_break w) (books w)).
Proof.
  intros Hcoh Hhit.
  destruct (cache_hit_inv _ _ Hhit) as (Hopen & _ & v & t & Hk & Hv).
  destruct (Hcoh Hopen) as [Hall _]. specialize (Hall _ Hk).
  cbn [payload] in Hall. injection Hall as ->. exact Hv.
Qed.

(** X17.  What the page shows after [loadBooks], given the reply of
    [GET /api/books].  With a cache in step with the table, the page lists
    the rows of the table exactly when the request went to the store and the
    scan succeeded.  When the list was served from the cache, or the scan
    failed, the reply is an object, [displayBooks] throws, and the page shows
    the loading error and keeps its previous count. *)
Theorem loadBooks_after_GET_books (card : json -> option string)
    (w : world) (r : response) (p : page) :
  coherent w ->
  reply (GET_books w) = Some r ->
  loadBooks card (Some (body r)) p =
    if truthy (cache_lookup "books:all" w) || store_fault w (store_stmts w)
    then load_failed p
    else lists card (order_by_created_at_desc (tie_break w) (books w)) p.
Proof.
  intros Hcoh Hr.
  destruct (truthy (cache_lookup "books:all" w)) eqn:Hhit; cbn [orb].
  - rewrite (GET_books_hit_reply w Hhit) in Hr. injection Hr as <-.
    cbn [body]. rewrite (coherent_collection_hit w Hcoh Hhit).
    apply loadBooks_tagged_array.
  - rewrite (GET_books_miss_replied w r Hhit Hr).
    destruct (store_fault w (store_stmts w)); [reflexivity|].
    cbn [body]. apply loadBooks_rows.
Qed.

(** The seeded process lists its three books on the first load. *)
Lemma loadBooks_after_GET_books_witness :
  loadBooks plain_card
    (Some (rows_json (order_by_created_at_desc (tie_break seeded) (books seeded)))) blank_page
  = Page (Cards "<card><card><card>") "3 books" [].
Proof.
  exact (loadBooks_after_GET_books plain_card seeded
           (Response 200 (rows_json (order_by_created_at_desc (tie_break seeded) (books seeded))))
           blank_page seeded_coherent eq_refl).
Defined.

(** X18.  Reloading breaks the page.  With an open client, a cache that does
    not fail and is in step with the table: once [GET /api/books] has been
    answered 200, the next [GET /api/books] is answered from the cache, and
    the page that loads it shows the loading error instead of the list. *)
Theorem reload_shows_error (card : json -> option string)
    (w : world) (r1 r2 : response) (p : page) :
  isOpen w = true ->
  healthy w ->
  coherent w ->
  reply (GET_books w) = Some r1 ->
  status r1 = 200 ->
  reply (GET_books (after (GET_books w))) = Some r2 ->
  body r2 = tagged (rows_json (order_by_created_at_desc (tie_break w) (books w)))
  /\ loadBooks card (Some (body r2)) p = load_failed p.
Proof.
  intros Hopen Hh Hcoh Hr1 H200 Hr2.
  destruct (GET_books_effect w) as (Hb & _ & Hcl & Hcache).
  assert (Hopen1 : isOpen (after (GET_books w)) = true)
    by (rewrite (same_client_isOpen _ _ Hcl); exact Hopen).
  assert (Hh1 : healthy (after (GET_books w)))
    by (apply (healthy_same_client w); assumption).
  assert (Hcoh1 : coherent (after (GET_books w)))
    by (apply (coherent_serve ListBooks); assumption).
  destruct (serve_same_engine ListBooks w) as [Ht _]. cbn [serve] in Ht.
  assert (Hhit : truthy (cache_lookup "books:all" (after (GET_books w))) = true).
  { unfold cache_lookup. rewrite getFromCache_eq, Hopen1, Hh1. cbn [negb].
    destruct (truthy (cache_lookup "books:all" w)) eqn:Hhit0.
    - destruct (cache_hit_inv _ _ Hhit0) as (_ & _ & v & t & Hk & Hv).
      destruct Hcache as [Hc|[_ Hc]]; rewrite Hc.
      + rewrite Hk. cbn [fst payload]. rewrite <- Hv. exact Hhit0.
      + rewrite lookup_insert_eq. reflexivity.
    - rewrite (GET_books_miss_replied w r1 Hhit0 Hr1) in H200.
      destruct (store_fault w (store_stmts w)) eqn:Hsf; [discriminate H200|].
      clear H200 Hcache. unfold cache_lookup in Hhit0.
      destruct (getFromCache_frame "books:all" w (healthy_responsive w Hh))
        as (v & w1 & E & (Hb1 & _ & _ & Hsf1 & Hsn1 & _) & Hcl1 & Hc1).
      rewrite E in Hhit0. cbn [fst] in Hhit0.
      rewrite (GET_books_miss_run w v w1 E Hhit0), Hsf1, Hsn1, Hsf.
      rewrite after_reply_after. unfold after. rewrite setToCache_eq.
      change (isOpen (one_statement w1)) with (isOpen w1).
      change (cache_fault (one_statement w1)) with (cache_fault w1).
      rewrite (same_client_isOpen _ _ Hcl1), Hopen.
      destruct Hcl1 as (_ & Hf1 & _). rewrite Hf1, Hh.
      cbn. rewrite lookup_insert_eq. reflexivity. }
  rewrite (GET_books_hit_reply _ Hhit) in Hr2. injection Hr2 as <-.
  cbn [body]. rewrite (coherent_collection_hit _ Hcoh1 Hhit), Hb, Ht.
  split; [reflexivity|apply loadBooks_tagged_array].
Qed.

(** The seeded process: the first load lists three books and fills the
    cache, the second load fails. *)
Lemma reload_shows_error_witness :
  body (Response 200 (tagged (rows_json (order_by_created_at_desc (tie_break seeded) (books seeded)))))
  = tagged (rows_json (order_by_created_at_desc (tie_break seeded) (books seeded)))
  /\ loadBooks plain_card
       (Some (body (Response 200
                      (tagged (rows_json (order_by_created_at_desc (tie_break seeded) (books seeded)))))))
       (Page (Cards "<card><card><card>") "3 books" [])
     = load_failed (Page (Cards "<card><card><card>") "3 books" []).
Proof.
  apply (reload_shows_error plain_card seeded
           (Response 200 (rows_json (order_by_created_at_desc (tie_break seeded) (books seeded))))).
  - reflexivity.
  - intros n. reflexivity.
  - exact seeded_coherent.
  - reflexivity.
  - reflexivity.
  - reflexivity.
Defined.
